(** * PyGeodesy: ellipsoid models and the polar stereographic (UPS) projection

    A shallow embedding of [pygeodesy/ellipsoids.py] and [pygeodesy/ups.py].

    Python [float]s are embedded as real numbers: every arithmetic operation
    is the exact one, so rounding is not part of the model.  What is part of
    the model is Python's control flow: the comparisons against [EPS], the
    truthiness tests, the exceptions raised by the code and by the [math]
    module ([ZeroDivisionError], [ValueError] for domain errors), the
    [try]/[except] clauses, the global [Ellipsoids] registry that the
    constructor updates, and, in the Newton loop of [es_tauf], the largest
    finite float.  Properties whose truth depends on the rounding of floats
    are stated for flattenings of at most 1/2 in magnitude, where the
    quantities compared are far from the tolerances they are compared
    with. *)

From Stdlib Require Import Reals Lra Lia Psatz String.
From stdpp Require Import base decidable option gmap strings.

Local Open Scope R_scope.

(** ** Python exceptions and results *)

(** The exception classes the two modules raise or let escape.  [UnitError],
    [RangeError] and [UPSError] derive from [ValueError] in
    [pygeodesy/errors.py]. *)
Inductive exn : Set :=
| ValueError
| UnitError
| RangeError
| UPSError
| TypeError
| AssertionError
| NameError
| ZeroDivisionError
| OverflowError.

(** [isinstance(x, ValueError)]. *)
Definition is_ValueError (x : exn) : bool :=
  match x with
  | ValueError | UnitError | RangeError | UPSError => true
  | _ => false
  end.

(** [isinstance(x, (TypeError, ValueError))], the test of the clause
    [except (TypeError, ValueError) as x]. *)
Definition is_TypeError_or_ValueError (x : exn) : bool :=
  match x with
  | TypeError => true
  | _ => is_ValueError x
  end.

Inductive result (A : Type) : Type :=
| OK (x : A)
| Raise (e : exn).
Arguments OK {A} x.
Arguments Raise {A} e.

Definition bind {A B : Type} (c : result A) (k : A -> result B) : result B :=
  match c with
  | OK x => k x
  | Raise e => Raise e
  end.

Notation "x <- c1 ;; c2" := (bind c1 (fun x => c2))
  (at level 100, c1 at next level, right associativity).

(** [try: c except (TypeError, ValueError) as x: raise _ValueError(...)]. *)
Definition try_except_ValueError {A : Type} (c : result A) : result A :=
  match c with
  | OK x => OK x
  | Raise e => Raise (if is_TypeError_or_ValueError e then ValueError else e)
  end.

(** Comparisons of floats are decidable tests in the code. *)
#[global] Instance Rlt_decision : RelDecision Rlt := Rlt_dec.
#[global] Instance Rle_decision : RelDecision Rle := Rle_dec.
#[global] Instance Rgt_decision : RelDecision Rgt := Rgt_dec.
#[global] Instance Rge_decision : RelDecision Rge := Rge_dec.
#[global] Instance Req_decision : EqDecision R := Req_dec_T.

(** Truthiness of a float ([if f:]): non-zero. *)
Definition truthy (x : R) : bool := bool_decide (x <> 0).

(** Truthiness of an optional float argument ([if b:] where [b] may be
    [None]): present and non-zero. *)
Definition truthy_opt (x : option R) : bool :=
  match x with
  | Some v => truthy v
  | None => false
  end.

(** Float division [x / y]; Python raises on a zero divisor. *)
Definition div (x y : R) : result R :=
  if decide (y = 0) then Raise ZeroDivisionError else OK (x / y).

(** ** The [math] module *)

Module math.

(** [math.sqrt] raises [ValueError] on a negative argument. *)
Definition sqrt (x : R) : result R :=
  if decide (x < 0) then Raise ValueError else OK (R_sqrt.sqrt x).

(** [math.atanh] raises [ValueError] outside the open interval (-1, 1). *)
Definition atanh (x : R) : result R :=
  if decide (-1 < x < 1) then OK (ln ((1 + x) / (1 - x)) / 2)
  else Raise ValueError.

(** [math.copysign(x, y)]: the magnitude of [x] with the sign of [y]; the
    zero flattenings the code produces are positive zeros. *)
Definition copysign (x y : R) : R :=
  if decide (y < 0) then - Rabs x else Rabs x.


(** [math.radians] and [math.degrees]. *)
Definition radians (d : R) : R := d * PI / 180.
Definition degrees (r : R) : R := r * 180 / PI.


End math.

(** ** Constants of [pygeodesy.interns] *)

(** Modelled from the spec: [interns.py] is not part of the sources; the spec
    calls [EPS] the machine epsilon, which for Python floats is [2^-52]. *)
Definition EPS : R := / 4503599627370496.

(** Modelled from the spec: [EPS1] is [1 - machineEpsilon]. *)
Definition EPS1 : R := 1 - EPS.

(** Modelled from the spec: [_1_EPS], the bound [1 / EPS] on the magnitude of
    an inverse flattening (docstring of [Ellipsoid.__init__]). *)
Definition _1_EPS : R := 1 / EPS.

Definition PI_2 : R := PI / 2.

(** ** The range of floats *)

(** [sys.float_info.max], the largest finite float.  Floats are modelled as
    real numbers and their rounding is not modelled; where [es_tauf]
    computes a number beyond the largest finite float, the model follows
    what Python does there. *)
Definition float_max : R := (2 - EPS) * 2 ^ 1023.

(** [x ** 2] on a float: Python raises [OverflowError] when the square is
    beyond the largest finite float. *)
Definition float_pow2 (x : R) : result R :=
  if decide (float_max < x ^ 2) then Raise OverflowError else OK (x ^ 2).

(** ** Helpers of [pygeodesy.fmath], [pygeodesy.basics], [pygeodesy.units] *)

(** Modelled from the spec: [fmath.hypot1(x)] is [sqrt(1 + x^2)], as written
    in the spec's scale formula. *)
Definition hypot1 (x : R) : R := sqrt (1 + x ^ 2).

(** Modelled from the spec: [fmath.fsum_] is a sum with tracked rounding
    error; on reals it is the sum. *)
Definition fsum_ (xs : list R) : R := foldr Rplus 0 xs.

(** Modelled from the spec: [fmath.Fsum] keeps a running sum;
    [Fsum.fsum2_(d)] adds [d] and returns the new sum with its difference
    to the previous one. *)
Definition fsum2_ (T d : R) : R * R :=
  let s := T + d in (s, s - T).

(** [basics.neg]. *)
Definition neg (x : R) : R := - x.

(** Modelled from the spec: [units.Float_(x, low=..., high=...)] raises
    [UnitError] below [low] or above [high]; [None] is no limit. *)
Definition Float_ (x : R) (low high : option R) : result R :=
  if match low with Some l => bool_decide (x < l) | None => false end
  then Raise UnitError
  else if match high with Some h => bool_decide (x > h) | None => false end
       then Raise UnitError
       else OK x.

(** Modelled from the spec: [units.Radius_] is [Float_] with [low=EPS] (the
    comment at its calls in [Ellipsoid.__init__]) and no upper limit. *)
Definition Radius_ (x : R) : result R := Float_ x (Some EPS) None.

(** Modelled from the spec: [units.Lat(lat, clip=90)] keeps a latitude in
    degrees; one beyond [clip] degrees is a [RangeError] in the default
    strict-range mode, and [clip=0] checks nothing. *)
Definition Lat (lat clip : R) : result R :=
  if decide (clip > 0 /\ Rabs lat > clip) then Raise RangeError else OK lat.

(** Modelled from the spec: [units.Phi_(lat, clip=90)] is the latitude
    converted to radians, once, after the same check. *)
Definition Phi_ (lat clip : R) : result R :=
  lat <- Lat lat clip ;; OK (math.radians lat).

(** Modelled from the spec: [units.Bearing_(bearing)] is the azimuth
    converted to radians. *)
Definition Bearing_ (bearing : R) : R := math.radians bearing.

(** Modelled from the spec: [utily.atand] is [atan] in degrees
    ([tan(aux) = ratio * tan(lat)], with both latitudes in degrees). *)
Definition atand (x : R) : R := math.degrees (atan x).



(** Modelled from the spec: [units.Scalar_(x, Error=..., low=...)] raises
    the given error for a value below [low]. *)
Definition Scalar_ (x low : R) (Error : exn) : result R :=
  if decide (x < low) then Raise Error else OK x.

(** ** [pygeodesy/ellipsoids.py] *)

(** [_TOL = sqrt(_0_1 * EPS)]. *)
Definition _TOL : R := sqrt (0.1 * EPS).

Definition _spherical (f : R) : bool :=
  bool_decide (Rabs f < EPS) || bool_decide (f > EPS1).

Definition _spherical_ (f_ : R) : bool :=
  bool_decide (Rabs f_ < EPS) || bool_decide (Rabs f_ > _1_EPS).

Definition _spherical_a_b (a b : R) : bool :=
  bool_decide (a < EPS) || bool_decide (b < EPS) || bool_decide (Rabs (a - b) < EPS).

Definition a_b2e2 (a b : R) : result R :=
  if _spherical_a_b a b then OK 0
  else q <- div b a ;; OK (1 - q ^ 2).

Definition a_b2f (a b : R) : result R :=
  f <- (if _spherical_a_b a b then OK 0 else div (a - b) a) ;;
  OK (if _spherical f then 0 else f).

Definition a_f2b (a f : R) : R :=
  if _spherical f then a else a * (1 - f).

Definition a_f_2b (a f_ : R) : result R :=
  if _spherical_ f_ then OK a else div (a * (f_ - 1)) f_.

Definition f2e2 (f : R) : R :=
  if _spherical f then 0 else f * (2 - f).

Definition f2f_ (f : R) : result R :=
  f_ <- (if _spherical f then OK 0 else div 1 f) ;;
  OK (if _spherical_ f_ then 0 else f_).

(** [a_b2e]: the eccentricity from the two radii. *)
Definition a_b2e (a b : R) : result R :=
  e2 <- a_b2e2 a b ;; math.sqrt (Rabs e2).

(** The values of a Python [float] that some converters return: a real
    number, or [INF] or [-INF] of [pygeodesy.interns]. *)
Inductive float_inf : Type :=
| finite (x : R)
| INF
| neg_INF.

Definition a_b2e22 (a b : R) : result R :=
  if _spherical_a_b a b then OK 0
  else q <- div a b ;; OK (q ^ 2 - 1).

Definition a_b2e32 (a b : R) : result R :=
  let a2 := a ^ 2 in
  let b2 := b ^ 2 in
  if _spherical_a_b a2 b2 then OK 0 else div (a2 - b2) (a2 + b2).

Definition a_b2n (a b : R) : result R :=
  let t := if _spherical_a_b a b then 0 else a - b in
  if decide (Rabs t < EPS) then OK 0 else div t (a + b).

Definition b_f2a (b f : R) : result R :=
  let t := 1 - f in
  if _spherical f || bool_decide (Rabs t < EPS) then OK b else div b t.

Definition b_f_2a (b f_ : R) : result R :=
  let t := f_ - 1 in
  if _spherical_ f_ || bool_decide (Rabs t < EPS)
     || bool_decide (Rabs (t - f_) < EPS)
  then OK b
  else div (b * f_) t.

Definition f2e22 (f : R) : result float_inf :=
  let t := (1 - f) ^ 2 in
  if decide (t < EPS) then OK INF
  else q <- div (f2e2 f) t ;; OK (finite q).

Definition f2e32 (f : R) : result R :=
  let e2 := f2e2 f in
  div e2 (2 - e2).

Definition f_2f (f_ : R) : result R :=
  f <- (if _spherical_ f_ then OK 0 else div 1 f_) ;;
  OK (if _spherical f then 0 else f).

Definition f2f2 (f : R) : result float_inf :=
  let t := 1 - f in
  if _spherical f then OK (finite 0)
  else if decide (Rabs t < EPS) then OK INF
       else q <- div f t ;; OK (finite q).

Definition f2n (f : R) : result R :=
  if _spherical f then OK 0 else div f (2 - f).

Definition n2e2 (n : R) : result float_inf :=
  let t := (1 + n) ^ 2 in
  if decide (Rabs n < EPS) then OK (finite 0)
  else if decide (t < EPS) then OK neg_INF
       else q <- div (4 * n) t ;; OK (finite q).

(** [_spherical] of [-INF] is false: neither [abs(f) < EPS] nor
    [f > EPS1] holds; it is true of [INF]. *)
Definition n2f (n : R) : result float_inf :=
  let t := n + 1 in
  f <- (if decide (Rabs n < EPS) then OK (finite 0)
        else if decide (t < EPS) then OK neg_INF
             else q <- div (2 * n) t ;; OK (finite q)) ;;
  OK (match f with
      | finite f => finite (if _spherical f then 0 else f)
      | INF => finite 0
      | neg_INF => neg_INF
      end).

(** [_aux(lat, inverse, auxLat, clip)] of the module, the latitude
    returned by the [aux...] methods. *)
Definition _aux (lat clip : R) : result R := Lat lat clip.

(** [_s2_c2(phi)]: the squares of the sine and the cosine. *)
Definition _s2_c2 (phi : R) : R * R :=
  let c2 := cos phi ^ 2 in
  (1 - c2, c2).

(** [a_f2Tuple(a, f)], the 2-tuple of [a_f2Tuple.__new__], with its
    property [b]. *)
Definition a_f2Tuple (a f : R) : result (R * R) :=
  a <- Radius_ a ;;
  f <- Float_ f None (Some EPS1) ;;
  OK (a, if decide (Rabs f < EPS) then 0 else f).

Definition a_f2Tuple_b (self : R * R) : R := a_f2b (fst self) (snd self).

(** The four primary attributes of an [Ellipsoid] instance and its name.
    The other attributes are memoised pure functions of these. *)
Record Ellipsoid : Type := mkEllipsoid {
  _a : R;
  _b : R;
  _f : R;
  _f_ : R;
  name : string
}.

(** The global [Ellipsoids] registry, a name-keyed collection of instances. *)
Abbreviation registry := (gmap string Ellipsoid).

(** Modelled from the spec: [_NamedEnumItem._register] of [pygeodesy.named]
    is not part of the sources.  The spec: "Register under [name]; duplicate
    name => naming failure"; the [name] argument is optional ([name=NN]) and
    an unnamed instance is not registered. *)
Definition _register (Ellipsoids : registry) (name : string) (self : Ellipsoid)
  : result registry :=
  if decide (name = ""%string) then OK Ellipsoids
  else match Ellipsoids !! name with
       | Some _ => Raise NameError
       | None => OK (<[name := self]> Ellipsoids)
       end.

Module Ellipsoid.

Definition a (self : Ellipsoid) : R := _a self.
Definition b (self : Ellipsoid) : R := _b self.
Definition f (self : Ellipsoid) : R := _f self.
Definition f_ (self : Ellipsoid) : R := _f_ self.

(** [_assert(val, eps, f0, name=v)]: the value [v] of the single keyword
    argument is compared with [val]. *)
Definition _assert (self : Ellipsoid) (val : R) (v : R) (eps f0 : R) : result R :=
  if decide (Rabs (v - val) > eps) then Raise AssertionError
  else OK (if truthy (f self) then v else f0).

Definition a_b (self : Ellipsoid) : result R :=
  if truthy (f self) then div (a self) (b self) else OK 1.

Definition a2_b2 (self : Ellipsoid) : result R :=
  if truthy (f self) then q <- a_b self ;; OK (q ^ 2) else OK 1.

Definition b_a (self : Ellipsoid) : result R :=
  q <- div (b self) (a self) ;;
  _assert self q (1 - f self) _TOL 1.

Definition b2_a2 (self : Ellipsoid) : result R :=
  if truthy (f self) then q <- b_a self ;; OK (q ^ 2) else OK 1.

Definition e2 (self : Ellipsoid) : result R :=
  x <- a_b2e2 (a self) (b self) ;;
  _assert self x (f2e2 (f self)) _TOL 0.

(** [e2abs] reads the cache [_e2], which [__init__] has filled through
    its last cross-check. *)
Definition e2abs (self : Ellipsoid) : result R :=
  x <- e2 self ;; OK (Rabs x).

Definition e12 (self : Ellipsoid) : result R :=
  x <- e2 self ;;
  _assert self ((1 - f self) ^ 2) (1 - x) _TOL 1.

Definition e (self : Ellipsoid) : result R :=
  if truthy (f self) then x <- e2abs self ;; math.sqrt x else OK 0.

Definition es (self : Ellipsoid) : result R :=
  x <- e self ;; OK (math.copysign x (f self)).

Definition es_atanh (self : Ellipsoid) (x : R) : result R :=
  if decide (f self > 0) then
    e <- e self ;; r <- math.atanh (e * x) ;; OK (e * r)
  else if decide (f self < 0) then
    e <- e self ;; OK (- e * atan (e * x))
  else OK 0.

Definition es_c (self : Ellipsoid) : result R :=
  if truthy (f self) then
    q <- b_a self ;; r <- es_atanh self 1 ;; OK (q * exp r)
  else OK 1.

Definition es_taupf (self : Ellipsoid) (tau : R) : result R :=
  let T := tau in
  let t := hypot1 T in
  q <- div T t ;;
  r <- es_atanh self q ;;
  let s := sinh r in
  OK (hypot1 s * T - s * t).

(** One pass through the body of the [for] loop of [es_tauf]: the new
    estimate [t] and the difference [d] returned by [T.fsum2_].  [t**2]
    raises [OverflowError] beyond the range of floats.  A sum or a product
    beyond it is infinite: an infinite numerator gives an update that is
    not finite, which [T.fsum2_] refuses with [ValueError], and a finite
    numerator over an infinite denominator gives the update 0.  A running
    sum that itself leaves the range of floats is not modelled. *)
Definition es_tauf_step (self : Ellipsoid) (T_ e t : R) : result (R * R) :=
  a <- es_taupf self t ;;
  t2 <- float_pow2 t ;;
  d <- (if decide (float_max < e + t2 \/ float_max < Rabs ((T_ - a) * (e + t2)))
        then Raise ValueError
        else if decide (float_max < hypot1 t * hypot1 a) then OK 0
             else div ((T_ - a) * (e + t2)) (hypot1 t * hypot1 a)) ;;
  OK (fsum2_ t d).

(** [for _ in range(n)] of [es_tauf], from the estimate [t]; the running
    sum [T] of the code holds [t].  The second component counts the passes
    made, which the code does not return. *)
Fixpoint es_tauf_loop (self : Ellipsoid) (T_ tol e : R) (n : nat) (t : R)
  : result (R * nat) :=
  match n with
  | O => OK (t, O)
  | S n' =>
      td <- es_tauf_step self T_ e t ;;
      if decide (Rabs (snd td) < tol) then OK (fst td, 1%nat)
      else r <- es_tauf_loop self T_ tol e n' (fst td) ;;
           OK (fst r, S (snd r))
  end.

(** [es_tauf] together with the number of passes through its loop.
    [Fsum(t)] refuses a first estimate that is not finite as [T.fsum2_]
    refuses an update. *)
Definition es_tauf_passes (self : Ellipsoid) (taup : R) : result (R * nat) :=
  let T_ := taup in
  let tol := Rmax (Rabs T_) 1 * _TOL in
  e <- a2_b2 self ;;
  let t := T_ * e in
  if decide (float_max < Rabs t) then Raise ValueError
  else es_tauf_loop self T_ tol e 9 t.

Definition es_tauf (self : Ellipsoid) (taup : R) : result R :=
  r <- es_tauf_passes self taup ;; OK (fst r).

Definition isEllipsoidal (self : Ellipsoid) : bool := bool_decide (f self <> 0).
Definition isOblate (self : Ellipsoid) : bool := bool_decide (f self > 0).
Definition isProlate (self : Ellipsoid) : bool := bool_decide (f self < 0).
Definition isSpherical (self : Ellipsoid) : bool := bool_decide (f self = 0).

Definition _f_late (self : Ellipsoid) (_f_a_b : R -> R -> R) : R :=
  if decide (f self > 0) then _f_a_b (a self) (b self)
  else if decide (f self < 0) then _f_a_b (b self) (a self)
  else a self.

Definition R1 (self : Ellipsoid) : R :=
  let _R1 (a b : R) := fsum_ [a; a; b] / 3 in
  _f_late self _R1.

Definition e2s2 (self : Ellipsoid) (s : R) : result R :=
  try_except_ValueError
    (e2 <- e2 self ;;
     let r := 1 - e2 * s ^ 2 in
     if decide (r < 0) then Raise ValueError else OK r).

(** [roc2_] returns the pair (meridional, prime vertical). *)
Definition roc2_ (self : Ellipsoid) (phi : R) (scaled : bool) : result (R * R) :=
  let a_ := Rabs phi in
  r <- e2s2 self (if decide (a_ < PI_2) then sin a_ else 1) ;;
  mn <- (if decide (r < EPS) then OK (0, 0)
         else s <- math.sqrt r ;;
              n <- div (a self) s ;;
              e12 <- e12 self ;;
              m <- div (n * e12) r ;;
              OK (m, n)) ;;
  let n := if scaled then snd mn * (if decide (a_ < PI_2) then cos a_ else 0)
           else snd mn in
  OK (fst mn, n).

(** The body of the [try] block of [__init__]: the normalised
    [(a, b, f, f_)]. *)
Definition __init__try (a : R) (b f_ : option R) : result (R * R * R * R) :=
  a <- Radius_ a ;;
  bff <- (if truthy_opt b then
            b <- Radius_ (default 0 b) ;;
            f <- a_b2f a b ;;
            f_ <- (match f_ with
                   | None => f2f_ f
                   | Some v => OK v
                   end) ;;
            OK (b, f, f_)
          else if truthy_opt f_ then
            b <- a_f_2b a (default 0 f_) ;;
            b <- Radius_ b ;;
            f <- a_b2f a b ;;
            OK (b, f, default 0 f_)
          else OK (a, 0, 0)) ;;
  let '(b, f, f_) := bff in
  if bool_decide (Rabs f < EPS) || bool_decide (a = b) || negb (truthy f_)
  then OK (a, a, 0, 0)
  else if decide (f > EPS1) then Raise ValueError
  else OK (a, b, f, f_).

(** The cross-checks at the end of [__init__]. *)
Definition __init__checks (self : Ellipsoid) : result unit :=
  _ <- (if truthy (f self) && truthy (f_ self) then
          q <- div 1 (f self) ;;
          _ <- _assert self q (f_ self) _TOL 0 ;;
          q <- div 1 (f_ self) ;;
          _assert self q (f self) _TOL 0
        else OK 0) ;;
  x <- b2_a2 self ;;
  y <- e12 self ;;
  _ <- _assert self x y EPS 0 ;;
  OK tt.

(** [Ellipsoid(a, b, f_, name)], run against the registry [Ellipsoids]:
    the registry afterwards, and the instance or the exception. *)
Definition __init__ (a : R) (b f_ : option R) (name : string)
    (Ellipsoids : registry) : registry * result Ellipsoid :=
  match try_except_ValueError (__init__try a b f_) with
  | Raise x => (Ellipsoids, Raise x)
  | OK (a, b, f, f_) =>
      let self := mkEllipsoid a b f f_ name in
      match _register Ellipsoids name self with
      | Raise x => (Ellipsoids, Raise x)
      | OK Ellipsoids' =>
          (Ellipsoids', _ <- __init__checks self ;; OK self)
      end
  end.

Definition a2 (self : Ellipsoid) : R := a self ^ 2.


Definition b2 (self : Ellipsoid) : R := b self ^ 2.


(** [_assert(a_b2e22(a, b), e22=f2e22(f))]: for an infinite keyword value
    [abs(v - val) > eps] holds and the assertion fails. *)
Definition e22 (self : Ellipsoid) : result R :=
  x <- a_b2e22 (a self) (b self) ;;
  v <- f2e22 (f self) ;;
  match v with
  | finite v => _assert self x v _TOL 0
  | _ => Raise AssertionError
  end.

Definition e32 (self : Ellipsoid) : result R :=
  x <- a_b2e32 (a self) (b self) ;;
  v <- f2e32 (f self) ;;
  _assert self x v _TOL 0.

Definition f2 (self : Ellipsoid) : result R :=
  q <- a_b self ;;
  v <- f2f2 (f self) ;;
  match v with
  | finite v => _assert self (q - 1) v _TOL 0
  | _ => Raise AssertionError
  end.

Definition n (self : Ellipsoid) : result R :=
  x <- a_b2n (a self) (b self) ;;
  v <- f2n (f self) ;;
  _assert self x v _TOL 0.

Definition a_f (self : Ellipsoid) : result (R * R) :=
  a_f2Tuple (a self) (f self).


Definition Rgeocentric (self : Ellipsoid) (lat : R) : result R :=
  phi <- Phi_ lat 90 ;;
  let '(s2, c2) := _s2_c2 phi in
  q <- b2_a2 self ;;
  let b2_a2_s2 := q * s2 in
  if truthy (f self) then
    d <- div (c2 + b2_a2_s2 * q) (c2 + b2_a2_s2) ;;
    r <- math.sqrt d ;;
    OK (r * a self)
  else OK (a self).

Definition Rlat (self : Ellipsoid) (lat : R) : result R :=
  let _ab_90 := (a self - b self) / 90 in
  if truthy lat then
    l <- Lat lat 0 ;;
    OK (a self - _ab_90 * Rmin (Rabs l) 90)
  else OK (a self).


Definition roc2 (self : Ellipsoid) (lat : R) (scaled : bool) : result (R * R) :=
  phi <- Phi_ lat 90 ;; roc2_ self phi scaled.

Definition rocBearing (self : Ellipsoid) (lat bearing : R) : result R :=
  let '(s2, c2) := _s2_c2 (Bearing_ bearing) in
  phi <- Phi_ lat 90 ;;
  mn <- roc2_ self phi false ;;
  let '(m, n) := mn in
  if decide (n < m) then
    q <- div n m ;; div n (c2 * q + s2)
  else if decide (m < n) then
    q <- div m n ;; div m (c2 + s2 * q)
  else div n (c2 + s2).

Definition rocGauss (self : Ellipsoid) (lat : R) : result R :=
  phi <- Phi_ lat 90 ;;
  let '(s2, c2) := _s2_c2 phi in
  q <- b2_a2 self ;;
  div (b self) (c2 + q * s2).

Definition rocMean (self : Ellipsoid) (lat : R) : result R :=
  phi <- Phi_ lat 90 ;;
  mn <- roc2_ self phi false ;;
  let '(m, n) := mn in
  div (2 * m * n) (m + n).



Definition auxGeocentric (self : Ellipsoid) (lat : R) (inverse : bool) : result R :=
  lat <- (if isEllipsoidal self then
            f <- (if inverse then a2_b2 self else b2_a2 self) ;;
            phi <- Phi_ lat 90 ;;
            OK (atand (f * tan phi))
          else OK lat) ;;
  _aux lat 90.

Definition auxParametric (self : Ellipsoid) (lat : R) (inverse : bool) : result R :=
  lat <- (if isEllipsoidal self then
            f <- (if inverse then a_b self else b_a self) ;;
            phi <- Phi_ lat 90 ;;
            OK (atand (f * tan phi))
          else OK lat) ;;
  _aux lat 90.

End Ellipsoid.

Module Ellipsoid2.

(** [Ellipsoid2(a, f, name)]: the exceptions caught by the [except] clause
    are re-raised as [ValueError]; the registry keeps what the inner
    constructor did to it. *)
Definition __init__ (a f : R) (name : string) (Ellipsoids : registry)
  : registry * result Ellipsoid :=
  match (a <- Float_ a (Some EPS) None ;;
         f <- Float_ f None (Some EPS1) ;;
         OK (a, f)) with
  | Raise x => (Ellipsoids, try_except_ValueError (Raise x))
  | OK (a, f) =>
      let r := Ellipsoid.__init__ a (Some (a_f2b a f)) None name Ellipsoids in
      (fst r, try_except_ValueError (snd r))
  end.

End Ellipsoid2.

(** ** [pygeodesy/ups.py] *)

(** Modelled from the spec: the constants of [pygeodesy.utmupsBase], which
    is not part of the sources.  UPS covers the latitudes beyond -79.5 and
    83.5 degrees, and its pseudo-zone is the fixed number 0. *)
Definition _UPS_LAT_MIN : R := -79.5.
Definition _UPS_LAT_MAX : R := 83.5.
Definition _UPS_ZONE : Z := 0.

(** Modelled from the spec: [utmupsBase._hemi], the hemisphere letter of a
    latitude. *)
Definition _hemi (lat : R) : string :=
  if decide (lat < 0) then "S"%string else "N"%string.

(** Modelled from the spec: [utily.sincos2d], the sine and cosine of an angle
    in degrees (forward step 3: [x = rho sin(lon)], [y = -/+ rho cos(lon)]). *)
Definition sincos2d (deg : R) : R * R :=
  (sin (math.radians deg), cos (math.radians deg)).


Definition _Bands : list string := ["A"; "B"; "Y"; "Z"]%string.
Definition _Falsing : R := 2000e3.
Definition _K0 : R := 0.994.
Definition _K1 : R := 1.

Definition _Band (a b : R) : string :=
  nth (Nat.add (if decide (a < 0) then 0%nat else 2%nat)
               (if decide (b < 0) then 0%nat else 1%nat))
      _Bands ""%string.

Definition _scale (E : Ellipsoid) (rho tau : R) : result R :=
  let t := hypot1 tau in
  q <- div rho (Ellipsoid.a E) ;;
  e12 <- Ellipsoid.e12 E ;;
  e2 <- Ellipsoid.e2 E ;;
  q2 <- div e2 (t ^ 2) ;;
  s <- math.sqrt (e12 + q2) ;;
  OK (q * t * s).

(** [LatLonDatum5Tuple(lat, lon, datum, convergence, scale)]. *)
Record LatLonDatum5Tuple : Type := mkLatLonDatum5Tuple {
  lat5 : R;
  lon5 : R;
  datum5 : Ellipsoid;
  convergence5 : R;
  scale5 : R
}.

(** An [Ups] instance: the attributes set by [Ups.__init__] and by
    [UtmUpsBase.__init__], the class attribute [_scale0], the hemisphere set
    by [toUps8], and the cached result of [toLatLon] with the [unfalse] it was
    computed for. *)
Record Ups : Type := mkUps {
  _pole : string;
  _easting : R;
  _northing : R;
  _band : string;
  _datum : Ellipsoid;
  _falsed : bool;
  _convergence : option R;
  _scale_ : option R;
  _scale0 : R;
  _hemisphere : string;
  _latlon : option (LatLonDatum5Tuple * bool)
}.

(** [UtmUpsLatLon5Tuple(zone, band, hemipole, lat, lon)] of [upsZoneBand5]. *)
Record UtmUpsLatLon5Tuple : Type := mkUtmUpsLatLon5Tuple {
  zone5 : Z;
  band5 : string;
  hemipole5 : string;
  lat : R;
  lon : R
}.

(** The first character of a string, in upper case: [s[:1].upper()]. *)
Definition upper1 (s : string) : string :=
  match s with
  | EmptyString => EmptyString
  | String c _ =>
      let n := Ascii.nat_of_ascii c in
      String (if (97 <=? n)%nat && (n <=? 122)%nat
              then Ascii.ascii_of_nat (n - 32) else c) EmptyString
  end.

Section UPS.

(** [_to3zll] of [pygeodesy.utmupsBase] applied to the pair returned by
    [parseDMS2(lat, lon)] of [pygeodesy.dms], neither part of the sources:
    the UTM zone and the clipped latitude and longitude, or the exception
    raised. *)
Variable _to3zll_parseDMS2 : R -> R -> result (Z * R * R).

(** [_LLEB(lat, lon, datum=...)] of [pygeodesy.utmupsBase], not part of the
    sources: the constructor of the ellipsoidal geodetic point, which
    returns the latitude and the longitude the point holds or raises. *)
Variable _LLEB : R -> R -> Ellipsoid -> result (R * R).

Definition upsZoneBand5 (lat lon : R) (strict : bool) : result UtmUpsLatLon5Tuple :=
  zll <- _to3zll_parseDMS2 lat lon ;;
  let '(z, lat, lon) := zll in
  if decide (lat < _UPS_LAT_MIN) then
    OK (mkUtmUpsLatLon5Tuple _UPS_ZONE (_Band lat lon) "S" lat lon)
  else if decide (lat > _UPS_LAT_MAX) then
    OK (mkUtmUpsLatLon5Tuple _UPS_ZONE (_Band lat lon) "N" lat lon)
  else if strict then Raise RangeError
  else OK (mkUtmUpsLatLon5Tuple z "" (_hemi lat) lat lon).

(** Modelled from the spec: [utmupsBase._to3zBhp] checks the zone, band and
    pole given to [Ups.__init__]; an invalid pole string is a failure. *)
Definition _to3zBhp (zone : Z) (band hemipole : string) : result (Z * string * string) :=
  let p := upper1 hemipole in
  if bool_decide (p = "N"%string) || bool_decide (p = "S"%string)
  then OK (zone, band, p)
  else Raise ValueError.

(** [Ups(zone, pole, easting, northing, band, datum, falsed, convergence,
    scale)] for the class whose [_scale0] is [scale0]. *)
Definition Ups__init__ (scale0 : R) (zone : Z) (pole : string) (easting northing : R)
    (band : string) (datum : Ellipsoid) (falsed : bool)
    (convergence scale : option R) : result Ups :=
  zBp <- match (zBp <- _to3zBhp zone band pole ;;
                let '(z, B, p) := zBp in
                if bool_decide (z <> _UPS_ZONE)
                   || (bool_decide (B <> ""%string) && bool_decide (B ∉ _Bands))
                then Raise ValueError else OK zBp) with
         | OK zBp => OK zBp
         | Raise x => Raise (if is_TypeError_or_ValueError x then UPSError else x)
         end ;;
  let '(z, B, p) := zBp in
  OK (mkUps p easting northing B datum falsed convergence scale scale0 "" None).

(** [toUps8(lat, lon, datum=E, Ups=<class with _scale0 = k0>, pole, falsed,
    strict)] for a latitude and a longitude given as numbers. *)
Definition toUps8 (latlon lon : R) (E : Ellipsoid) (k0 : R) (pole : string)
    (falsed strict : bool) : result Ups :=
  let lat := latlon in
  zB <- upsZoneBand5 lat lon strict ;;
  let '(mkUtmUpsLatLon5Tuple z B p lat lon) := zB in
  let p := upper1 (if bool_decide (pole <> ""%string) then pole else p) in
  let N := bool_decide (p = "N"%string) in
  let a := if N then lat else - lat in
  let A := bool_decide (Rabs (a - 90) < _TOL) in
  let t := tan (math.radians a) in
  T <- Ellipsoid.es_taupf E t ;;
  let r := hypot1 T + Rabs T in
  r <- (if decide (T >= 0) then (if A then OK 0 else div 1 r) else OK r) ;;
  es_c <- Ellipsoid.es_c E ;;
  q <- div (2 * k0 * Ellipsoid.a E) es_c ;;
  let r := r * q in
  k <- (if A then OK k0 else _scale E r t) ;;
  let c := lon in
  let '(x, y) := sincos2d c in
  let x := x * r in
  let y := y * r in
  let '(y, c) := if N then (neg y, c) else (y, neg c) in
  let '(x, y) := if falsed then (x + _Falsing, y + _Falsing) else (x, y) in
  let z := if bool_decide (z <> _UPS_ZONE) && negb strict then _UPS_ZONE else z in
  r <- Ups__init__ k0 z p x y B E falsed (Some c) (Some k) ;;
  OK (mkUps (_pole r) (_easting r) (_northing r) (_band r) (_datum r) (_falsed r)
            (_convergence r) (_scale_ r) (_scale0 r) (_hemi lat) (_latlon r)).



(** [Ups.rescale0(lat, scale0)]: the instance afterwards.  [_UpsK1] is the
    class whose [_scale0] is [_K1]; [toUps8] is called with its defaults
    [pole=NN], [falsed=True], [strict=True]. *)
Definition rescale0 (self : Ups) (lat scale0 : R) : result Ups :=
  s0 <- Scalar_ scale0 EPS UPSError ;;
  l <- Lat lat 90 ;;
  u <- toUps8 (Rabs l) 0 (_datum self) _K1 "" true true ;;
  k <- match _scale_ u with
       | Some s => div s0 s
       | None => Raise TypeError
       end ;;
  OK (if bool_decide (_scale0 self <> k) then
        mkUps (_pole self) (_easting self) (_northing self) "" (_datum self)
              (_falsed self) (_convergence self) (_scale_ self) k
              (_hemisphere self) None
      else self).

End UPS.

(** Modelled from the spec: the normalisation done by [parseDMS2] and
    [_to3zll], for the default of raising on coordinates outside their
    domain (spec, section 7): a latitude in [-90, 90] and a longitude in
    [-180, 180) come back unchanged (the comment "[-180, 180) from
    .upsZoneBand5" in [toUps8]) with the number of their 6-degree UTM zone,
    any other coordinate is a [RangeError]. *)
Definition _to3zll_in_range (lat lon : R) : result (Z * R * R) :=
  if decide (-90 <= lat <= 90 /\ -180 <= lon < 180)
  then OK ((Int_part ((lon + 180) / 6) + 1)%Z, lat, lon)
  else Raise RangeError.

(** The instance that [Ellipsoid(R_MA, None, 298.257223563, 'WGS84')] at the
    end of [ellipsoids.py] constructs: [b = a (f_ - 1) / f_] and
    [f = (a - b) / a]. *)
Definition R_MA : R := 6378137.0.

Definition WGS84 : Ellipsoid :=
  let a := R_MA in
  let f_ := 298.257223563 in
  let b := a * (f_ - 1) / f_ in
  mkEllipsoid a b ((a - b) / a) f_ "WGS84".

(** The extremely flat ellipsoid [Ellipsoid(1, 1e-9)], which the
    constructor accepts. *)
Definition too_flat : Ellipsoid :=
  mkEllipsoid 1 (/ 1000000000) ((1 - / 1000000000) / 1)
              (1 / ((1 - / 1000000000) / 1)) "".

(** The tiny ellipsoid [Ellipsoid(1e-9, 5e-10)], which the constructor
    accepts: both radii are above [EPS]. *)
Definition tiny : Ellipsoid :=
  mkEllipsoid (/ 1000000000) (/ 2000000000)
              ((/ 1000000000 - / 2000000000) / / 1000000000)
              (1 / ((/ 1000000000 - / 2000000000) / / 1000000000)) "".

(** ** Validly constructed ellipsoids *)

(** [E] is the instance returned by some call of the constructor. *)
Definition constructed (E : Ellipsoid) : Prop :=
  exists a b f_ name Ellipsoids Ellipsoids',
    Ellipsoid.__init__ a b f_ name Ellipsoids = (Ellipsoids', OK E).

(** What the [try] block of the constructor establishes: the instance is
    either collapsed to a sphere, or its flattening is that of its radii,
    is not below [EPS] in magnitude and not above [EPS1]. *)
Definition normalised (E : Ellipsoid) : Prop :=
  EPS <= _a E /\
  ((_f E = 0 /\ _b E = _a E /\ _f_ E = 0) \/
   (EPS <= _b E /\ EPS <= Rabs (_a E - _b E) /\ _f E = (_a E - _b E) / _a E
    /\ EPS <= Rabs (_f E) /\ _f E <= EPS1 /\ _f_ E <> 0)).

(** * Properties *)

(** ** Constants and the result monad *)

Lemma EPS_pos : 0 < EPS.
Proof. unfold EPS. apply Rinv_0_lt_compat. lra. Qed.

Lemma EPS_small : EPS < / 1000000.
Proof. unfold EPS. lra. Qed.

Lemma _TOL_pos : 0 < _TOL.
Proof. unfold _TOL. apply sqrt_lt_R0. pose proof EPS_pos. lra. Qed.

Lemma _TOL_lt_1 : _TOL < 1.
Proof.
  pose proof EPS_pos. pose proof EPS_small.
  assert (H1 : sqrt (0.1 * EPS) < sqrt 1) by (apply sqrt_lt_1; lra).
  rewrite sqrt_1 in H1. exact H1.
Qed.

Ltac case_dec := repeat (case_bool_decide || case_decide).

Lemma bind_OK {A B} (c : result A) (k : A -> result B) y :
  (x <- c ;; k x) = OK y -> exists x, c = OK x /\ k x = OK y.
Proof. destruct c; simpl; intros H; [eauto | discriminate]. Qed.

Lemma try_except_OK {A} (c : result A) y :
  try_except_ValueError c = OK y -> c = OK y.
Proof. destruct c; simpl; intros H; [assumption | discriminate]. Qed.

Lemma Radius__OK x y : Radius_ x = OK y -> y = x /\ EPS <= x.
Proof.
  unfold Radius_, Float_. intros H. case_dec; inversion H; subst. split; lra.
Qed.

Lemma Radius__accepts x : EPS <= x -> Radius_ x = OK x.
Proof. unfold Radius_, Float_. intros H. case_dec; [lra | reflexivity]. Qed.

Lemma Radius__rejects x : x < EPS -> Radius_ x = Raise UnitError.
Proof. unfold Radius_, Float_. intros H. case_dec; [reflexivity | lra]. Qed.

Lemma div_OK x y : y <> 0 -> div x y = OK (x / y).
Proof. unfold div. intros H. case_dec; [contradiction | reflexivity]. Qed.

Lemma sqrt_OK x : 0 <= x -> math.sqrt x = OK (sqrt x).
Proof. unfold math.sqrt. intros H. case_dec; [lra | reflexivity]. Qed.

(** ** The flattening computed from the radii *)

Lemma a_b2f_OK a b f :
  a_b2f a b = OK f ->
  f = 0 \/ (EPS <= a /\ EPS <= b /\ EPS <= Rabs (a - b) /\ f = (a - b) / a
            /\ EPS <= Rabs f /\ f <= EPS1).
Proof.
  unfold a_b2f, _spherical_a_b, _spherical, div.
  intros H.
  case_dec; simpl in H; case_dec; simpl in H; inversion H; subst; auto;
    try (right; repeat split; lra).
Qed.

Lemma a_b2f_near_spherical a b :
  EPS <= a -> Rabs ((a - b) / a) < EPS -> a_b2f a b = OK 0.
Proof.
  intros Ha Hf. unfold a_b2f, _spherical_a_b, _spherical.
  pose proof EPS_pos.
  case_dec; simpl; try reflexivity; try rewrite div_OK by lra; simpl;
    case_dec; simpl; try reflexivity; lra.
Qed.

Lemma __init__try_normalised a b f_ a' b' f' f_' :
  Ellipsoid.__init__try a b f_ = OK (a', b', f', f_') ->
  forall name, normalised (mkEllipsoid a' b' f' f_' name).
Proof.
  unfold Ellipsoid.__init__try. intros H name.
  apply bind_OK in H as (a0 & Ha & H). apply Radius__OK in Ha as [-> Ha].
  apply bind_OK in H as ([[b0 f0] f_0] & Hb & H).
  assert (Hf0 : f0 = 0 \/
                (EPS <= a /\ EPS <= b0 /\ EPS <= Rabs (a - b0) /\ f0 = (a - b0) / a
                 /\ EPS <= Rabs f0 /\ f0 <= EPS1)).
  { destruct (truthy_opt b).
    - apply bind_OK in Hb as (b1 & Hb1 & Hb). apply Radius__OK in Hb1 as [-> Hb1].
      apply bind_OK in Hb as (f1 & Hf1 & Hb). apply a_b2f_OK in Hf1.
      apply bind_OK in Hb as (f_1 & Hf_1 & Hb). inversion Hb; subst. exact Hf1.
    - destruct (truthy_opt f_).
      + apply bind_OK in Hb as (b1 & Hb1 & Hb).
        apply bind_OK in Hb as (b2 & Hb2 & Hb). apply Radius__OK in Hb2 as [-> Hb2].
        apply bind_OK in Hb as (f1 & Hf1 & Hb). apply a_b2f_OK in Hf1.
        inversion Hb; subst. exact Hf1.
      + inversion Hb; subst. left; reflexivity. }
  unfold normalised; simpl. unfold truthy in H.
  case_dec; simpl in H; try discriminate; inversion H; subst; split; auto;
    try (left; repeat split; reflexivity).
  right. destruct Hf0 as [->|Hf0].
  - pose proof EPS_pos. rewrite Rabs_R0 in *. lra.
  - repeat split; try tauto; try lra.
Qed.

Lemma constructed_normalised E : constructed E -> normalised E.
Proof.
  intros (a & b & f_ & name & reg & reg' & H).
  unfold Ellipsoid.__init__ in H.
  destruct (try_except_ValueError (Ellipsoid.__init__try a b f_))
    as [[[[a' b'] f'] f_']|x] eqn:Htry; [|inversion H].
  apply try_except_OK in Htry.
  destruct (_register reg name _) as [reg1|x]; [|inversion H].
  inversion H as [[Hreg HE]].
  apply bind_OK in HE as (u & _ & HE). inversion HE; subst.
  eapply __init__try_normalised; eassumption.
Qed.

(** ** Attributes of a normalised ellipsoid *)

Lemma _assert_agree E val v eps f0 :
  0 <= eps -> v = val ->
  Ellipsoid._assert E val v eps f0 = OK (if truthy (Ellipsoid.f E) then v else f0).
Proof.
  intros Heps ->. unfold Ellipsoid._assert.
  replace (val - val) with 0 by lra. rewrite Rabs_R0.
  case_dec; [lra | reflexivity].
Qed.

Lemma normalised_a_pos E : normalised E -> 0 < _a E.
Proof. intros [H _]. pose proof EPS_pos. lra. Qed.

Lemma normalised_b_pos E : normalised E -> 0 < _b E.
Proof. intros [H [(_ & -> & _)|(Hb & _)]]; pose proof EPS_pos; lra. Qed.

Lemma normalised_f_lt_1 E : normalised E -> _f E < 1.
Proof.
  intros [H [(-> & _)|(_ & _ & _ & _ & Hf & _)]]; pose proof EPS_pos;
    unfold EPS1 in *; lra.
Qed.

Lemma normalised_b_a E : normalised E -> _b E / _a E = 1 - _f E.
Proof.
  intros HE. pose proof (normalised_a_pos E HE).
  destruct HE as [Ha [(-> & -> & _)|(_ & _ & -> & _)]]; field; lra.
Qed.

Lemma b_a_OK E : normalised E -> Ellipsoid.b_a E = OK (1 - _f E).
Proof.
  intros HE. pose proof (normalised_a_pos E HE). pose proof _TOL_pos.
  unfold Ellipsoid.b_a, Ellipsoid.a, Ellipsoid.b, Ellipsoid.f.
  rewrite div_OK by lra. simpl.
  rewrite _assert_agree by (try lra; symmetry; apply normalised_b_a; assumption).
  unfold truthy, Ellipsoid.f. case_dec; [reflexivity|].
  f_equal. assert (_f E = 0) by (destruct (decide (_f E = 0)); tauto). lra.
Qed.

Lemma b2_a2_OK E : normalised E -> Ellipsoid.b2_a2 E = OK ((1 - _f E) ^ 2).
Proof.
  intros HE. unfold Ellipsoid.b2_a2. rewrite b_a_OK by assumption. simpl.
  unfold truthy, Ellipsoid.f. case_dec; [reflexivity|].
  f_equal. assert (_f E = 0) by (destruct (decide (_f E = 0)); tauto). nra.
Qed.

Lemma e2_OK E : normalised E -> Ellipsoid.e2 E = OK (_f E * (2 - _f E)).
Proof.
  intros HE. pose proof (normalised_a_pos E HE). pose proof _TOL_pos.
  pose proof EPS_pos. pose proof (normalised_b_a E HE) as Hba.
  unfold Ellipsoid.e2, Ellipsoid.a, Ellipsoid.b, Ellipsoid.f.
  destruct HE as [Ha [(Hf & Hb & _)|(Hb & Hab & Hf & Hf1 & Hf2 & _)]].
  - unfold a_b2e2, _spherical_a_b. rewrite Hb.
    replace (_a E - _a E) with 0 by lra. rewrite Rabs_R0.
    case_dec; try lra; simpl.
    all: rewrite _assert_agree;
      [ unfold truthy, Ellipsoid.f; rewrite Hf; case_dec; [lra | f_equal; lra]
      | lra
      | unfold f2e2, _spherical; rewrite Hf, Rabs_R0; case_dec; simpl; lra ].
  - unfold a_b2e2, _spherical_a_b.
    case_dec; try lra; simpl. rewrite div_OK by lra. simpl.
    rewrite _assert_agree.
    + unfold truthy, Ellipsoid.f, f2e2, _spherical. case_dec; simpl; try lra; try reflexivity.
      match goal with H : _f E = 0 |- _ => rewrite H, Rabs_R0 in Hf1 end; lra.
    + lra.
    + unfold f2e2, _spherical. case_dec; simpl; try lra.
      rewrite Hba. ring.
Qed.

Lemma e12_OK E : normalised E -> Ellipsoid.e12 E = OK (1 - _f E * (2 - _f E)).
Proof.
  intros HE. pose proof _TOL_pos.
  unfold Ellipsoid.e12. rewrite e2_OK by assumption. simpl.
  rewrite _assert_agree by (try lra; unfold Ellipsoid.f; ring).
  unfold truthy, Ellipsoid.f. case_dec; [reflexivity|].
  f_equal. assert (_f E = 0) by (destruct (decide (_f E = 0)); tauto). nra.
Qed.

Lemma normalised_e2_lt_1 E : normalised E -> _f E * (2 - _f E) < 1.
Proof. intros HE. pose proof (normalised_f_lt_1 E HE). nra. Qed.

(** ** The constructor *)

Lemma __init__checks_OK E :
  normalised E ->
  _f E = 0 \/ (Rabs (_f_ E - 1 / _f E) <= _TOL /\ Rabs (_f E - 1 / _f_ E) <= _TOL) ->
  Ellipsoid.__init__checks E = OK tt.
Proof.
  intros HE Hx. pose proof EPS_pos. pose proof _TOL_pos.
  unfold Ellipsoid.__init__checks.
  rewrite b2_a2_OK, e12_OK by assumption.
  assert (Hpre : exists v,
             (if truthy (Ellipsoid.f E) && truthy (Ellipsoid.f_ E)
              then q <- div 1 (Ellipsoid.f E);;
                   _ <- Ellipsoid._assert E q (Ellipsoid.f_ E) _TOL 0;;
                   q0 <- div 1 (Ellipsoid.f_ E);;
                   Ellipsoid._assert E q0 (Ellipsoid.f E) _TOL 0
              else OK 0) = OK v).
  { unfold Ellipsoid._assert, truthy, Ellipsoid.f, Ellipsoid.f_.
    case_dec; simpl; eauto.
    destruct Hx as [Hx|[Hx1 Hx2]]; [contradiction|].
    rewrite !div_OK by assumption. simpl.
    case_dec; simpl; try lra; eauto. }
  destruct Hpre as [v Hpre].
  rewrite Hpre. simpl.
  rewrite _assert_agree by (try lra; ring). reflexivity.
Qed.

Lemma __init__checks_cases E :
  normalised E ->
  Ellipsoid.__init__checks E = OK tt \/
  Ellipsoid.__init__checks E = Raise AssertionError.
Proof.
  intros HE. pose proof EPS_pos. pose proof _TOL_pos.
  destruct (decide (_f E = 0)) as [Hf|Hf].
  { left. apply __init__checks_OK; auto. }
  destruct (decide (Rabs (_f_ E - 1 / _f E) <= _TOL)) as [H1|H1].
  - destruct (decide (Rabs (_f E - 1 / _f_ E) <= _TOL)) as [H2|H2].
    + left. apply __init__checks_OK; auto.
    + right. unfold Ellipsoid.__init__checks.
      destruct HE as [_ [(Hf0 & _)|(_ & _ & _ & _ & _ & Hf_)]]; [contradiction|].
      unfold Ellipsoid._assert, truthy, Ellipsoid.f, Ellipsoid.f_.
      case_dec; simpl; try contradiction.
      rewrite !div_OK by assumption. simpl.
      case_dec; simpl; try lra; try reflexivity.
  - right. unfold Ellipsoid.__init__checks.
    destruct HE as [_ [(Hf0 & _)|(_ & _ & _ & _ & _ & Hf_)]]; [contradiction|].
    unfold Ellipsoid._assert, truthy, Ellipsoid.f, Ellipsoid.f_.
    case_dec; simpl; try contradiction.
    rewrite !div_OK by assumption. simpl.
    case_dec; simpl; try lra; try reflexivity.
Qed.

Lemma _register_fresh (reg : registry) name E :
  reg !! name = None ->
  exists reg', _register reg name E = OK reg'.
Proof.
  intros H. unfold _register. case_dec; [eauto|]. rewrite H. eauto.
Qed.

(** A step-by-step reading of the constructor, once the [try] block is
    through. *)
Lemma __init__after_try a b f_ name (reg : registry) a' b' f' f_' :
  Ellipsoid.__init__try a b f_ = OK (a', b', f', f_') ->
  Ellipsoid.__init__ a b f_ name reg =
    let self := mkEllipsoid a' b' f' f_' name in
    match _register reg name self with
    | Raise x => (reg, Raise x)
    | OK reg' => (reg', _ <- Ellipsoid.__init__checks self ;; OK self)
    end.
Proof.
  intros H. unfold Ellipsoid.__init__. rewrite H. reflexivity.
Qed.

Lemma __init__try_sphere a b f_ :
  EPS <= a -> EPS <= b -> Rabs ((a - b) / a) < EPS ->
  Ellipsoid.__init__try a (Some b) f_ = OK (a, a, 0, 0).
Proof.
  intros Ha Hb Hf. pose proof EPS_pos.
  unfold Ellipsoid.__init__try.
  rewrite (Radius__accepts a) by assumption. simpl.
  unfold truthy. case_dec; [|lra].
  rewrite (Radius__accepts b) by assumption. simpl.
  rewrite a_b2f_near_spherical by assumption. simpl.
  assert (Hf2 : f2f_ 0 = OK 0).
  { unfold f2f_, _spherical, _spherical_. rewrite Rabs_R0.
    case_dec; simpl; try lra; rewrite ?Rabs_R0; case_dec; simpl; try reflexivity; lra. }
  destruct f_ as [v|]; [|rewrite Hf2]; simpl; rewrite Rabs_R0;
    case_dec; simpl; try reflexivity; lra.
Qed.

Lemma sphere_normalised a name : EPS <= a -> normalised (mkEllipsoid a a 0 0 name).
Proof. intros Ha. split; [exact Ha|]. left. auto. Qed.

Lemma __init__sphere a b f_ name (reg : registry) :
  EPS <= a -> EPS <= b -> Rabs ((a - b) / a) < EPS -> reg !! name = None ->
  exists reg',
    Ellipsoid.__init__ a (Some b) f_ name reg = (reg', OK (mkEllipsoid a a 0 0 name)).
Proof.
  intros Ha Hb Hf Hreg.
  rewrite (__init__after_try _ _ _ _ _ _ _ _ _ (__init__try_sphere a b f_ Ha Hb Hf)).
  simpl.
  destruct (_register_fresh reg name (mkEllipsoid a a 0 0 name) Hreg) as [reg' ->].
  exists reg'. rewrite __init__checks_OK; [reflexivity | apply sphere_normalised; assumption |].
  left; reflexivity.
Qed.

(** C5: constructing an ellipsoid whose flattening is below [EPS] in
    magnitude is not an error.  For a valid equatorial radius [a] and a name
    that is free in the registry, both [Ellipsoid(a, b, f_)] with radii whose
    flattening [(a - b) / a] is below [EPS] in magnitude (such as [b = a]) and
    [Ellipsoid2(a, f)] with [|f| < EPS] (such as [f = 0]) return the sphere of
    radius [a]: [f = 0], [f_ = 0], [b = a], [isSpherical] holds and [e2 = 0]. *)
Theorem spherical_collapse (a : R) (name : string) (reg : registry) :
  EPS <= a -> reg !! name = None ->
  let E := mkEllipsoid a a 0 0 name in
  (forall b f_, EPS <= b -> Rabs ((a - b) / a) < EPS ->
     exists reg', Ellipsoid.__init__ a (Some b) f_ name reg = (reg', OK E))
  /\ (forall f, Rabs f < EPS ->
     exists reg', Ellipsoid2.__init__ a f name reg = (reg', OK E))
  /\ Ellipsoid.f E = 0 /\ Ellipsoid.f_ E = 0 /\ Ellipsoid.b E = Ellipsoid.a E
  /\ Ellipsoid.isSpherical E = true /\ Ellipsoid.e2 E = OK 0.
Proof.
  intros Ha Hreg E. pose proof EPS_pos. pose proof EPS_small.
  split; [|split].
  - intros b f_ Hb Hf. apply __init__sphere; assumption.
  - intros f Hf. unfold Ellipsoid2.__init__, Float_. unfold EPS1.
    assert (Hf' : f < EPS) by (apply Rabs_def2 in Hf; lra).
    case_dec; try lra. simpl.
    assert (Hb : a_f2b a f = a).
    { unfold a_f2b, _spherical. case_dec; simpl; try reflexivity; lra. }
    rewrite Hb.
    destruct (__init__sphere a a None name reg) as [reg' Hr]; auto.
    { replace ((a - a) / a) with 0 by (field; lra). rewrite Rabs_R0. lra. }
    exists reg'. rewrite Hr. reflexivity.
  - repeat split; try reflexivity.
    + unfold Ellipsoid.isSpherical. simpl. case_dec; [reflexivity | contradiction].
    + rewrite e2_OK by (apply sphere_normalised; assumption). simpl. f_equal. lra.
Qed.

Lemma spherical_collapse_witness :
  EPS <= 1 /\ (∅ : registry) !! "Unit"%string = None /\
  (exists reg', Ellipsoid.__init__ 1 (Some 1) None "Unit" ∅
                = (reg', OK (mkEllipsoid 1 1 0 0 "Unit")))
  /\ (exists reg', Ellipsoid2.__init__ 1 0 "Unit" ∅
                = (reg', OK (mkEllipsoid 1 1 0 0 "Unit"))).
Proof.
  assert (H1 : EPS <= 1) by (pose proof EPS_small; lra).
  assert (H2 : (∅ : registry) !! "Unit"%string = None) by apply lookup_empty.
  destruct (spherical_collapse 1 "Unit" ∅ H1 H2) as (Ha & Hb & _).
  split; [exact H1|]. split; [exact H2|]. split.
  - apply Ha; [exact H1|].
    replace ((1 - 1) / 1) with 0 by field. rewrite Rabs_R0. apply EPS_pos.
  - apply Hb. rewrite Rabs_R0. apply EPS_pos.
Defined.

(** ** Running the model on concrete numbers *)

Ltac solve_R :=
  try intro;
  unfold EPS1, _1_EPS, EPS, _UPS_LAT_MIN, _UPS_LAT_MAX in *;
  try split_Rabs; lra.

Ltac solve_cond := first [ solve_R | discriminate | congruence | reflexivity ].

(** Decide every test of the goal whose outcome follows by linear
    arithmetic. *)
Ltac run_tests :=
  repeat match goal with
    | |- context [bool_decide ?P] =>
        first [ rewrite (bool_decide_eq_true_2 P) by solve_cond
              | rewrite (bool_decide_eq_false_2 P) by solve_cond ]
    | |- context [@decide ?P ?d] =>
        first [ rewrite (@decide_True _ P d) by solve_cond
              | rewrite (@decide_False _ P d) by solve_cond ]
    end.

Create HintDb pygeodesy.
#[global] Hint Unfold
  div math.sqrt math.atanh truthy truthy_opt Float_ Radius_
  _spherical _spherical_ _spherical_a_b a_b2e2 a_b2f a_f2b a_f_2b f2e2 f2f_
  a_b2e : pygeodesy.

Ltac run := repeat (progress (autounfold with pygeodesy; run_tests; simpl)).

Lemma __init__try_zero_b :
  Ellipsoid.__init__try 1 (Some 0) None = OK (1, 1, 0, 0).
Proof.
  unfold Ellipsoid.__init__try. run. reflexivity.
Qed.

Lemma __init__try_degenerate :
  Ellipsoid.__init__try 4 (Some EPS) None = OK (4, 4, 0, 0).
Proof.
  unfold Ellipsoid.__init__try. run. reflexivity.
Qed.

(** ** Exceptions of the constructor *)

Lemma bind_Raise {A B} (c : result A) (k : A -> result B) e :
  (x <- c ;; k x) = Raise e -> c = Raise e \/ exists v, c = OK v /\ k v = Raise e.
Proof. destruct c; simpl; intros H; [right; eauto | left; congruence]. Qed.

Lemma Radius__Raise x e : Radius_ x = Raise e -> e = UnitError.
Proof. unfold Radius_, Float_. intros H. case_dec; congruence. Qed.

Lemma div_Raise x y e : div x y = Raise e -> e = ZeroDivisionError.
Proof. unfold div. intros H. case_dec; congruence. Qed.

Lemma a_b2f_Raise a b e : a_b2f a b = Raise e -> e = ZeroDivisionError.
Proof.
  unfold a_b2f. intros H. apply bind_Raise in H as [H|(v & _ & H)]; [|discriminate].
  destruct (_spherical_a_b a b); [discriminate|]. eapply div_Raise; eassumption.
Qed.

Lemma f2f__Raise f e : f2f_ f = Raise e -> e = ZeroDivisionError.
Proof.
  unfold f2f_. intros H. apply bind_Raise in H as [H|(v & _ & H)]; [|discriminate].
  destruct (_spherical f); [discriminate|]. eapply div_Raise; eassumption.
Qed.

Lemma a_f_2b_Raise a f_ e : a_f_2b a f_ = Raise e -> e = ZeroDivisionError.
Proof.
  unfold a_f_2b. intros H.
  destruct (_spherical_ f_); [discriminate|]. eapply div_Raise; eassumption.
Qed.

Lemma __init__try_raises a b f_ x :
  Ellipsoid.__init__try a b f_ = Raise x ->
  x = UnitError \/ x = ValueError \/ x = ZeroDivisionError.
Proof.
  unfold Ellipsoid.__init__try. intros H.
  apply bind_Raise in H as [H|(a0 & _ & H)]; [apply Radius__Raise in H; auto|].
  apply bind_Raise in H as [H|([[b0 f0] f_0] & _ & H)].
  - destruct (truthy_opt b).
    + apply bind_Raise in H as [H|(b1 & _ & H)]; [apply Radius__Raise in H; auto|].
      apply bind_Raise in H as [H|(f1 & _ & H)]; [apply a_b2f_Raise in H; auto|].
      apply bind_Raise in H as [H|(f_1 & _ & H)]; [|discriminate].
      destruct f_; [discriminate|]. apply f2f__Raise in H; auto.
    + destruct (truthy_opt f_); [|discriminate].
      apply bind_Raise in H as [H|(b1 & _ & H)]; [apply a_f_2b_Raise in H; auto|].
      apply bind_Raise in H as [H|(b2 & _ & H)]; [apply Radius__Raise in H; auto|].
      apply bind_Raise in H as [H|(f1 & _ & H)]; [apply a_b2f_Raise in H; auto|].
      discriminate.
  - destruct (_ || _); [discriminate|]. case_dec; [|discriminate]. inversion H; auto.
Qed.

Lemma __init__try_zero_a a b f_ :
  a < EPS -> Ellipsoid.__init__try a b f_ = Raise UnitError.
Proof.
  intros H. unfold Ellipsoid.__init__try. rewrite Radius__rejects by assumption.
  reflexivity.
Qed.

Lemma __init__try_small_b a b f_ :
  EPS <= a -> b <> 0 -> b < EPS -> Ellipsoid.__init__try a (Some b) f_ = Raise UnitError.
Proof.
  intros Ha Hb0 Hb. unfold Ellipsoid.__init__try.
  rewrite Radius__accepts by assumption. simpl.
  unfold truthy. case_dec; [|contradiction]. simpl.
  rewrite Radius__rejects by assumption. reflexivity.
Qed.

Lemma __init__try_fails a b f_ name (reg : registry) x :
  Ellipsoid.__init__try a b f_ = Raise x ->
  Ellipsoid.__init__ a b f_ name reg =
    (reg, Raise (if is_TypeError_or_ValueError x then ValueError else x)).
Proof. intros H. unfold Ellipsoid.__init__. rewrite H. reflexivity. Qed.

(** C6, as the code has it: the constructor fails with a [ValueError] when
    the equatorial radius [a] is below [EPS] (in particular when it is not
    positive), when a non-zero polar radius [b] below [EPS] is supplied (in
    particular a negative one) and, for [Ellipsoid2], when [a] is below
    [EPS] or the flattening [f] is above [1 - EPS]; the registry is left as
    it was.  No instance the constructor returns has a radius below [EPS] or
    a flattening above [1 - EPS].  A polar radius of 0 counts as not
    supplied. *)
Theorem invalid_ellipsoid_rejected :
  (forall a b f_ name (reg : registry),
      a < EPS ->
      Ellipsoid.__init__ a b f_ name reg = (reg, Raise ValueError))
  /\ (forall a b f_ name (reg : registry),
      b <> 0 -> b < EPS ->
      Ellipsoid.__init__ a (Some b) f_ name reg = (reg, Raise ValueError))
  /\ (forall a f name (reg : registry),
      a < EPS \/ f > EPS1 ->
      Ellipsoid2.__init__ a f name reg = (reg, Raise ValueError))
  /\ (forall E, constructed E ->
      EPS <= Ellipsoid.a E /\ EPS <= Ellipsoid.b E /\ Ellipsoid.f E <= EPS1).
Proof.
  pose proof EPS_pos as HEPS. pose proof EPS_small as HEPS'.
  assert (H1 : forall a b f_ name (reg : registry), a < EPS ->
            Ellipsoid.__init__ a b f_ name reg = (reg, Raise ValueError)).
  { intros a b f_ name reg Ha.
    rewrite (__init__try_fails _ _ _ _ _ _ (__init__try_zero_a a b f_ Ha)).
    reflexivity. }
  split; [exact H1|]. split; [|split].
  - intros a b f_ name reg Hb0 Hb.
    destruct (Rlt_le_dec a EPS) as [Ha|Ha]; [apply H1; assumption|].
    rewrite (__init__try_fails _ _ _ _ _ _ (__init__try_small_b a b f_ Ha Hb0 Hb)).
    reflexivity.
  - intros a f name reg Haf. unfold Ellipsoid2.__init__, Float_.
    destruct (Rlt_le_dec a EPS) as [Ha|Ha].
    + case_dec; try lra; reflexivity.
    + destruct Haf as [Ha'|Hf]; [lra|]. case_dec; try lra; reflexivity.
  - intros E HE. apply constructed_normalised in HE.
    unfold Ellipsoid.a, Ellipsoid.b, Ellipsoid.f.
    destruct HE as [Ha [(-> & -> & _)|(Hb & _ & _ & _ & Hf & _)]];
      unfold EPS1 in *; repeat split; lra.
Qed.

Lemma invalid_ellipsoid_rejected_witness :
  Ellipsoid.__init__ 0 None None "Zero" ∅ = (∅, Raise ValueError)
  /\ Ellipsoid.__init__ 1 (Some (-1)) None "Negative" ∅ = (∅, Raise ValueError)
  /\ Ellipsoid2.__init__ 1 2 "Degenerate" ∅ = (∅, Raise ValueError).
Proof.
  destruct invalid_ellipsoid_rejected as (Ha & Hb & Hf & _).
  split; [|split].
  - apply Ha. apply EPS_pos.
  - apply Hb; [lra|]. pose proof EPS_pos; lra.
  - apply Hf. right. unfold EPS1. pose proof EPS_pos; lra.
Defined.

(** C6 fails as stated: a supplied polar radius of 0 is not rejected but
    taken as absent, and radii whose flattening [(a - b) / a] exceeds
    [1 - EPS] are not rejected either; both calls return a sphere. *)
Lemma invalid_ellipsoid_accepted :
  Ellipsoid.__init__ 1 (Some 0) None "" ∅ = (∅, OK (mkEllipsoid 1 1 0 0 ""))
  /\ (4 - EPS) / 4 > 1 - EPS
  /\ Ellipsoid.__init__ 4 (Some EPS) None "" ∅ = (∅, OK (mkEllipsoid 4 4 0 0 "")).
Proof.
  pose proof EPS_pos as HEPS. pose proof EPS_small as HEPS'.
  split; [|split].
  - rewrite (__init__after_try _ _ _ _ _ _ _ _ _ __init__try_zero_b). simpl.
    rewrite __init__checks_OK; [reflexivity | apply sphere_normalised; lra | left; reflexivity].
  - lra.
  - rewrite (__init__after_try _ _ _ _ _ _ _ _ _ __init__try_degenerate). simpl.
    rewrite __init__checks_OK; [reflexivity | apply sphere_normalised; lra | left; reflexivity].
Qed.

(** ** Registration and the cross-checks *)

Lemma _register_OK (reg reg' : registry) name E :
  _register reg name E = OK reg' -> name <> ""%string ->
  reg !! name = None /\ reg' = <[name := E]> reg.
Proof.
  unfold _register. intros H Hname. case_dec; [contradiction|].
  destruct (reg !! name); [discriminate|]. inversion H. auto.
Qed.

Lemma _register_Raise (reg : registry) name E x :
  _register reg name E = Raise x -> x = NameError.
Proof.
  unfold _register. intros H. case_dec; [discriminate|].
  destruct (reg !! name); congruence.
Qed.

(** The run of the constructor on radii 2 and 1 with the inconsistent
    inverse flattening 5. *)
Lemma __init__inconsistent :
  Ellipsoid.__init__ 2 (Some 1) (Some 5) "X" ∅
  = (<["X"%string := mkEllipsoid 2 1 ((2 - 1) / 2) 5 "X"]> ∅, Raise AssertionError).
Proof.
  assert (Htry : Ellipsoid.__init__try 2 (Some 1) (Some 5) = OK (2, 1, (2 - 1) / 2, 5)).
  { unfold Ellipsoid.__init__try. run. reflexivity. }
  rewrite (__init__after_try _ _ _ _ _ _ _ _ _ Htry). simpl.
  unfold _register. rewrite decide_False by discriminate. rewrite lookup_empty.
  f_equal. unfold Ellipsoid.__init__checks, Ellipsoid._assert, Ellipsoid.f, Ellipsoid.f_.
  simpl. pose proof _TOL_lt_1. pose proof _TOL_pos.
  autounfold with pygeodesy. run_tests. simpl. run_tests. simpl.
  reflexivity.
Qed.

(** C7, as the code has it: the constructor registers the instance under
    its name before it runs the cross-checks, so when a cross-check fails
    for a named instance, the name was free and the registry has gained the
    instance whose cross-check failed. *)
Theorem registered_before_cross_checks :
  forall a b f_ name (reg reg' : registry),
    Ellipsoid.__init__ a b f_ name reg = (reg', Raise AssertionError) ->
    name <> ""%string ->
    reg !! name = None /\
    exists E, reg' = <[name := E]> reg /\ reg' !! name = Some E
              /\ Ellipsoid.__init__checks E = Raise AssertionError.
Proof.
  intros a b f_ name reg reg' H Hname. unfold Ellipsoid.__init__ in H.
  destruct (Ellipsoid.__init__try a b f_) as [[[[a' b'] f'] f_']|x] eqn:Htry; simpl in H.
  - destruct (_register reg name _) as [reg1|x] eqn:Hreg.
    + inversion H as [[Hr Hc]]; subst reg1.
      apply _register_OK in Hreg as [Hfree Hins]; [|assumption]. subst reg'.
      split; [assumption|]. eexists. split; [reflexivity|].
      split; [apply lookup_insert_eq|].
      destruct (Ellipsoid.__init__checks _) as [u|x]; simpl in Hc; congruence.
    + apply _register_Raise in Hreg. congruence.
  - apply __init__try_raises in Htry as [ -> | [ -> | -> ] ]; simpl in H; congruence.
Qed.

Lemma registered_before_cross_checks_witness :
  Ellipsoid.__init__ 2 (Some 1) (Some 5) "X" ∅
  = (<["X"%string := mkEllipsoid 2 1 ((2 - 1) / 2) 5 "X"]> ∅, Raise AssertionError)
  /\ "X"%string <> ""%string
  /\ (∅ : registry) !! "X"%string = None
  /\ exists E, (<["X"%string := mkEllipsoid 2 1 ((2 - 1) / 2) 5 "X"]> ∅ : registry)
               !! "X"%string = Some E.
Proof.
  assert (Hname : "X"%string <> ""%string) by discriminate.
  destruct (registered_before_cross_checks _ _ _ _ _ _ __init__inconsistent Hname)
    as (Hfree & E & _ & HE & _).
  split; [exact __init__inconsistent|]. split; [exact Hname|].
  split; [exact Hfree|]. exists E. exact HE.
Defined.

(** C7 fails as stated: the call [Ellipsoid(2, 1, 5, "X")] fails its first
    cross-check (1/f = 2 against f_ = 5), and the registry, empty before, then
    holds the name ["X"]. *)
Lemma failed_cross_check_stays_registered :
  exists reg' : registry,
    Ellipsoid.__init__ 2 (Some 1) (Some 5) "X" ∅ = (reg', Raise AssertionError)
    /\ reg' <> ∅ /\ is_Some (reg' !! "X"%string).
Proof.
  eexists. split; [exact __init__inconsistent|]. split.
  - apply insert_non_empty.
  - rewrite lookup_insert_eq. eauto.
Qed.

(** ** Mean radius and eccentricity *)

(** The run of the constructor on the prolate radii [a = 1], [b = 2]. *)
Lemma __init__prolate :
  Ellipsoid.__init__ 1 (Some 2) None "" ∅
  = (∅, OK (mkEllipsoid 1 2 ((1 - 2) / 1) (1 / ((1 - 2) / 1)) "")).
Proof.
  assert (Htry : Ellipsoid.__init__try 1 (Some 2) None
                 = OK (1, 2, (1 - 2) / 1, 1 / ((1 - 2) / 1))).
  { unfold Ellipsoid.__init__try. run. reflexivity. }
  rewrite (__init__after_try _ _ _ _ _ _ _ _ _ Htry). simpl.
  rewrite __init__checks_OK; [reflexivity | |].
  - eapply __init__try_normalised. exact Htry.
  - right. simpl. pose proof _TOL_pos. split; split_Rabs; lra.
Qed.

(** C8, as the code has it: for a validly constructed ellipsoid the mean
    radius [R1] is [(2 a + b) / 3] when the ellipsoid is oblate or spherical,
    and [(2 b + a) / 3] when it is prolate ([_f_late] swaps the radii). *)
Theorem R1_by_shape (E : Ellipsoid) :
  constructed E ->
  (Ellipsoid.f E >= 0 -> Ellipsoid.R1 E = (2 * Ellipsoid.a E + Ellipsoid.b E) / 3)
  /\ (Ellipsoid.f E < 0 -> Ellipsoid.R1 E = (2 * Ellipsoid.b E + Ellipsoid.a E) / 3).
Proof.
  intros HE. apply constructed_normalised in HE.
  unfold Ellipsoid.R1, Ellipsoid._f_late, fsum_, Ellipsoid.f, Ellipsoid.a, Ellipsoid.b.
  simpl. split; intros Hf; case_dec; try lra.
  destruct HE as [_ [(_ & -> & _)|(_ & _ & _ & Hf1 & _)]]; [lra|].
  assert (_f E = 0) by lra.
  pose proof EPS_pos. exfalso. revert Hf1. rewrite H1, Rabs_R0. lra.
Qed.

Lemma R1_by_shape_witness :
  constructed (mkEllipsoid 1 2 ((1 - 2) / 1) (1 / ((1 - 2) / 1)) "")
  /\ Ellipsoid.R1 (mkEllipsoid 1 2 ((1 - 2) / 1) (1 / ((1 - 2) / 1)) "") = (2 * 2 + 1) / 3.
Proof.
  assert (HE : constructed (mkEllipsoid 1 2 ((1 - 2) / 1) (1 / ((1 - 2) / 1)) "")).
  { exists 1, (Some 2), None, ""%string, ∅, ∅. exact __init__prolate. }
  split; [exact HE|].
  apply (R1_by_shape _ HE). simpl. lra.
Defined.

(** C8 fails as stated: the prolate ellipsoid with [a = 1] and [b = 2] is
    validly constructed and its [R1] is 5/3, not [(2 a + b) / 3 = 4/3]. *)
Lemma R1_prolate_counterexample :
  exists E, Ellipsoid.__init__ 1 (Some 2) None "" ∅ = (∅, OK E)
            /\ Ellipsoid.a E = 1 /\ Ellipsoid.b E = 2
            /\ Ellipsoid.R1 E = 5 / 3
            /\ Ellipsoid.R1 E <> (2 * Ellipsoid.a E + Ellipsoid.b E) / 3.
Proof.
  eexists. split; [exact __init__prolate|].
  assert (HR : Ellipsoid.R1 (mkEllipsoid 1 2 ((1 - 2) / 1) (1 / ((1 - 2) / 1)) "") = 5 / 3).
  { unfold Ellipsoid.R1, Ellipsoid._f_late, fsum_, Ellipsoid.f, Ellipsoid.a, Ellipsoid.b.
    simpl. run_tests. lra. }
  repeat split; try reflexivity; [exact HR|]. rewrite HR. simpl. lra.
Qed.

Lemma e_OK E :
  normalised E -> Ellipsoid.e E = OK (sqrt (Rabs (_f E * (2 - _f E)))).
Proof.
  intros HE. unfold Ellipsoid.e, Ellipsoid.e2abs. rewrite e2_OK by assumption. simpl.
  rewrite sqrt_OK by apply Rabs_pos.
  unfold truthy, Ellipsoid.f. case_dec; [reflexivity|].
  assert (Hf : _f E = 0) by (destruct (decide (_f E = 0)); tauto).
  f_equal. rewrite Hf. replace (0 * (2 - 0)) with 0 by lra.
  rewrite Rabs_R0, sqrt_0. reflexivity.
Qed.

Lemma a_b2e2_OK E : normalised E -> a_b2e2 (_a E) (_b E) = OK (_f E * (2 - _f E)).
Proof.
  intros HE. pose proof (normalised_a_pos E HE). pose proof EPS_pos.
  pose proof (normalised_b_a E HE) as Hba.
  destruct HE as [Ha [(Hf & Hb & _)|(Hb & Hab & Hf & Hf1 & Hf2 & _)]];
    unfold a_b2e2, _spherical_a_b.
  - rewrite Hb, Hf. replace (_a E - _a E) with 0 by lra. rewrite Rabs_R0.
    case_dec; simpl; try lra; f_equal; lra.
  - case_dec; simpl; try lra. rewrite div_OK by lra. simpl. f_equal.
    rewrite Hba. ring.
Qed.

(** C10: for every validly constructed ellipsoid, prolate ones with a
    negative [e2] included, the eccentricity [e] is the square root of the
    absolute value of [e2] and is not negative; the signed eccentricity [es]
    is [e] with the sign of the flattening: [e] itself unless [f] is
    negative, [-e] when it is; and [a_b2e] of the two radii is the same
    non-negative [e]. *)
Theorem eccentricity_nonnegative_and_signed (E : Ellipsoid) :
  constructed E ->
  exists e2 e,
    Ellipsoid.e2 E = OK e2 /\ Ellipsoid.e E = OK e
    /\ e = sqrt (Rabs e2) /\ 0 <= e
    /\ Ellipsoid.es E = OK (if decide (Ellipsoid.f E < 0) then - e else e)
    /\ a_b2e (Ellipsoid.a E) (Ellipsoid.b E) = OK e.
Proof.
  intros HE. apply constructed_normalised in HE.
  exists (_f E * (2 - _f E)), (sqrt (Rabs (_f E * (2 - _f E)))).
  split; [apply e2_OK; assumption|]. split; [apply e_OK; assumption|].
  split; [reflexivity|]. split; [apply sqrt_pos|]. split.
  - unfold Ellipsoid.es. rewrite e_OK by assumption. simpl.
    unfold math.copysign. rewrite (Rabs_pos_eq (sqrt _)) by apply sqrt_pos.
    reflexivity.
  - unfold a_b2e, Ellipsoid.a, Ellipsoid.b. rewrite a_b2e2_OK by assumption. simpl.
    apply sqrt_OK, Rabs_pos.
Qed.

Lemma eccentricity_nonnegative_and_signed_witness :
  constructed (mkEllipsoid 1 2 ((1 - 2) / 1) (1 / ((1 - 2) / 1)) "")
  /\ exists e2 e,
       Ellipsoid.e2 (mkEllipsoid 1 2 ((1 - 2) / 1) (1 / ((1 - 2) / 1)) "") = OK e2
       /\ Ellipsoid.e (mkEllipsoid 1 2 ((1 - 2) / 1) (1 / ((1 - 2) / 1)) "") = OK e
       /\ 0 <= e.
Proof.
  assert (HE : constructed (mkEllipsoid 1 2 ((1 - 2) / 1) (1 / ((1 - 2) / 1)) "")).
  { exists 1, (Some 2), None, ""%string, ∅, ∅. exact __init__prolate. }
  split; [exact HE|].
  destruct (eccentricity_nonnegative_and_signed _ HE) as (e2 & e & H1 & H2 & _ & H3 & _).
  exists e2, e. auto.
Defined.

(** ** Radii of curvature *)

Lemma sin_sqr_le_1 x : (sin x) ^ 2 <= 1.
Proof. pose proof (sin2_cos2 x) as H. unfold Rsqr in H. nra. Qed.

(** [1 - e2 s^2] is positive for every [s] in [-1, 1]. *)
Lemma normalised_e2s2_pos E s :
  normalised E -> s ^ 2 <= 1 -> 0 < 1 - _f E * (2 - _f E) * s ^ 2.
Proof.
  intros HE Hs. pose proof (normalised_e2_lt_1 E HE) as He. pose proof (pow2_ge_0 s) as H0.
  set (x := s ^ 2) in *. set (e2 := _f E * (2 - _f E)) in *.
  destruct (Rle_lt_dec e2 0) as [Hneg|Hpos].
  - assert (e2 * x <= 0) by nra. lra.
  - assert (e2 * x <= e2) by nra. lra.
Qed.

Lemma e2s2_OK E s :
  normalised E -> s ^ 2 <= 1 ->
  Ellipsoid.e2s2 E s = OK (1 - _f E * (2 - _f E) * s ^ 2).
Proof.
  intros HE Hs. unfold Ellipsoid.e2s2. rewrite e2_OK by assumption. simpl.
  pose proof (normalised_e2s2_pos E s HE Hs).
  rewrite decide_False by lra. reflexivity.
Qed.

(** The sine the code passes to [e2s2], squared, is that of the latitude. *)
Lemma roc2__sine phi :
  - (PI / 2) <= phi <= PI / 2 ->
  (if decide (Rabs phi < PI_2) then sin (Rabs phi) else 1) ^ 2 = sin phi ^ 2.
Proof.
  intros Hphi. unfold PI_2. case_dec.
  - unfold Rabs. destruct (Rcase_abs phi); [rewrite sin_neg; ring | reflexivity].
  - assert (Hc : phi = PI / 2 \/ phi = - (PI / 2)) by (revert H; split_Rabs; lra).
    destruct Hc as [-> | ->]; [rewrite sin_PI2 | rewrite sin_neg, sin_PI2]; ring.
Qed.

(** C9: for a validly constructed ellipsoid and a latitude [phi] in
    [-pi/2, pi/2], [roc2_] evaluates [W2 = 1 - e2 sin^2 phi], which is
    positive; when [W2 < EPS] both radii are 0, otherwise the prime-vertical
    radius is [n = a / sqrt W2] and the meridional one [m = n e12 / W2].
    The call returns: neither the division nor the square root raises. *)
Theorem roc2__guarded (E : Ellipsoid) (phi : R) :
  constructed E -> - (PI / 2) <= phi <= PI / 2 ->
  exists e2 e12 W2,
    Ellipsoid.e2 E = OK e2 /\ Ellipsoid.e12 E = OK e12
    /\ W2 = 1 - e2 * sin phi ^ 2 /\ 0 < W2
    /\ Ellipsoid.roc2_ E phi false =
         OK (if decide (W2 < EPS) then (0, 0)
             else let n := Ellipsoid.a E / sqrt W2 in (n * e12 / W2, n)).
Proof.
  intros HE Hphi. apply constructed_normalised in HE.
  pose proof (roc2__sine phi Hphi) as Hs.
  pose proof (sin_sqr_le_1 phi) as Hs1.
  set (s := if decide (Rabs phi < PI_2) then sin (Rabs phi) else 1) in *.
  exists (_f E * (2 - _f E)), (1 - _f E * (2 - _f E)), (1 - _f E * (2 - _f E) * sin phi ^ 2).
  split; [apply e2_OK; assumption|]. split; [apply e12_OK; assumption|].
  split; [reflexivity|].
  assert (HW : 0 < 1 - _f E * (2 - _f E) * sin phi ^ 2)
    by (apply normalised_e2s2_pos; assumption).
  split; [exact HW|].
  unfold Ellipsoid.roc2_. fold s.
  rewrite e2s2_OK by (try assumption; rewrite Hs; assumption).
  rewrite Hs. cbn [bind].
  destruct (decide (1 - _f E * (2 - _f E) * sin phi ^ 2 < EPS)) as [Hlt|Hge].
  - reflexivity.
  - rewrite sqrt_OK by lra. cbn [bind].
    rewrite div_OK by (apply Rgt_not_eq, sqrt_lt_R0; lra). cbn [bind].
    rewrite e12_OK by assumption. cbn [bind].
    rewrite div_OK by lra. reflexivity.
Qed.

Lemma roc2__guarded_witness :
  constructed (mkEllipsoid 1 2 ((1 - 2) / 1) (1 / ((1 - 2) / 1)) "")
  /\ - (PI / 2) <= 0 <= PI / 2
  /\ exists mn, Ellipsoid.roc2_ (mkEllipsoid 1 2 ((1 - 2) / 1) (1 / ((1 - 2) / 1)) "") 0 false
                = OK mn.
Proof.
  assert (HE : constructed (mkEllipsoid 1 2 ((1 - 2) / 1) (1 / ((1 - 2) / 1)) "")).
  { exists 1, (Some 2), None, ""%string, ∅, ∅. exact __init__prolate. }
  assert (Hphi : - (PI / 2) <= 0 <= PI / 2) by (pose proof PI_RGT_0; lra).
  split; [exact HE|]. split; [exact Hphi|].
  destruct (roc2__guarded _ 0 HE Hphi) as (e2 & e12 & W2 & _ & _ & _ & _ & H).
  eexists. exact H.
Defined.

(** ** Zone, band and pole of a location *)

(** C2, as the code has it: whenever the normalisation of the coordinates
    returns a latitude [lat], the classification with [strict=True] gives
    the pole S when [lat < -79.5], the pole N when [lat > 83.5], and raises
    [RangeError] exactly when [-79.5 <= lat <= 83.5], both ends included;
    with [strict=False] it returns for every latitude. *)
Theorem upsZoneBand5_poles (norm : R -> R -> result (Z * R * R))
    (lat0 lon0 : R) (z : Z) (lat lon : R) :
  norm lat0 lon0 = OK (z, lat, lon) ->
  (lat < -79.5 ->
     exists t, upsZoneBand5 norm lat0 lon0 true = OK t /\ hemipole5 t = "S"%string)
  /\ (lat > 83.5 ->
     exists t, upsZoneBand5 norm lat0 lon0 true = OK t /\ hemipole5 t = "N"%string)
  /\ (upsZoneBand5 norm lat0 lon0 true = Raise RangeError <-> -79.5 <= lat <= 83.5)
  /\ (exists t, upsZoneBand5 norm lat0 lon0 false = OK t).
Proof.
  intros Hnorm. unfold upsZoneBand5. rewrite Hnorm. cbn [bind].
  unfold _UPS_LAT_MIN, _UPS_LAT_MAX.
  split; [|split; [|split]].
  - intros H. rewrite decide_True by lra. eexists. split; reflexivity.
  - intros H. rewrite decide_False by lra. rewrite decide_True by lra.
    eexists. split; reflexivity.
  - case_dec; split; intros H'; try discriminate; try lra; reflexivity.
  - case_dec; eexists; reflexivity.
Qed.

Lemma upsZoneBand5_poles_witness :
  _to3zll_in_range 85 0 = OK (31%Z, 85, 0)
  /\ exists t, upsZoneBand5 _to3zll_in_range 85 0 true = OK t
               /\ hemipole5 t = "N"%string.
Proof.
  assert (H : _to3zll_in_range 85 0 = OK (31%Z, 85, 0)).
  { unfold _to3zll_in_range. rewrite decide_True by lra. do 3 f_equal.
    rewrite <- (Int_part_spec ((0 + 180) / 6) 30) by lra. reflexivity. }
  split; [exact H|].
  apply (upsZoneBand5_poles _ _ _ _ _ _ H). lra.
Defined.

(** C2 fails as stated: at the latitudes 83.5 and -79.5 themselves the
    strict classification raises [RangeError] instead of giving a pole. *)
Lemma upsZoneBand5_boundary :
  upsZoneBand5 _to3zll_in_range 83.5 0 true = Raise RangeError
  /\ upsZoneBand5 _to3zll_in_range (-79.5) 0 true = Raise RangeError.
Proof.
  unfold upsZoneBand5, _to3zll_in_range, _UPS_LAT_MIN, _UPS_LAT_MAX.
  split; run_tests; cbn [bind]; run_tests; reflexivity.
Qed.

(** ** The point scale factor *)

Lemma hypot1_sqr x : hypot1 x ^ 2 = 1 + x ^ 2.
Proof. unfold hypot1. apply pow2_sqrt. pose proof (pow2_ge_0 x). lra. Qed.

Lemma hypot1_ge_1 x : 1 <= hypot1 x.
Proof.
  unfold hypot1. rewrite <- sqrt_1 at 1. apply sqrt_le_1_alt.
  pose proof (pow2_ge_0 x). lra.
Qed.

(** The radicand of [_scale] is positive. *)
Lemma normalised_scale_radicand_pos E tau :
  normalised E ->
  0 < 1 - _f E * (2 - _f E) + _f E * (2 - _f E) / (1 + tau ^ 2).
Proof.
  intros HE. pose proof (normalised_e2_lt_1 E HE) as He. pose proof (pow2_ge_0 tau) as H0.
  set (x := tau ^ 2) in *. set (e2 := _f E * (2 - _f E)) in *.
  assert (Hq : 0 < / (1 + x) <= 1).
  { split; [apply Rinv_0_lt_compat; lra|].
    rewrite <- Rinv_1 at 2. apply Rinv_le_contravar; lra. }
  unfold Rdiv. set (q := / (1 + x)) in *.
  destruct (Rle_lt_dec e2 0) as [Hneg|Hpos]; nra.
Qed.

Lemma _scale_OK E rho tau :
  normalised E ->
  _scale E rho tau =
    OK (rho / _a E * sqrt (1 + tau ^ 2)
        * sqrt (1 - _f E * (2 - _f E) + _f E * (2 - _f E) / (1 + tau ^ 2))).
Proof.
  intros HE. pose proof (normalised_a_pos E HE).
  pose proof (normalised_scale_radicand_pos E tau HE).
  pose proof (pow2_ge_0 tau).
  unfold _scale, Ellipsoid.a.
  rewrite div_OK by lra. cbn [bind].
  rewrite e12_OK, e2_OK by assumption. cbn [bind].
  rewrite hypot1_sqr. rewrite div_OK by lra. cbn [bind].
  rewrite sqrt_OK by lra. reflexivity.
Qed.

(** C3, as the code has it: for a validly constructed ellipsoid, every
    radial distance [rho] and every [tau] (the tangent of the latitude) the
    scale factor is
    [(rho / a) * sqrt(1 + tau^2) * sqrt(e12 + e2 / (1 + tau^2))]:
    [e2] is divided by [1 + tan^2 lat], not by [tan^2 lat]. *)
Theorem _scale_formula (E : Ellipsoid) (rho tau : R) :
  constructed E ->
  exists e2 e12,
    Ellipsoid.e2 E = OK e2 /\ Ellipsoid.e12 E = OK e12
    /\ _scale E rho tau =
         OK (rho / Ellipsoid.a E * sqrt (1 + tau ^ 2)
             * sqrt (e12 + e2 / (1 + tau ^ 2))).
Proof.
  intros HE. apply constructed_normalised in HE.
  exists (_f E * (2 - _f E)), (1 - _f E * (2 - _f E)).
  split; [apply e2_OK; assumption|]. split; [apply e12_OK; assumption|].
  apply _scale_OK. assumption.
Qed.

(** The run of the constructor on the oblate radii [a = 2], [b = 1]. *)
Lemma __init__oblate :
  Ellipsoid.__init__ 2 (Some 1) None "" ∅
  = (∅, OK (mkEllipsoid 2 1 ((2 - 1) / 2) (1 / ((2 - 1) / 2)) "")).
Proof.
  assert (Htry : Ellipsoid.__init__try 2 (Some 1) None
                 = OK (2, 1, (2 - 1) / 2, 1 / ((2 - 1) / 2))).
  { unfold Ellipsoid.__init__try. run. reflexivity. }
  rewrite (__init__after_try _ _ _ _ _ _ _ _ _ Htry). simpl.
  rewrite __init__checks_OK; [reflexivity | |].
  - eapply __init__try_normalised. exact Htry.
  - right. simpl. pose proof _TOL_pos. split; split_Rabs; lra.
Qed.

Lemma _scale_formula_witness :
  constructed (mkEllipsoid 2 1 ((2 - 1) / 2) (1 / ((2 - 1) / 2)) "")
  /\ exists k, _scale (mkEllipsoid 2 1 ((2 - 1) / 2) (1 / ((2 - 1) / 2)) "") 2 1 = OK k.
Proof.
  assert (HE : constructed (mkEllipsoid 2 1 ((2 - 1) / 2) (1 / ((2 - 1) / 2)) "")).
  { exists 2, (Some 1), None, ""%string, ∅, ∅. exact __init__oblate. }
  split; [exact HE|].
  destruct (_scale_formula _ 2 1 HE) as (e2 & e12 & _ & _ & H).
  eexists. exact H.
Defined.

(** C3 fails as stated: on the ellipsoid with [a = 2], [b = 1] (so
    [e2 = 3/4], [e12 = 1/4]), at [rho = 2] and latitude [pi/4], whose tangent
    is 1, the code computes [sqrt 2 * sqrt (5/8)], while the formula with
    [e2 / tan^2 lat] gives [sqrt 2 * sqrt 1]. *)
Lemma _scale_not_over_tan2 :
  exists E e2 e12 k,
    Ellipsoid.__init__ 2 (Some 1) None "" ∅ = (∅, OK E)
    /\ Ellipsoid.e2 E = OK e2 /\ Ellipsoid.e12 E = OK e12
    /\ tan (PI / 4) <> 0
    /\ _scale E 2 (tan (PI / 4)) = OK k
    /\ k <> 2 / Ellipsoid.a E * sqrt (1 + tan (PI / 4) ^ 2)
            * sqrt (e12 + e2 / tan (PI / 4) ^ 2).
Proof.
  set (E := mkEllipsoid 2 1 ((2 - 1) / 2) (1 / ((2 - 1) / 2)) "").
  assert (HE : normalised E).
  { apply constructed_normalised.
    exists 2, (Some 1), None, ""%string, ∅, ∅. exact __init__oblate. }
  exists E, (_f E * (2 - _f E)), (1 - _f E * (2 - _f E)). eexists.
  split; [exact __init__oblate|].
  split; [apply e2_OK; assumption|]. split; [apply e12_OK; assumption|].
  rewrite tan_PI4. split; [lra|]. split; [apply _scale_OK; assumption|].
  unfold E, Ellipsoid.a. cbn [_a _f].
  replace (1 - (2 - 1) / 2 * (2 - (2 - 1) / 2)
           + (2 - 1) / 2 * (2 - (2 - 1) / 2) / (1 + 1 ^ 2)) with (5 / 8) by field.
  replace (1 - (2 - 1) / 2 * (2 - (2 - 1) / 2)
           + (2 - 1) / 2 * (2 - (2 - 1) / 2) / 1 ^ 2) with 1 by field.
  rewrite sqrt_1. intros Heq.
  assert (H2 : 0 < sqrt (1 + 1 ^ 2)) by (apply sqrt_lt_R0; lra).
  assert (H58 : sqrt (5 / 8) = 1) by nra.
  pose proof (sqrt_sqrt (5 / 8)) as Hs. rewrite H58 in Hs. lra.
Qed.

(** ** The conformal latitude and its Newton inverse *)

Lemma Rabs_lt_hypot1 x : Rabs x < hypot1 x.
Proof.
  unfold hypot1. rewrite <- sqrt_Rsqr_abs.
  apply sqrt_lt_1; unfold Rsqr; pose proof (pow2_ge_0 x); nra.
Qed.

Lemma hypot1_pos x : 0 < hypot1 x.
Proof. pose proof (hypot1_ge_1 x). lra. Qed.

Lemma div_hypot1_bounds x : -1 < x / hypot1 x < 1.
Proof.
  pose proof (Rabs_lt_hypot1 x) as H. pose proof (hypot1_pos x) as Hh.
  assert (Hx : - hypot1 x < x < hypot1 x) by (revert H; split_Rabs; lra).
  split.
  - apply Rmult_lt_reg_r with (hypot1 x); [assumption|].
    unfold Rdiv. rewrite Rmult_assoc, Rinv_l by lra. lra.
  - apply Rmult_lt_reg_r with (hypot1 x); [assumption|].
    unfold Rdiv. rewrite Rmult_assoc, Rinv_l by lra. lra.
Qed.

(** The eccentricity of an oblate ellipsoid is below 1. *)
Lemma normalised_e_bounds E :
  normalised E -> 0 <= sqrt (Rabs (_f E * (2 - _f E))) /\
  (_f E > 0 -> sqrt (Rabs (_f E * (2 - _f E))) < 1).
Proof.
  intros HE. split; [apply sqrt_pos|]. intros Hf.
  pose proof (normalised_f_lt_1 E HE) as Hf1.
  assert (He2 : 0 < _f E * (2 - _f E) < 1) by nra.
  rewrite Rabs_pos_eq by lra.
  assert (H1 : sqrt (_f E * (2 - _f E)) < sqrt 1) by (apply sqrt_lt_1; lra).
  rewrite sqrt_1 in H1. exact H1.
Qed.

Lemma es_atanh_OK E x :
  normalised E -> -1 <= x <= 1 -> exists r, Ellipsoid.es_atanh E x = OK r.
Proof.
  intros HE Hx. unfold Ellipsoid.es_atanh, Ellipsoid.f.
  rewrite e_OK by assumption. cbn [bind].
  destruct (normalised_e_bounds E HE) as [He0 He1].
  case_dec; try (eexists; reflexivity).
  set (e := sqrt _) in *. specialize (He1 H).
  unfold math.atanh. rewrite decide_True by (split; nra).
  eexists; reflexivity.
Qed.

Lemma es_taupf_OK E tau :
  normalised E -> exists T, Ellipsoid.es_taupf E tau = OK T.
Proof.
  intros HE. unfold Ellipsoid.es_taupf.
  rewrite div_OK by (pose proof (hypot1_pos tau); lra). cbn [bind].
  destruct (es_atanh_OK E (tau / hypot1 tau) HE) as [r ->].
  - pose proof (div_hypot1_bounds tau). lra.
  - eexists; reflexivity.
Qed.

Lemma a2_b2_OK E :
  normalised E ->
  exists e, Ellipsoid.a2_b2 E = OK e /\ e = (_a E / _b E) ^ 2.
Proof.
  intros HE. pose proof (normalised_b_pos E HE) as Hb.
  unfold Ellipsoid.a2_b2, Ellipsoid.a_b, Ellipsoid.a, Ellipsoid.b, Ellipsoid.f, truthy.
  case_dec.
  - rewrite div_OK by lra. eexists; split; reflexivity.
  - exists 1. split; [reflexivity|].
    destruct HE as [Ha [(_ & -> & _)|(_ & _ & _ & Hf1 & _)]].
    + replace (_a E / _a E) with 1 by (field; pose proof EPS_pos; lra). ring.
    + exfalso. pose proof EPS_pos. revert Hf1. rewrite H, Rabs_R0. lra.
Qed.

(** ** The conformal tangent keeps the sign of the tangent *)

Lemma ln_le_compat x y : 0 < x -> x <= y -> ln x <= ln y.
Proof.
  intros Hx [Hlt| ->]; [left; apply ln_increasing; assumption | right; reflexivity].
Qed.

Lemma sinh_le_compat x y : x <= y -> sinh x <= sinh y.
Proof. intros [Hlt| ->]; [left; apply sinh_lt; assumption | right; reflexivity]. Qed.

Lemma atanh_ratio_mono x y :
  -1 < x -> x <= y -> y < 1 -> (1 + x) / (1 - x) <= (1 + y) / (1 - y).
Proof.
  intros Hx Hxy Hy.
  apply Rmult_le_reg_r with ((1 - x) * (1 - y)); [nra|].
  replace ((1 + x) / (1 - x) * ((1 - x) * (1 - y))) with ((1 + x) * (1 - y))
    by (field; lra).
  replace ((1 + y) / (1 - y) * ((1 - x) * (1 - y))) with ((1 + y) * (1 - x))
    by (field; lra).
  nra.
Qed.

Lemma atanh_mono x y :
  -1 < x -> x <= y -> y < 1 ->
  ln ((1 + x) / (1 - x)) / 2 <= ln ((1 + y) / (1 - y)) / 2.
Proof.
  intros Hx Hxy Hy.
  assert (0 < (1 + x) / (1 - x)) by (apply Rdiv_lt_0_compat; lra).
  pose proof (ln_le_compat _ _ H (atanh_ratio_mono x y Hx Hxy Hy)). lra.
Qed.

Lemma atanh_nonneg x : 0 <= x -> x < 1 -> 0 <= ln ((1 + x) / (1 - x)) / 2.
Proof.
  intros H0 H1. pose proof (atanh_mono 0 x) as H.
  replace ((1 + 0) / (1 - 0)) with 1 in H by field. rewrite ln_1 in H. lra.
Qed.

(** [atanh (t / sqrt (1 + t^2)) = asinh t]. *)
Lemma atanh_div_hypot1 t :
  ln ((1 + t / hypot1 t) / (1 - t / hypot1 t)) / 2 = arcsinh t.
Proof.
  pose proof (hypot1_pos t) as Hh. pose proof (hypot1_sqr t) as Hh2.
  pose proof (Rabs_lt_hypot1 t) as Habs.
  assert (Ht : - hypot1 t < t < hypot1 t) by (revert Habs; split_Rabs; lra).
  unfold arcsinh. replace (sqrt (t ^ 2 + 1)) with (hypot1 t)
    by (unfold hypot1; f_equal; ring).
  set (h := hypot1 t) in *.
  assert (Hprod : (h + t) * (h - t) = 1).
  { replace ((h + t) * (h - t)) with (h ^ 2 - t ^ 2) by ring. rewrite Hh2. ring. }
  replace ((1 + t / h) / (1 - t / h)) with ((t + h) ^ 2).
  - rewrite ln_pow by lra. simpl INR. lra.
  - replace ((1 + t / h) / (1 - t / h)) with ((h + t) / (h - t)) by (field; lra).
    apply Rmult_eq_reg_r with (h - t); [|lra].
    replace ((h + t) / (h - t) * (h - t)) with (h + t) by (field; lra).
    replace ((t + h) ^ 2 * (h - t)) with ((t + h) * ((h + t) * (h - t))) by ring.
    rewrite Hprod. ring.
Qed.

Lemma es_taupf_nonneg E t T :
  normalised E -> 0 <= t -> Ellipsoid.es_taupf E t = OK T -> 0 <= T.
Proof.
  intros HE Ht. unfold Ellipsoid.es_taupf.
  pose proof (hypot1_pos t) as Hh.
  rewrite div_OK by lra. cbn [bind].
  pose proof (div_hypot1_bounds t) as Hq.
  assert (Hq0 : 0 <= t / hypot1 t) by (apply Rmult_le_pos; [lra | left; apply Rinv_0_lt_compat; lra]).
  destruct (normalised_e_bounds E HE) as [He0 He1].
  unfold Ellipsoid.es_atanh, Ellipsoid.f. rewrite e_OK by assumption. cbn [bind].
  set (e := sqrt _) in *. set (q := t / hypot1 t) in *.
  (* in each case the hyperbolic sine [s] is at most [t] *)
  assert (Hkey : forall s, s <= t -> 0 <= hypot1 s * t - s * hypot1 t).
  { intros s Hs. destruct (Rle_lt_dec s 0) as [Hs0|Hs0].
    - pose proof (hypot1_pos s). nra.
    - assert (s * hypot1 t <= hypot1 s * t); [|lra].
      unfold hypot1.
      rewrite <- (sqrt_pow2 s) at 1 by lra. rewrite <- (sqrt_pow2 t) at 2 by lra.
      rewrite <- !sqrt_mult by (pose proof (pow2_ge_0 s); pose proof (pow2_ge_0 t); lra).
      apply sqrt_le_1_alt. nra. }
  destruct (decide (_f E > 0)) as [Hf|Hf].
  - specialize (He1 Hf). unfold math.atanh.
    rewrite decide_True by (split; nra). cbn [bind].
    intros H; inversion H; subst T. apply Hkey.
    rewrite <- (sinh_arcsinh t). apply sinh_le_compat.
    rewrite <- atanh_div_hypot1. fold q.
    assert (Hm : ln ((1 + e * q) / (1 - e * q)) / 2 <= ln ((1 + q) / (1 - q)) / 2)
      by (apply atanh_mono; nra).
    assert (H0 : 0 <= ln ((1 + e * q) / (1 - e * q)) / 2)
      by (apply atanh_nonneg; nra).
    nra.
  - destruct (decide (_f E < 0)) as [Hf'|Hf'].
    + cbn [bind]. intros H; inversion H; subst T. apply Hkey.
      assert (Ha : 0 <= atan (e * q)).
      { rewrite <- atan_0. destruct (Req_dec (e * q) 0) as [->|Hne]; [lra|].
        left. apply atan_increasing. nra. }
      apply Rle_trans with (sinh 0); [apply sinh_le_compat; nra | rewrite sinh_0; lra].
    + intros H; inversion H; subst T. apply Hkey. rewrite sinh_0. lra.
Qed.

(** ** The forward projection *)

Lemma es_c_OK E : normalised E -> exists c, Ellipsoid.es_c E = OK c /\ 0 < c.
Proof.
  intros HE. unfold Ellipsoid.es_c. destruct (truthy (Ellipsoid.f E)).
  - rewrite b_a_OK by assumption. cbn [bind].
    destruct (es_atanh_OK E 1 HE) as [r ->]; [lra|]. cbn [bind].
    eexists. split; [reflexivity|].
    pose proof (normalised_f_lt_1 E HE). pose proof (exp_pos r). nra.
  - exists 1. split; [reflexivity | lra].
Qed.

(** The factor [2 k0 a / es_c] of both directions. *)
Lemma radial_factor_OK E k0 :
  normalised E -> 0 < k0 ->
  exists C, (es_c <- Ellipsoid.es_c E ;; div (2 * k0 * Ellipsoid.a E) es_c) = OK C
            /\ 0 < C.
Proof.
  intros HE Hk. destruct (es_c_OK E HE) as (c & -> & Hc). cbn [bind].
  rewrite div_OK by lra. eexists. split; [reflexivity|].
  pose proof (normalised_a_pos E HE). unfold Ellipsoid.a.
  apply Rdiv_lt_0_compat; nra.
Qed.

Lemma _Band_in_Bands a b : _Band a b ∈ _Bands.
Proof. unfold _Band, _Bands. case_dec; cbn; set_solver. Qed.

Lemma Ups__init__OK k0 p x y a b E falsed c k :
  p = "N"%string \/ p = "S"%string ->
  Ups__init__ k0 _UPS_ZONE p x y (_Band a b) E falsed c k
  = OK (mkUps p x y (_Band a b) E falsed c k k0 "" None).
Proof.
  intros Hp. unfold Ups__init__, _to3zBhp.
  assert (Hup : upper1 p = p) by (destruct Hp as [-> | ->]; reflexivity).
  rewrite Hup.
  assert (Hb : bool_decide (p = "N"%string) || bool_decide (p = "S"%string) = true).
  { destruct Hp as [-> | ->]; reflexivity. }
  rewrite Hb. cbn [bind].
  rewrite (bool_decide_eq_false_2 (_UPS_ZONE <> _UPS_ZONE)) by (intros H; apply H; reflexivity).
  rewrite (bool_decide_eq_false_2 (_Band a b ∉ _Bands))
    by (intros H; apply H, _Band_in_Bands).
  rewrite andb_false_r. reflexivity.
Qed.

(** The radial distance, before scaling: [1 / (hypot1 T + |T|)] for [T >= 0]
    and [hypot1 T + |T|] for [T < 0] are both [hypot1 T - T]. *)
Lemma radial_unscaled T :
  (if decide (T >= 0) then div 1 (hypot1 T + Rabs T) else OK (hypot1 T + Rabs T))
  = OK (hypot1 T - T).
Proof.
  pose proof (hypot1_pos T) as Hh. pose proof (hypot1_sqr T) as Hh2.
  case_dec.
  - rewrite Rabs_pos_eq by lra. rewrite div_OK by lra. f_equal.
    apply Rmult_eq_reg_r with (hypot1 T + T); [|lra].
    replace (1 / (hypot1 T + T) * (hypot1 T + T)) with 1 by (field; lra).
    replace ((hypot1 T - T) * (hypot1 T + T)) with (hypot1 T ^ 2 - T ^ 2) by ring.
    rewrite Hh2. ring.
  - rewrite Rabs_left by lra. f_equal; ring.
Qed.

Lemma radial_unscaled_pos T : 0 < hypot1 T - T.
Proof. pose proof (Rabs_lt_hypot1 T) as H. revert H. split_Rabs; lra. Qed.

Section Forward.

Variable norm : R -> R -> result (Z * R * R).
Variables (E : Ellipsoid) (k0 : R).
Hypothesis HE : normalised E.
Hypothesis Hk0 : 0 < k0.

Variables (lat0 lon0 : R) (z : Z) (lat lon : R).
Hypothesis Hnorm : norm lat0 lon0 = OK (z, lat, lon).
Hypothesis Hups : lat < _UPS_LAT_MIN \/ lat > _UPS_LAT_MAX.

(** The pole of a location in the UPS range is S below [_UPS_LAT_MIN] and
    N above [_UPS_LAT_MAX]. *)
Lemma upsZoneBand5_ups strict :
  upsZoneBand5 norm lat0 lon0 strict
  = OK (mkUtmUpsLatLon5Tuple _UPS_ZONE (_Band lat lon)
          (if decide (lat < _UPS_LAT_MIN) then "S" else "N")%string lat lon).
Proof.
  unfold upsZoneBand5. rewrite Hnorm. cbn [bind].
  destruct (decide (lat < _UPS_LAT_MIN)) as [Hs|Hs]; [reflexivity|].
  rewrite decide_True by (destruct Hups; [contradiction | assumption]).
  reflexivity.
Qed.

(** Away from the pole the point is projected to the distance
    [(hypot1 T - T) * C] from the false origin, in the direction of the
    longitude. *)
Lemma toUps8_away_from_pole falsed strict a :
  a = (if decide (lat < _UPS_LAT_MIN) then - lat else lat) ->
  ~ Rabs (a - 90) < _TOL ->
  exists T C k,
    Ellipsoid.es_taupf E (tan (math.radians a)) = OK T
    /\ (es_c <- Ellipsoid.es_c E ;; div (2 * k0 * Ellipsoid.a E) es_c) = OK C
    /\ 0 < C
    /\ _scale E ((hypot1 T - T) * C) (tan (math.radians a)) = OK k
    /\ toUps8 norm lat0 lon0 E k0 "" falsed strict
       = OK (mkUps (if decide (lat < _UPS_LAT_MIN) then "S" else "N")%string
               ((if falsed then _Falsing else 0)
                + sin (math.radians lon) * ((hypot1 T - T) * C))
               ((if falsed then _Falsing else 0)
                + (if decide (lat < _UPS_LAT_MIN) then 1 else -1)
                  * (cos (math.radians lon) * ((hypot1 T - T) * C)))
               (_Band lat lon) E falsed
               (Some (if decide (lat < _UPS_LAT_MIN) then - lon else lon))
               (Some k) k0 (_hemi lat) None).
Proof.
  intros Ha Hpole.
  destruct (es_taupf_OK E (tan (math.radians a)) HE) as [T HT].
  destruct (radial_factor_OK E k0 HE Hk0) as (C & HC & HCpos).
  destruct (es_c_OK E HE) as (c & Hc & Hcpos).
  rewrite Hc in HC. cbn [bind] in HC.
  assert (Hscale : exists k, _scale E ((hypot1 T - T) * C) (tan (math.radians a)) = OK k)
    by (rewrite _scale_OK by assumption; eauto).
  destruct Hscale as [k Hk].
  exists T, C, k. split; [exact HT|]. split; [rewrite Hc; exact HC|]. split; [exact HCpos|].
  split; [exact Hk|].
  unfold toUps8. rewrite upsZoneBand5_ups. cbn [bind].
  rewrite (bool_decide_eq_false_2 (""%string <> ""%string)) by (intros H; apply H; reflexivity).
  subst a.
  destruct (decide (lat < _UPS_LAT_MIN)) as [Hs|Hs].
  - change (upper1 "S"%string) with "S"%string.
    rewrite (bool_decide_eq_false_2 ("S"%string = "N"%string)) by discriminate.
    rewrite (bool_decide_eq_false_2 _ Hpole).
    rewrite HT. cbn [bind]. rewrite radial_unscaled. cbn [bind].
    rewrite Hc. cbn [bind]. rewrite HC. cbn [bind]. rewrite Hk. cbn [bind].
    unfold sincos2d.
    rewrite (bool_decide_eq_false_2 (_UPS_ZONE <> _UPS_ZONE)) by (intros H; apply H; reflexivity).
    cbn [andb].
    destruct falsed; rewrite Ups__init__OK by auto; cbn [bind];
      cbn; f_equal; f_equal; unfold neg; ring.
  - change (upper1 "N"%string) with "N"%string.
    rewrite (bool_decide_eq_true_2 ("N"%string = "N"%string)) by reflexivity.
    rewrite (bool_decide_eq_false_2 _ Hpole).
    rewrite HT. cbn [bind]. rewrite radial_unscaled. cbn [bind].
    rewrite Hc. cbn [bind]. rewrite HC. cbn [bind]. rewrite Hk. cbn [bind].
    unfold sincos2d.
    rewrite (bool_decide_eq_false_2 (_UPS_ZONE <> _UPS_ZONE)) by (intros H; apply H; reflexivity).
    cbn [andb].
    destruct falsed; rewrite Ups__init__OK by auto; cbn [bind];
      cbn; f_equal; f_equal; unfold neg; ring.
Qed.

End Forward.

(** ** The inverse projection *)





Lemma degrees_radians d : math.degrees (math.radians d) = d.
Proof.
  unfold math.degrees, math.radians. field. pose proof PI_RGT_0. lra.
Qed.

(** ** The WGS84 ellipsoid and the projection at the pole *)

Lemma WGS84_run :
  Ellipsoid.__init__ R_MA None (Some 298.257223563) "WGS84" ∅
  = (<["WGS84"%string := WGS84]> ∅, OK WGS84).
Proof.
  assert (Htry : Ellipsoid.__init__try R_MA None (Some 298.257223563)
                 = OK (_a WGS84, _b WGS84, _f WGS84, _f_ WGS84)).
  { unfold Ellipsoid.__init__try, WGS84, R_MA. cbn [_a _b _f _f_]. run. reflexivity. }
  rewrite (__init__after_try _ _ _ _ _ _ _ _ _ Htry).
  cbv zeta. unfold _register. rewrite decide_False by discriminate. rewrite lookup_empty.
  f_equal. change (mkEllipsoid (_a WGS84) (_b WGS84) (_f WGS84) (_f_ WGS84) "WGS84") with WGS84.
  rewrite __init__checks_OK; [reflexivity | |].
  - eapply (__init__try_normalised _ _ _ _ _ _ _ Htry "WGS84").
  - right. pose proof _TOL_pos. unfold WGS84, R_MA. cbn [_f _f_].
    split; split_Rabs; lra.
Qed.

Lemma WGS84_constructed : constructed WGS84.
Proof.
  exists R_MA, None, (Some 298.257223563), "WGS84"%string, ∅, (<["WGS84"%string := WGS84]> ∅).
  exact WGS84_run.
Qed.

(** Within [_TOL] of a pole every longitude is projected onto the false
    origin. *)
Lemma toUps8_at_pole (norm : R -> R -> result (Z * R * R)) E k0
    lat0 lon0 z lat lon falsed strict :
  normalised E -> 0 < k0 ->
  norm lat0 lon0 = OK (z, lat, lon) ->
  lat < _UPS_LAT_MIN \/ lat > _UPS_LAT_MAX ->
  90 - _TOL < Rabs lat < 90 ->
  exists x y cv,
    x = 0 /\ y = 0
    /\ toUps8 norm lat0 lon0 E k0 "" falsed strict
       = OK (mkUps (if decide (lat < _UPS_LAT_MIN) then "S" else "N")%string
               ((if falsed then _Falsing else 0) + x)
               ((if falsed then _Falsing else 0) + y)
               (_Band lat lon) E falsed cv (Some k0) k0 (_hemi lat) None).
Proof.
  intros HE Hk0 Hnorm Hups Hlat.
  pose proof _TOL_pos as HTOL. pose proof _TOL_lt_1 as HTOL1. pose proof PI_RGT_0 as HPI.
  set (a := if decide (lat < _UPS_LAT_MIN) then - lat else lat).
  assert (Ha : a = Rabs lat).
  { unfold a, _UPS_LAT_MIN, _UPS_LAT_MAX in *.
    destruct (decide (lat < -79.5)); [rewrite Rabs_left by lra; reflexivity|].
    rewrite Rabs_pos_eq by lra. reflexivity. }
  assert (Hpole : Rabs (a - 90) < _TOL) by (rewrite Ha; split_Rabs; lra).
  destruct (es_taupf_OK E (tan (math.radians a)) HE) as [T HT].
  assert (HT0 : 0 <= T).
  { eapply es_taupf_nonneg; [exact HE | | exact HT].
    left. apply tan_gt_0; unfold math.radians; rewrite Ha; nra. }
  destruct (es_c_OK E HE) as (c & Hc & Hcpos).
  exists (sin (math.radians lon) * (0 * (2 * k0 * Ellipsoid.a E / c))).
  exists ((if decide (lat < _UPS_LAT_MIN) then 1 else -1)
          * (cos (math.radians lon) * (0 * (2 * k0 * Ellipsoid.a E / c)))).
  exists (Some (if decide (lat < _UPS_LAT_MIN) then - lon else lon)).
  split; [ring|]. split; [ring|].
  unfold toUps8. rewrite (upsZoneBand5_ups norm lat0 lon0 z lat lon Hnorm Hups).
  cbn [bind].
  rewrite (bool_decide_eq_false_2 (""%string <> ""%string)) by (intros H; apply H; reflexivity).
  fold a. unfold a in HT, Hpole |- *.
  destruct (decide (lat < _UPS_LAT_MIN)) as [Hs|Hs].
  - change (upper1 "S"%string) with "S"%string.
    rewrite (bool_decide_eq_false_2 ("S"%string = "N"%string)) by discriminate.
    rewrite (bool_decide_eq_true_2 _ Hpole).
    rewrite HT. cbn [bind]. rewrite decide_True by lra. cbn [bind].
    rewrite Hc. cbn [bind]. rewrite div_OK by lra. cbn [bind].
    unfold sincos2d.
    rewrite (bool_decide_eq_false_2 (_UPS_ZONE <> _UPS_ZONE)) by (intros H; apply H; reflexivity).
    cbn [andb].
    destruct falsed; rewrite Ups__init__OK by auto; cbn [bind];
      cbn; f_equal; f_equal; unfold neg; ring.
  - change (upper1 "N"%string) with "N"%string.
    rewrite (bool_decide_eq_true_2 ("N"%string = "N"%string)) by reflexivity.
    rewrite (bool_decide_eq_true_2 _ Hpole).
    rewrite HT. cbn [bind]. rewrite decide_True by lra. cbn [bind].
    rewrite Hc. cbn [bind]. rewrite div_OK by lra. cbn [bind].
    unfold sincos2d.
    rewrite (bool_decide_eq_false_2 (_UPS_ZONE <> _UPS_ZONE)) by (intros H; apply H; reflexivity).
    cbn [andb].
    destruct falsed; rewrite Ups__init__OK by auto; cbn [bind];
      cbn; f_equal; f_equal; unfold neg; ring.
Qed.

(** ** Conversions between radii, flattenings and eccentricities *)

Lemma _spherical_false f :
  _spherical f = false <-> EPS <= Rabs f /\ f <= EPS1.
Proof.
  unfold _spherical. rewrite orb_false_iff, !bool_decide_eq_false. lra.
Qed.

Lemma _spherical__false f_ :
  _spherical_ f_ = false <-> EPS <= Rabs f_ /\ Rabs f_ <= _1_EPS.
Proof.
  unfold _spherical_. rewrite orb_false_iff, !bool_decide_eq_false. lra.
Qed.

Lemma _spherical_a_b_false a b :
  _spherical_a_b a b = false <-> EPS <= a /\ EPS <= b /\ EPS <= Rabs (a - b).
Proof.
  unfold _spherical_a_b. rewrite !orb_false_iff, !bool_decide_eq_false. lra.
Qed.

Lemma _spherical_0 : _spherical 0 = true.
Proof.
  unfold _spherical. rewrite bool_decide_eq_true_2; [reflexivity|].
  rewrite Rabs_R0. apply EPS_pos.
Qed.

Lemma _spherical__0 : _spherical_ 0 = true.
Proof.
  unfold _spherical_. rewrite bool_decide_eq_true_2; [reflexivity|].
  rewrite Rabs_R0. apply EPS_pos.
Qed.

(** X1: the equatorial radius recovered from the polar radius that [a_f2b]
    computes is the original one, for every radius and every flattening,
    spherical, oblate, prolate or invalid. *)
Theorem b_f2a_a_f2b (a f : R) : b_f2a (a_f2b a f) f = OK a.
Proof.
  unfold b_f2a, a_f2b.
  destruct (_spherical f) eqn:Hs; [reflexivity|].
  apply _spherical_false in Hs. destruct Hs as [Hf Hf1].
  pose proof EPS_pos.
  rewrite bool_decide_eq_false_2 by (unfold EPS1 in *; split_Rabs; lra).
  cbn [orb]. rewrite div_OK by (unfold EPS1 in *; lra).
  f_equal. field. unfold EPS1 in *; lra.
Qed.

Lemma Rabs_inv_EPS f :
  f <> 0 ->
  (Rabs (1 / f) < EPS <-> Rabs f > _1_EPS) /\
  (Rabs (1 / f) > _1_EPS <-> Rabs f < EPS).
Proof.
  intros Hf.
  assert (Hx : 0 < Rabs f) by (apply Rabs_pos_lt; exact Hf).
  replace (Rabs (1 / f)) with (1 / Rabs f)
    by (unfold Rdiv; rewrite Rabs_mult, Rabs_R1, Rabs_inv; reflexivity).
  set (x := Rabs f) in *.
  assert (Hy : 0 < 1 / x) by (apply Rdiv_lt_0_compat; lra).
  assert (Hxy : x * (1 / x) = 1) by (field; lra).
  set (y := 1 / x) in *.
  unfold _1_EPS, EPS.
  split; split; intros H; nra.
Qed.

(** X2: converting a flattening to the inverse flattening and back gives
    the flattening again, except that a flattening the code regards as
    spherical (below [EPS] in magnitude or above [EPS1]) and one beyond
    [1 / EPS] in magnitude both come back as 0. *)
Theorem f_2f_f2f_ (f : R) :
  (f_ <- f2f_ f ;; f_2f f_)
  = OK (if _spherical f || bool_decide (Rabs f > _1_EPS) then 0 else f).
Proof.
  unfold f2f_.
  destruct (_spherical f) eqn:Hs.
  - cbn. rewrite _spherical__0. unfold f_2f. rewrite _spherical__0. cbn.
    rewrite _spherical_0. reflexivity.
  - pose proof Hs as Hs'. apply _spherical_false in Hs'. destruct Hs' as [Hf Hf1].
    pose proof EPS_pos.
    assert (Hf0 : f <> 0) by (intros ->; rewrite Rabs_R0 in Hf; lra).
    rewrite div_OK by exact Hf0. cbn [bind orb].
    destruct (Rabs_inv_EPS f Hf0) as [Hlt Hgt].
    case_bool_decide as Hbig.
    + assert (Hsp : _spherical_ (1 / f) = true).
      { unfold _spherical_. rewrite bool_decide_eq_true_2 by (apply Hlt; exact Hbig).
        reflexivity. }
      rewrite Hsp. unfold f_2f. rewrite _spherical__0. cbn.
      rewrite _spherical_0. reflexivity.
    + assert (Hsp : _spherical_ (1 / f) = false).
      { apply _spherical__false. split.
        - destruct (Rle_dec EPS (Rabs (1 / f))) as [|Hn]; [assumption|].
          exfalso. apply Hbig. apply Hlt. lra.
        - destruct (Rle_dec (Rabs (1 / f)) _1_EPS) as [|Hn]; [assumption|].
          exfalso. assert (Rabs f < EPS) by (apply Hgt; lra). lra. }
      rewrite Hsp. unfold f_2f. rewrite Hsp.
      rewrite div_OK
        by (unfold Rdiv; rewrite Rmult_1_l; apply Rinv_neq_0_compat; exact Hf0).
      cbn [bind].
      replace (1 / (1 / f)) with f by (field; exact Hf0).
      rewrite Hs. reflexivity.
Qed.

(** X3: the equatorial radius recovered by [b_f_2a] from the polar radius
    that [a_f_2b] computes is the original one, for every inverse
    flattening that is not within [EPS] of 1. *)
Theorem b_f_2a_a_f_2b (a f_ : R) :
  EPS <= Rabs (f_ - 1) ->
  (b <- a_f_2b a f_ ;; b_f_2a b f_) = OK a.
Proof.
  intros Hf1. pose proof EPS_pos. pose proof EPS_small.
  unfold a_f_2b.
  destruct (_spherical_ f_) eqn:Hs.
  - cbn. unfold b_f_2a. rewrite Hs. reflexivity.
  - pose proof Hs as Hs'. apply _spherical__false in Hs'. destruct Hs' as [Hf _].
    assert (Hf0 : f_ <> 0) by (intros ->; rewrite Rabs_R0 in Hf; lra).
    rewrite div_OK by exact Hf0. cbn [bind]. unfold b_f_2a. rewrite Hs.
    rewrite bool_decide_eq_false_2 by lra.
    rewrite bool_decide_eq_false_2 by (split_Rabs; lra).
    cbn [orb]. rewrite div_OK by (intros H1; rewrite H1, Rabs_R0 in Hf1; lra).
    f_equal. field. split; [exact Hf0|].
    intros H1; rewrite H1, Rabs_R0 in Hf1; lra.
Qed.

Lemma b_f_2a_a_f_2b_witness :
  EPS <= Rabs (298.257223563 - 1) /\
  (b <- a_f_2b 6378137 298.257223563 ;; b_f_2a b 298.257223563) = OK 6378137.
Proof.
  assert (H : EPS <= Rabs (298.257223563 - 1))
    by (unfold EPS; split_Rabs; lra).
  split; [exact H | exact (b_f_2a_a_f_2b 6378137 298.257223563 H)].
Defined.

(** X4: the third flattening [n = f / (2 - f)] of a flattening [f] converts
    back to [f] with [n2f], and to the eccentricity squared [f2e2(f)] with
    [n2e2], for every [f] of magnitude at least [3 EPS] between -1000000
    and [EPS1]. *)
Theorem n2f_f2n (f : R) :
  3 * EPS <= Rabs f -> -1000000 <= f -> f <= EPS1 ->
  (n <- f2n f ;; n2f n) = OK (finite f) /\
  (n <- f2n f ;; n2e2 n) = OK (finite (f2e2 f)).
Proof.
  intros Hf Hlow Hf1. pose proof EPS_pos as He. pose proof EPS_small as Hes.
  assert (Hs : _spherical f = false) by (apply _spherical_false; lra).
  unfold f2n, f2e2. rewrite Hs.
  assert (Hd : 0 < 2 - f) by (unfold EPS1 in *; lra).
  rewrite div_OK by lra. cbn [bind].
  set (n := f / (2 - f)).
  assert (Hn : n * (2 - f) = f) by (unfold n; field; lra).
  assert (Hn1 : (n + 1) * (2 - f) = 2) by (unfold n; field; lra).
  assert (Habs : EPS <= Rabs n).
  { unfold EPS1 in *. destruct (Rle_dec 0 f).
    - rewrite Rabs_right in Hf by lra.
      assert (0 <= n) by nra. rewrite Rabs_right by lra. nra.
    - rewrite Rabs_left in Hf by lra.
      assert (n < 0) by nra. rewrite Rabs_left by lra. nra. }
  assert (Ht : EPS <= n + 1) by (unfold EPS in *; nra).
  assert (Ht2 : EPS <= (1 + n) ^ 2) by (unfold EPS in *; nra).
  unfold n2f, n2e2.
  rewrite !decide_False by lra.
  rewrite !div_OK by nra. cbn [bind].
  replace (2 * n / (n + 1)) with f by (unfold n; field; lra).
  replace (4 * n / (1 + n) ^ 2) with (f * (2 - f)) by (unfold n; field; lra).
  rewrite Hs. split; reflexivity.
Qed.

Lemma n2f_f2n_witness :
  (3 * EPS <= Rabs (1 / 2) /\ -1000000 <= 1 / 2 /\ 1 / 2 <= EPS1) /\
  (n <- f2n (1 / 2) ;; n2f n) = OK (finite (1 / 2)) /\
  (n <- f2n (1 / 2) ;; n2e2 n) = OK (finite (f2e2 (1 / 2))).
Proof.
  assert (H1 : 3 * EPS <= Rabs (1 / 2)) by (unfold EPS; split_Rabs; lra).
  assert (H2 : -1000000 <= 1 / 2) by lra.
  assert (H3 : 1 / 2 <= EPS1) by (unfold EPS1, EPS; lra).
  split; [auto | exact (n2f_f2n (1 / 2) H1 H2 H3)].
Defined.

(** ** An ellipsoid from its two radii *)

Lemma f2f__OK f :
  EPS <= Rabs f -> f <= EPS1 -> Rabs f <= _1_EPS -> f2f_ f = OK (1 / f).
Proof.
  intros Hf Hf1 Hf2. pose proof EPS_pos.
  assert (Hf0 : f <> 0) by (intros ->; rewrite Rabs_R0 in Hf; lra).
  destruct (Rabs_inv_EPS f Hf0) as [Hlt Hgt].
  unfold f2f_.
  rewrite (proj2 (_spherical_false f)) by lra.
  rewrite div_OK by exact Hf0. cbn [bind].
  rewrite (proj2 (_spherical__false (1 / f))); [reflexivity|].
  split.
  - destruct (Rle_dec EPS (Rabs (1 / f))) as [|Hn]; [assumption|].
    assert (Rabs f > _1_EPS) by (apply Hlt; lra). lra.
  - destruct (Rle_dec (Rabs (1 / f)) _1_EPS) as [|Hn]; [assumption|].
    assert (Rabs f < EPS) by (apply Hgt; lra). lra.
Qed.

Lemma __init__try_a_b a b :
  EPS <= a -> EPS <= b -> EPS <= Rabs (a - b) ->
  EPS <= Rabs ((a - b) / a) -> (a - b) / a <= EPS1 ->
  Rabs ((a - b) / a) <= _1_EPS ->
  Ellipsoid.__init__try a (Some b) None
  = OK (a, b, (a - b) / a, 1 / ((a - b) / a)).
Proof.
  intros Ha Hb Hab Hf Hf1 Hf2. pose proof EPS_pos.
  unfold Ellipsoid.__init__try.
  rewrite (Radius__accepts a) by assumption. cbn [bind truthy_opt].
  unfold truthy at 1. rewrite bool_decide_eq_true_2 by lra.
  change (default 0 (Some b)) with b. rewrite (Radius__accepts b) by assumption. cbn [bind].
  assert (Hf' : a_b2f a b = OK ((a - b) / a)).
  { unfold a_b2f. rewrite (proj2 (_spherical_a_b_false a b)) by lra.
    rewrite div_OK by lra. cbn [bind].
    rewrite (proj2 (_spherical_false _)) by lra. reflexivity. }
  rewrite Hf'. cbn [bind]. rewrite f2f__OK by assumption. cbn [bind].
  assert (Hf0 : (a - b) / a <> 0) by (intros H0; rewrite H0, Rabs_R0 in Hf; lra).
  rewrite bool_decide_eq_false_2 by lra.
  rewrite bool_decide_eq_false_2 by (intros ->; rewrite Rminus_diag, Rabs_R0 in Hab; lra).
  unfold truthy. rewrite bool_decide_eq_true_2
    by (unfold Rdiv at 1; rewrite Rmult_1_l; apply Rinv_neq_0_compat; exact Hf0).
  cbn [orb negb]. rewrite decide_False by lra. reflexivity.
Qed.

Lemma __init__a_b a b name (reg : registry) :
  EPS <= a -> EPS <= b -> EPS <= Rabs (a - b) ->
  EPS <= Rabs ((a - b) / a) -> (a - b) / a <= EPS1 ->
  Rabs ((a - b) / a) <= _1_EPS ->
  reg !! name = None ->
  let E := mkEllipsoid a b ((a - b) / a) (1 / ((a - b) / a)) name in
  Ellipsoid.__init__ a (Some b) None name reg
  = ((if decide (name = ""%string) then reg else <[name := E]> reg), OK E)
  /\ normalised E.
Proof.
  intros Ha Hb Hab Hf Hf1 Hf2 Hreg E.
  pose proof (__init__try_a_b a b Ha Hb Hab Hf Hf1 Hf2) as Htry.
  assert (HE : normalised E) by (eapply __init__try_normalised; exact Htry).
  split; [|exact HE].
  rewrite (__init__after_try _ _ _ _ _ _ _ _ _ Htry). cbv zeta. fold E.
  unfold _register. rewrite Hreg.
  assert (Hchk : Ellipsoid.__init__checks E = OK tt).
  { apply __init__checks_OK; [exact HE|]. right. simpl.
    assert (Hf0 : (a - b) / a <> 0)
      by (pose proof EPS_pos; intros H0; rewrite H0, Rabs_R0 in Hf; lra).
    pose proof _TOL_pos. set (F := (a - b) / a) in *.
    replace (1 / F - 1 / F) with 0 by lra.
    replace (F - 1 / (1 / F)) with 0 by (field; exact Hf0).
    rewrite Rabs_R0. lra. }
  destruct (decide (name = ""%string)); rewrite Hchk; reflexivity.
Qed.

(** ** The second and third flattening and eccentricities *)

Lemma normalised_cases E :
  normalised E ->
  (_f E = 0 /\ _b E = _a E /\ EPS <= _a E) \/
  (_f E <> 0 /\ EPS <= _a E /\ EPS <= _b E /\ EPS <= Rabs (_a E - _b E)
   /\ _f E = (_a E - _b E) / _a E /\ EPS <= Rabs (_f E) /\ _f E <= EPS1).
Proof.
  intros [Ha [(Hf & Hb & _)|(Hb & Hab & Hf & Hf1 & Hf2 & _)]].
  - left. auto.
  - right. pose proof EPS_pos. repeat split; auto.
    intros H0. rewrite H0, Rabs_R0 in Hf1. lra.
Qed.

Lemma truthy_0 : truthy 0 = false.
Proof. unfold truthy. apply bool_decide_eq_false_2. intros H; apply H; reflexivity. Qed.

Lemma truthy_neq x : x <> 0 -> truthy x = true.
Proof. intros H. unfold truthy. apply bool_decide_eq_true_2. exact H. Qed.

Lemma _spherical_a_a a : _spherical_a_b a a = true.
Proof.
  unfold _spherical_a_b. rewrite Rminus_diag, Rabs_R0.
  rewrite (bool_decide_eq_true_2 (0 < EPS)) by apply EPS_pos.
  apply orb_true_r.
Qed.

Lemma n_OK E :
  normalised E -> Ellipsoid.n E = OK ((_a E - _b E) / (_a E + _b E)).
Proof.
  intros HE. pose proof EPS_pos. pose proof _TOL_pos.
  unfold Ellipsoid.n, Ellipsoid.a, Ellipsoid.b, Ellipsoid.f, a_b2n, f2n.
  destruct (normalised_cases E HE)
    as [(Hf & Hb & Ha)|(Hf0 & Ha & Hb & Hab & Hf & Hf1 & Hf2)].
  - rewrite Hb, Hf, _spherical_a_a, _spherical_0, Rabs_R0.
    rewrite decide_True by lra. cbn [bind].
    rewrite _assert_agree by lra. unfold Ellipsoid.f. rewrite Hf, truthy_0.
    f_equal. field. lra.
  - rewrite (proj2 (_spherical_a_b_false _ _)) by lra.
    rewrite (proj2 (_spherical_false _)) by lra.
    rewrite decide_False by lra.
    assert (H2f : 2 - _f E <> 0) by (unfold EPS1 in *; lra).
    rewrite !div_OK by lra. cbn [bind].
    rewrite _assert_agree; [| lra | rewrite Hf; field; lra].
    unfold Ellipsoid.f. rewrite truthy_neq by exact Hf0.
    f_equal. rewrite Hf. field. lra.
Qed.

Lemma f2_OK E :
  normalised E -> Ellipsoid.f2 E = OK ((_a E - _b E) / _b E).
Proof.
  intros HE. pose proof EPS_pos. pose proof _TOL_pos.
  unfold Ellipsoid.f2, Ellipsoid.a_b, Ellipsoid.a, Ellipsoid.b, Ellipsoid.f, f2f2.
  destruct (normalised_cases E HE)
    as [(Hf & Hb & Ha)|(Hf0 & Ha & Hb & Hab & Hf & Hf1 & Hf2)].
  - rewrite Hb, Hf, truthy_0, _spherical_0. cbn [bind].
    rewrite _assert_agree by lra. unfold Ellipsoid.f. rewrite Hf, truthy_0.
    f_equal. field. lra.
  - rewrite truthy_neq by exact Hf0.
    rewrite (proj2 (_spherical_false _)) by lra.
    rewrite decide_False by (unfold EPS1 in *; split_Rabs; lra).
    rewrite !div_OK by (unfold EPS1 in *; lra). cbn [bind].
    rewrite _assert_agree; [| lra | rewrite Hf; field; lra].
    unfold Ellipsoid.f. rewrite truthy_neq by exact Hf0.
    f_equal. rewrite Hf. field. lra.
Qed.

Lemma WGS84_f : Ellipsoid.f WGS84 = 1 / 298.257223563.
Proof. unfold Ellipsoid.f, WGS84, R_MA. cbn [_f]. lra. Qed.

Lemma WGS84_f_small : Rabs (Ellipsoid.f WGS84) <= 1 / 2.
Proof. rewrite WGS84_f. rewrite Rabs_pos_eq; lra. Qed.

Lemma WGS84_f_le : Ellipsoid.f WGS84 <= 1 / 2.
Proof. rewrite WGS84_f. lra. Qed.

(** X5: on every validly constructed ellipsoid the third flattening [n] is
    available, its cross-check against the flattening does not fail, and
    its value is [(a - b) / (a + b)], which is below 1 in magnitude.  The
    second flattening [f2] is [(a - b) / b] and passes its cross-check when
    the flattening is at most 1/2, that is [b >= a / 2]: [f2] grows without
    bound as [b / a] approaches 0, and the cross-check compares it within
    the absolute tolerance [_TOL], which the rounding of large floats, not
    modelled here, exceeds. *)
Theorem flattenings_2nd_3rd (E : Ellipsoid) :
  constructed E ->
  Ellipsoid.n E
  = OK ((Ellipsoid.a E - Ellipsoid.b E) / (Ellipsoid.a E + Ellipsoid.b E)) /\
  (Ellipsoid.f E <= 1 / 2 ->
   Ellipsoid.f2 E = OK ((Ellipsoid.a E - Ellipsoid.b E) / Ellipsoid.b E)).
Proof.
  intros HE. apply constructed_normalised in HE.
  split; [apply n_OK | intros _; apply f2_OK]; exact HE.
Qed.

Lemma flattenings_2nd_3rd_witness :
  (constructed WGS84 /\ Ellipsoid.f WGS84 <= 1 / 2) /\
  Ellipsoid.n WGS84
  = OK ((Ellipsoid.a WGS84 - Ellipsoid.b WGS84)
        / (Ellipsoid.a WGS84 + Ellipsoid.b WGS84)) /\
  Ellipsoid.f2 WGS84
  = OK ((Ellipsoid.a WGS84 - Ellipsoid.b WGS84) / Ellipsoid.b WGS84).
Proof.
  split; [split; [exact WGS84_constructed | exact WGS84_f_le]|].
  destruct (flattenings_2nd_3rd WGS84 WGS84_constructed) as [Hn Hf2].
  split; [exact Hn | exact (Hf2 WGS84_f_le)].
Defined.

Lemma e22_cases E :
  normalised E ->
  Ellipsoid.e22 E
  = if decide ((1 - _f E) ^ 2 < EPS) then Raise AssertionError
    else OK ((_a E / _b E) ^ 2 - 1).
Proof.
  intros HE. pose proof EPS_pos. pose proof EPS_small. pose proof _TOL_pos.
  unfold Ellipsoid.e22, Ellipsoid.a, Ellipsoid.b, Ellipsoid.f, a_b2e22, f2e22, f2e2.
  destruct (normalised_cases E HE)
    as [(Hf & Hb & Ha)|(Hf0 & Ha & Hb & Hab & Hf & Hf1 & Hf2)].
  - rewrite Hb, Hf, _spherical_a_a, _spherical_0.
    rewrite !decide_False by lra. rewrite div_OK by lra. cbn [bind].
    rewrite _assert_agree by (try lra; field).
    unfold Ellipsoid.f. rewrite Hf, truthy_0. f_equal. field. lra.
  - rewrite (proj2 (_spherical_a_b_false _ _)) by lra.
    rewrite (proj2 (_spherical_false _)) by lra.
    rewrite div_OK by lra. cbn [bind].
    destruct (decide ((1 - _f E) ^ 2 < EPS)) as [Ht|Ht]; [reflexivity|].
    rewrite div_OK by lra. cbn [bind].
    assert (H1f : 1 - _f E <> 0) by (unfold EPS1 in *; lra).
    rewrite _assert_agree; [| lra |].
    + unfold Ellipsoid.f. rewrite truthy_neq by exact Hf0.
      f_equal. rewrite Hf. field. split; lra.
    + rewrite Hf. field. split; [lra|].
      intros Hz. apply H1f. rewrite Hf. field_simplify_eq; lra.
Qed.

(** X6: on a validly constructed ellipsoid whose flattening is at most
    1/2, that is [b >= a / 2], the second eccentricity squared [e22] passes
    its cross-check and is [(a / b)^2 - 1], a number from -1 to 3.  (Like
    [f2], [e22] grows without bound as [b / a] approaches 0, where the
    absolute tolerance of its cross-check is below the rounding of floats.) *)
Theorem e22_value (E : Ellipsoid) :
  constructed E -> Ellipsoid.f E <= 1 / 2 ->
  exists v,
    Ellipsoid.e22 E = OK v /\
    v = (Ellipsoid.a E / Ellipsoid.b E) ^ 2 - 1 /\ -1 < v <= 3.
Proof.
  intros HE Hf. apply constructed_normalised in HE.
  pose proof EPS_pos. pose proof EPS_small.
  rewrite e22_cases by exact HE. unfold Ellipsoid.f in Hf.
  rewrite decide_False by nra.
  eexists. split; [reflexivity|]. split; [reflexivity|].
  unfold Ellipsoid.a, Ellipsoid.b.
  destruct (normalised_cases E HE)
    as [(Hf0 & Hb & Ha)|(Hf0 & Ha & Hb & Hab & Hfe & Hf1 & Hf2)].
  - rewrite Hb. replace (_a E / _a E) with 1 by (field; lra). lra.
  - assert (Hq : _b E / _a E = 1 - _f E) by (rewrite Hfe; field; lra).
    assert (Hr : _a E / _b E = / (1 - _f E)) by (rewrite <- Hq; field; lra).
    rewrite Hr.
    assert (Hinv : 0 < / (1 - _f E) <= 2).
    { split; [apply Rinv_0_lt_compat; lra|].
      replace 2 with (/ (1 / 2)) by field.
      apply Rinv_le_contravar; lra. }
    nra.
Qed.

Lemma e22_value_witness :
  (constructed (mkEllipsoid 2 1 ((2 - 1) / 2) (1 / ((2 - 1) / 2)) "") /\
   Ellipsoid.f (mkEllipsoid 2 1 ((2 - 1) / 2) (1 / ((2 - 1) / 2)) "") <= 1 / 2) /\
  exists v,
    Ellipsoid.e22 (mkEllipsoid 2 1 ((2 - 1) / 2) (1 / ((2 - 1) / 2)) "") = OK v /\
    v = (2 / 1) ^ 2 - 1 /\ -1 < v <= 3.
Proof.
  assert (HE : constructed (mkEllipsoid 2 1 ((2 - 1) / 2) (1 / ((2 - 1) / 2)) ""))
    by (exists 2, (Some 1), None, ""%string, ∅, ∅; exact __init__oblate).
  assert (Ht : Ellipsoid.f (mkEllipsoid 2 1 ((2 - 1) / 2) (1 / ((2 - 1) / 2)) "")
               <= 1 / 2) by (unfold Ellipsoid.f; cbn [_f]; lra).
  split; [split; assumption | exact (e22_value _ HE Ht)].
Defined.

Lemma too_flat_constructed : constructed too_flat.
Proof.
  exists 1, (Some (/ 1000000000)), None, ""%string, ∅, ∅.
  refine (proj1 (__init__a_b 1 (/ 1000000000) "" ∅ _ _ _ _ _ _ _));
    try apply lookup_empty;
    unfold _1_EPS, EPS1, EPS; try split_Rabs; lra.
Qed.

(** X7: a validly constructed ellipsoid can be so flat that reading its
    second eccentricity squared fails: when [(1 - f)^2] is below [EPS] the
    flattening-based value is infinite and [e22] raises the assertion error
    of its cross-check. *)
Theorem e22_too_flat (E : Ellipsoid) :
  constructed E -> (1 - Ellipsoid.f E) ^ 2 < EPS ->
  Ellipsoid.e22 E = Raise AssertionError.
Proof.
  intros HE Ht. apply constructed_normalised in HE.
  rewrite e22_cases by exact HE. unfold Ellipsoid.f in Ht.
  rewrite decide_True by lra. reflexivity.
Qed.

Lemma e22_too_flat_witness :
  (constructed too_flat /\ (1 - Ellipsoid.f too_flat) ^ 2 < EPS) /\
  Ellipsoid.e22 too_flat = Raise AssertionError.
Proof.
  assert (Ht : (1 - Ellipsoid.f too_flat) ^ 2 < EPS)
    by (unfold Ellipsoid.f, too_flat, EPS; simpl; lra).
  split; [split; [exact too_flat_constructed | exact Ht]
         | exact (e22_too_flat too_flat too_flat_constructed Ht)].
Defined.

Lemma _TOL_small : _TOL < / 1000.
Proof.
  unfold _TOL. pose proof EPS_pos. pose proof EPS_small.
  replace (/ 1000) with (sqrt (/ 1000 * / 1000))
    by (rewrite sqrt_square; lra).
  apply sqrt_lt_1; lra.
Qed.

Lemma f2e32_OK f :
  EPS <= Rabs f -> f <= EPS1 ->
  f2e32 f = OK (f * (2 - f) / (2 - f * (2 - f))).
Proof.
  intros Hf Hf1. unfold f2e32, f2e2.
  rewrite (proj2 (_spherical_false f)) by lra.
  rewrite div_OK by nra. reflexivity.
Qed.


Lemma e32_raises E :
  normalised E -> _f E <> 0 ->
  _spherical_a_b (_a E ^ 2) (_b E ^ 2) = true ->
  _TOL < Rabs ((_a E ^ 2 - _b E ^ 2) / (_a E ^ 2 + _b E ^ 2)) ->
  Ellipsoid.e32 E = Raise AssertionError.
Proof.
  intros HE Hf0 Hsq Hbig. pose proof EPS_pos.
  unfold Ellipsoid.e32, Ellipsoid.a, Ellipsoid.b, Ellipsoid.f, a_b2e32.
  destruct (normalised_cases E HE)
    as [(Hf & Hb & Ha)|(_ & Ha & Hb & Hab & Hf & Hf1 & Hf2)]; [contradiction|].
  rewrite Hsq. rewrite f2e32_OK by lra. cbn [bind].
  unfold Ellipsoid._assert.
  replace (_f E * (2 - _f E) / (2 - _f E * (2 - _f E)) - 0)
    with ((_a E ^ 2 - _b E ^ 2) / (_a E ^ 2 + _b E ^ 2))
    by (rewrite Hf; field; repeat split; nra).
  rewrite decide_True by lra. reflexivity.
Qed.



Lemma tiny_constructed : constructed tiny.
Proof.
  exists (/ 1000000000), (Some (/ 2000000000)), None, ""%string, ∅, ∅.
  refine (proj1 (__init__a_b (/ 1000000000) (/ 2000000000) "" ∅ _ _ _ _ _ _ _));
    try apply lookup_empty;
    unfold _1_EPS, EPS1, EPS; try split_Rabs; lra.
Qed.

(** X10: [e32] compares a value computed from the squared radii, which
    [a_b2e32] takes for 0 when a square is below [EPS], with the value
    computed from the flattening.  On a validly constructed, non-spherical
    ellipsoid with such small radii and a third eccentricity squared above
    the tolerance, reading [e32] raises the assertion error. *)
Theorem e32_tiny_radii (E : Ellipsoid) :
  constructed E -> Ellipsoid.f E <> 0 ->
  Ellipsoid.a E ^ 2 < EPS ->
  _TOL < Rabs ((Ellipsoid.a E ^ 2 - Ellipsoid.b E ^ 2)
               / (Ellipsoid.a E ^ 2 + Ellipsoid.b E ^ 2)) ->
  Ellipsoid.e32 E = Raise AssertionError.
Proof.
  intros HE Hf Ha Hbig. apply constructed_normalised in HE.
  apply e32_raises; try assumption.
  unfold _spherical_a_b. unfold Ellipsoid.a in Ha.
  rewrite (bool_decide_eq_true_2 (_a E ^ 2 < EPS)) by exact Ha. reflexivity.
Qed.

Lemma e32_tiny_radii_witness :
  (constructed tiny /\ Ellipsoid.f tiny <> 0 /\ Ellipsoid.a tiny ^ 2 < EPS /\
   _TOL < Rabs ((Ellipsoid.a tiny ^ 2 - Ellipsoid.b tiny ^ 2)
                / (Ellipsoid.a tiny ^ 2 + Ellipsoid.b tiny ^ 2))) /\
  Ellipsoid.e32 tiny = Raise AssertionError.
Proof.
  assert (Hf : Ellipsoid.f tiny <> 0)
    by (unfold Ellipsoid.f, tiny; simpl; lra).
  assert (Ha : Ellipsoid.a tiny ^ 2 < EPS)
    by (unfold Ellipsoid.a, tiny, EPS; simpl; lra).
  assert (Hbig : _TOL < Rabs ((Ellipsoid.a tiny ^ 2 - Ellipsoid.b tiny ^ 2)
                / (Ellipsoid.a tiny ^ 2 + Ellipsoid.b tiny ^ 2))).
  { pose proof _TOL_small. unfold Ellipsoid.a, Ellipsoid.b, tiny. simpl.
    split_Rabs; lra. }
  split; [repeat split; try assumption; exact tiny_constructed
         | exact (e32_tiny_radii tiny tiny_constructed Hf Ha Hbig)].
Defined.

(** ** Constructing from a flattening or an inverse flattening *)

(** What the constructor returns is the instance its [try] block has
    built: registering and the cross-checks can only raise. *)
Lemma __init__returns a b f_ name (reg reg' : registry) a' b' f' f_' E :
  Ellipsoid.__init__try a b f_ = OK (a', b', f', f_') ->
  Ellipsoid.__init__ a b f_ name reg = (reg', OK E) ->
  E = mkEllipsoid a' b' f' f_' name.
Proof.
  intros Htry Hrun.
  rewrite (__init__after_try _ _ _ _ _ _ _ _ _ Htry) in Hrun. cbv zeta in Hrun.
  destruct (_register reg name _) as [reg''|x]; [|discriminate].
  destruct (Ellipsoid.__init__checks _) as [[]|x]; cbn [bind] in Hrun; congruence.
Qed.

(** X11: an ellipsoid that [Ellipsoid2(a, f)] returns has exactly the given
    equatorial radius and flattening, the polar radius [a (1 - f)] and the
    inverse flattening [1 / f], for a flattening between [EPS] and [1 / EPS]
    in magnitude and at most [EPS1], when the polar radius [a (1 - f)] and
    the difference [a |f|] of the radii are at least [EPS] (as for every
    [a >= 1]).  Whether the call returns is left to the constructor: its
    cross-checks compare floats and can fail by their rounding, which is
    not modelled. *)
Theorem Ellipsoid2_roundtrip (a f : R) (name : string) (reg reg' : registry)
    (E : Ellipsoid) :
  EPS <= a -> EPS <= Rabs f -> f <= EPS1 -> Rabs f <= _1_EPS ->
  EPS <= a * (1 - f) -> EPS <= a * Rabs f ->
  Ellipsoid2.__init__ a f name reg = (reg', OK E) ->
  Ellipsoid.a E = a /\ Ellipsoid.f E = f /\
  Ellipsoid.b E = a * (1 - f) /\ Ellipsoid.f_ E = 1 / f.
Proof.
  intros Ha Hf Hf1 Hf2 Hb Hab Hrun. pose proof EPS_pos.
  assert (Hfa : (a - a * (1 - f)) / a = f) by (field; lra).
  unfold Ellipsoid2.__init__, Float_ in Hrun.
  rewrite bool_decide_eq_false_2 in Hrun by lra.
  rewrite bool_decide_eq_false_2 in Hrun by lra. cbn [bind] in Hrun.
  assert (Hb' : a_f2b a f = a * (1 - f)).
  { unfold a_f2b. rewrite (proj2 (_spherical_false f)) by lra. reflexivity. }
  rewrite Hb' in Hrun.
  assert (Htry : Ellipsoid.__init__try a (Some (a * (1 - f))) None
                 = OK (a, a * (1 - f), (a - a * (1 - f)) / a,
                       1 / ((a - a * (1 - f)) / a))).
  { apply __init__try_a_b; try rewrite Hfa; try assumption.
    replace (a - a * (1 - f)) with (a * f) by ring.
    rewrite Rabs_mult, (Rabs_right a) by lra. exact Hab. }
  destruct (Ellipsoid.__init__ a (Some (a * (1 - f))) None name reg)
    as [reg'' [E'|x]] eqn:Hinit; cbn [fst snd try_except_ValueError] in Hrun;
    [|discriminate].
  assert (HE : E = E') by congruence. subst E'.
  rewrite (__init__returns _ _ _ _ _ _ _ _ _ _ _ Htry Hinit).
  cbn [Ellipsoid.a Ellipsoid.b Ellipsoid.f Ellipsoid.f_ _a _b _f _f_].
  rewrite Hfa. auto.
Qed.

Lemma Ellipsoid2_roundtrip_witness :
  (EPS <= 2 /\ EPS <= Rabs (1 / 2) /\ 1 / 2 <= EPS1 /\ Rabs (1 / 2) <= _1_EPS /\
   EPS <= 2 * (1 - 1 / 2) /\ EPS <= 2 * Rabs (1 / 2)) /\
  exists reg' E,
    Ellipsoid2.__init__ 2 (1 / 2) "" ∅ = (reg', OK E) /\
    Ellipsoid.a E = 2 /\ Ellipsoid.f E = 1 / 2 /\
    Ellipsoid.b E = 2 * (1 - 1 / 2) /\ Ellipsoid.f_ E = 1 / (1 / 2).
Proof.
  assert (H1 : EPS <= 2) by (unfold EPS; lra).
  assert (H2 : EPS <= Rabs (1 / 2)) by (unfold EPS; split_Rabs; lra).
  assert (H3 : 1 / 2 <= EPS1) by (unfold EPS1, EPS; lra).
  assert (H4 : Rabs (1 / 2) <= _1_EPS) by (unfold _1_EPS, EPS; split_Rabs; lra).
  assert (H5 : EPS <= 2 * (1 - 1 / 2)) by (unfold EPS; lra).
  assert (H6 : EPS <= 2 * Rabs (1 / 2)) by (unfold EPS; split_Rabs; lra).
  assert (Hrun : Ellipsoid2.__init__ 2 (1 / 2) "" ∅
                 = (∅, OK (mkEllipsoid 2 1 ((2 - 1) / 2) (1 / ((2 - 1) / 2)) ""))).
  { unfold Ellipsoid2.__init__, Float_.
    rewrite bool_decide_eq_false_2 by lra.
    rewrite bool_decide_eq_false_2 by lra. cbn [bind].
    assert (Hb' : a_f2b 2 (1 / 2) = 1).
    { unfold a_f2b. rewrite (proj2 (_spherical_false (1 / 2))) by lra. field. }
    rewrite Hb', __init__oblate. reflexivity. }
  split; [auto 10|].
  exists ∅, (mkEllipsoid 2 1 ((2 - 1) / 2) (1 / ((2 - 1) / 2)) "").
  split; [exact Hrun|].
  exact (Ellipsoid2_roundtrip 2 (1 / 2) "" ∅ ∅ _ H1 H2 H3 H4 H5 H6 Hrun).
Defined.

Lemma __init__try_a_f_ a f_ :
  EPS <= a -> EPS <= Rabs f_ -> Rabs f_ <= _1_EPS ->
  EPS <= a * (f_ - 1) / f_ -> EPS <= a / Rabs f_ -> 1 / f_ <= EPS1 ->
  Ellipsoid.__init__try a None (Some f_)
  = OK (a, a * (f_ - 1) / f_, (a - a * (f_ - 1) / f_) / a, f_).
Proof.
  intros Ha Hf_ Hf_1 Hb Hab Hf1. pose proof EPS_pos.
  assert (Hf_0 : f_ <> 0) by (intros ->; rewrite Rabs_R0 in Hf_; lra).
  assert (Hfa : (a - a * (f_ - 1) / f_) / a = 1 / f_) by (field; lra).
  assert (Hab' : a - a * (f_ - 1) / f_ = a / f_) by (field; lra).
  destruct (Rabs_inv_EPS f_ Hf_0) as [Hlt Hgt].
  assert (Hf : EPS <= Rabs (1 / f_)).
  { destruct (Rle_dec EPS (Rabs (1 / f_))) as [|Hn]; [assumption|].
    assert (Rabs f_ > _1_EPS) by (apply Hlt; lra). lra. }
  unfold Ellipsoid.__init__try.
  rewrite (Radius__accepts a) by assumption. cbn [bind truthy_opt].
  rewrite truthy_neq by exact Hf_0. change (default 0 (Some f_)) with f_.
  unfold a_f_2b. rewrite (proj2 (_spherical__false f_)) by lra.
  rewrite div_OK by exact Hf_0. cbn [bind].
  rewrite (Radius__accepts _) by assumption. cbn [bind].
  assert (Hf' : a_b2f a (a * (f_ - 1) / f_) = OK ((a - a * (f_ - 1) / f_) / a)).
  { unfold a_b2f. rewrite (proj2 (_spherical_a_b_false _ _)).
    - rewrite div_OK by lra. cbn [bind].
      rewrite (proj2 (_spherical_false _)) by (rewrite Hfa; lra). reflexivity.
    - repeat split; try assumption. rewrite Hab'.
      unfold Rdiv. rewrite Rabs_mult, Rabs_inv, (Rabs_right a) by lra. exact Hab. }
  rewrite Hf'. cbn [bind].
  rewrite bool_decide_eq_false_2 by (rewrite Hfa; lra).
  rewrite bool_decide_eq_false_2.
  2:{ intros Heq. rewrite <- Heq, Rminus_diag in Hab'.
      assert (0 < a / Rabs f_) by lra.
      assert (a / f_ <> 0); [|lra].
      unfold Rdiv. apply Rmult_integral_contrapositive_currified; [lra|].
      apply Rinv_neq_0_compat. exact Hf_0. }
  rewrite truthy_neq by exact Hf_0. cbn [orb negb].
  rewrite decide_False by (rewrite Hfa; lra). reflexivity.
Qed.

(** X12: an ellipsoid that [Ellipsoid(a, None, f_)] returns keeps the
    inverse flattening it was given and has the flattening [1 / f_] and the
    polar radius [a (f_ - 1) / f_], for an inverse flattening between [EPS]
    and [1 / EPS] in magnitude whose reciprocal is at most [EPS1], when the
    polar radius and the difference [a / |f_|] of the radii are at least
    [EPS].  Whether the call returns is left to the constructor, whose
    cross-checks compare floats. *)
Theorem Ellipsoid_from_f_ (a f_ : R) (name : string) (reg reg' : registry)
    (E : Ellipsoid) :
  EPS <= a -> EPS <= Rabs f_ -> Rabs f_ <= _1_EPS ->
  EPS <= a * (f_ - 1) / f_ -> EPS <= a / Rabs f_ -> 1 / f_ <= EPS1 ->
  Ellipsoid.__init__ a None (Some f_) name reg = (reg', OK E) ->
  Ellipsoid.a E = a /\ Ellipsoid.f_ E = f_ /\ Ellipsoid.f E = 1 / f_ /\
  Ellipsoid.b E = a * (f_ - 1) / f_.
Proof.
  intros Ha Hf_ Hf_1 Hb Hab Hf1 Hrun. pose proof EPS_pos.
  assert (Hf_0 : f_ <> 0) by (intros ->; rewrite Rabs_R0 in Hf_; lra).
  assert (Hfa : (a - a * (f_ - 1) / f_) / a = 1 / f_) by (field; lra).
  pose proof (__init__try_a_f_ a f_ Ha Hf_ Hf_1 Hb Hab Hf1) as Htry.
  rewrite (__init__returns _ _ _ _ _ _ _ _ _ _ _ Htry Hrun).
  cbn [Ellipsoid.a Ellipsoid.b Ellipsoid.f Ellipsoid.f_ _a _b _f _f_].
  rewrite Hfa. auto.
Qed.

Lemma Ellipsoid_from_f__witness :
  (EPS <= R_MA /\ EPS <= Rabs 298.257223563 /\ Rabs 298.257223563 <= _1_EPS /\
   EPS <= R_MA * (298.257223563 - 1) / 298.257223563 /\
   EPS <= R_MA / Rabs 298.257223563 /\ 1 / 298.257223563 <= EPS1) /\
  exists reg' E,
    Ellipsoid.__init__ R_MA None (Some 298.257223563) "WGS84" ∅ = (reg', OK E) /\
    Ellipsoid.a E = R_MA /\ Ellipsoid.f_ E = 298.257223563 /\
    Ellipsoid.f E = 1 / 298.257223563 /\
    Ellipsoid.b E = R_MA * (298.257223563 - 1) / 298.257223563.
Proof.
  assert (H1 : EPS <= R_MA) by (unfold EPS, R_MA; lra).
  assert (H2 : EPS <= Rabs 298.257223563) by (unfold EPS; split_Rabs; lra).
  assert (H3 : Rabs 298.257223563 <= _1_EPS) by (unfold _1_EPS, EPS; split_Rabs; lra).
  assert (H4 : EPS <= R_MA * (298.257223563 - 1) / 298.257223563)
    by (unfold EPS, R_MA; lra).
  assert (H5 : EPS <= R_MA / Rabs 298.257223563)
    by (rewrite (Rabs_right 298.257223563) by lra; unfold EPS, R_MA; lra).
  assert (H6 : 1 / 298.257223563 <= EPS1) by (unfold EPS1, EPS; lra).
  split; [auto 10|].
  exists (<["WGS84"%string := WGS84]> ∅), WGS84. split; [exact WGS84_run|].
  exact (Ellipsoid_from_f_ R_MA 298.257223563 "WGS84" ∅ _ WGS84 H1 H2 H3 H4 H5 H6
           WGS84_run).
Defined.

(** X13: the [(a, f)] pair of a validly constructed ellipsoid is always
    accepted by [a_f2Tuple], unchanged, and the polar radius computed from
    the pair is the ellipsoid's own. *)
Theorem a_f_roundtrip (E : Ellipsoid) :
  constructed E ->
  Ellipsoid.a_f E = OK (Ellipsoid.a E, Ellipsoid.f E) /\
  a_f2Tuple_b (Ellipsoid.a E, Ellipsoid.f E) = Ellipsoid.b E.
Proof.
  intros HE. apply constructed_normalised in HE. pose proof EPS_pos.
  unfold Ellipsoid.a_f, a_f2Tuple, a_f2Tuple_b, a_f2b, Float_,
    Ellipsoid.a, Ellipsoid.b, Ellipsoid.f. cbn [fst snd].
  destruct (normalised_cases E HE)
    as [(Hf & Hb & Ha)|(Hf0 & Ha & Hb & Hab & Hf & Hf1 & Hf2)].
  - rewrite (Radius__accepts _ Ha). cbn [bind].
    rewrite Hf, _spherical_0.
    rewrite bool_decide_eq_false_2 by (unfold EPS1; pose proof EPS_small; lra).
    cbn [bind]. rewrite Rabs_R0.
    rewrite decide_True by lra. auto.
  - rewrite (Radius__accepts _ Ha). cbn [bind].
    rewrite bool_decide_eq_false_2 by lra. cbn [bind].
    rewrite decide_False by lra.
    rewrite (proj2 (_spherical_false _)) by lra.
    split; [reflexivity|]. rewrite Hf. field. lra.
Qed.

Lemma a_f_roundtrip_witness :
  constructed WGS84 /\
  Ellipsoid.a_f WGS84 = OK (Ellipsoid.a WGS84, Ellipsoid.f WGS84) /\
  a_f2Tuple_b (Ellipsoid.a WGS84, Ellipsoid.f WGS84) = Ellipsoid.b WGS84.
Proof.
  split; [exact WGS84_constructed | exact (a_f_roundtrip WGS84 WGS84_constructed)].
Defined.

(** ** The registry *)

(** X14: a successful construction under a non-empty name leaves the new
    instance registered under that name and every other entry as it was;
    any later construction under the same name whose arguments pass the
    [try] block fails with [NameError] and leaves the registry unchanged. *)
Theorem registry_insert_lookup (a : R) (b f_ : option R) (name : string)
    (reg reg' : registry) (E : Ellipsoid) :
  name <> ""%string ->
  Ellipsoid.__init__ a b f_ name reg = (reg', OK E) ->
  reg' !! name = Some E /\
  (forall other, other <> name -> reg' !! other = reg !! other) /\
  (forall a2 b2 f_2 r,
     Ellipsoid.__init__try a2 b2 f_2 = OK r ->
     Ellipsoid.__init__ a2 b2 f_2 name reg' = (reg', Raise NameError)).
Proof.
  intros Hname H. unfold Ellipsoid.__init__ in H.
  destruct (try_except_ValueError (Ellipsoid.__init__try a b f_))
    as [[[[a' b'] f'] f_']|x] eqn:Htry; [|inversion H].
  destruct (_register reg name _) as [reg1|x] eqn:Hreg; [|inversion H].
  inversion H as [[Hreg' HE]]. subst reg1.
  apply bind_OK in HE as (u & _ & HE). inversion HE as [HE'].
  apply _register_OK in Hreg as [Hfree ->]; [|exact Hname].
  rewrite HE'. split; [apply lookup_insert_eq|]. split.
  - intros other Hother. apply lookup_insert_ne. congruence.
  - intros a2 b2 f_2 [[[a3 b3] f3] f_3] Htry2.
    rewrite (__init__after_try _ _ _ _ _ _ _ _ _ Htry2). cbv zeta.
    unfold _register. rewrite decide_False by exact Hname.
    rewrite lookup_insert_eq. reflexivity.
Qed.

Lemma registry_insert_lookup_witness :
  ("WGS84"%string <> ""%string /\
   Ellipsoid.__init__ R_MA None (Some 298.257223563) "WGS84" ∅
   = (<["WGS84"%string := WGS84]> ∅, OK WGS84)) /\
  (<["WGS84"%string := WGS84]> ∅ : registry) !! "WGS84"%string = Some WGS84 /\
  (forall other, other <> "WGS84"%string ->
     (<["WGS84"%string := WGS84]> ∅ : registry) !! other = (∅ : registry) !! other) /\
  (forall a2 b2 f_2 r,
     Ellipsoid.__init__try a2 b2 f_2 = OK r ->
     Ellipsoid.__init__ a2 b2 f_2 "WGS84" (<["WGS84"%string := WGS84]> ∅)
     = (<["WGS84"%string := WGS84]> ∅, Raise NameError)).
Proof.
  assert (Hname : "WGS84"%string <> ""%string) by discriminate.
  split; [split; [exact Hname | exact WGS84_run]
         | exact (registry_insert_lookup _ _ _ _ _ _ _ Hname WGS84_run)].
Defined.

(** ** Radii of curvature at a latitude *)

Lemma Phi__OK lat : Rabs lat <= 90 -> Phi_ lat 90 = OK (math.radians lat).
Proof.
  intros H. unfold Phi_, Lat. rewrite decide_False by lra. reflexivity.
Qed.

Lemma radians_bounds lat :
  Rabs lat <= 90 -> - (PI / 2) <= math.radians lat <= PI / 2.
Proof.
  intros H. unfold math.radians. pose proof PI_RGT_0.
  assert (-90 <= lat <= 90) by (split_Rabs; lra). split; nra.
Qed.

(** The square of [W], [1 - e2 sin^2 phi], of an ellipsoid at a latitude. *)
Lemma roc2__OK E phi :
  normalised E -> - (PI / 2) <= phi <= PI / 2 ->
  let W2 := 1 - _f E * (2 - _f E) * sin phi ^ 2 in
  0 < W2 /\
  Ellipsoid.roc2_ E phi false
  = OK (if decide (W2 < EPS) then (0, 0)
        else (_a E / sqrt W2 * (1 - _f E) ^ 2 / W2, _a E / sqrt W2)).
Proof.
  intros HE Hphi W2.
  pose proof (roc2__sine phi Hphi) as Hs.
  pose proof (sin_sqr_le_1 phi) as Hs1.
  set (s := if decide (Rabs phi < PI_2) then sin (Rabs phi) else 1) in *.
  assert (HW : 0 < W2) by (apply normalised_e2s2_pos; assumption).
  split; [exact HW|].
  unfold Ellipsoid.roc2_. fold s.
  rewrite e2s2_OK by (try assumption; rewrite Hs; assumption).
  rewrite Hs. cbn [bind]. fold W2.
  destruct (decide (W2 < EPS)) as [Hlt|Hge]; [reflexivity|].
  rewrite sqrt_OK by lra. cbn [bind].
  rewrite div_OK by (apply Rgt_not_eq, sqrt_lt_R0; lra). cbn [bind].
  rewrite e12_OK by assumption. cbn [bind].
  rewrite div_OK by lra. cbn [bind fst snd]. unfold Ellipsoid.a.
  replace (1 - _f E * (2 - _f E)) with ((1 - _f E) ^ 2) by ring.
  reflexivity.
Qed.

Lemma normalised_radii E :
  normalised E -> 0 < _a E /\ 0 < _b E /\ 0 < 1 - _f E /\ _b E = _a E * (1 - _f E).
Proof.
  intros HE. pose proof (normalised_a_pos E HE). pose proof (normalised_b_pos E HE).
  pose proof (normalised_f_lt_1 E HE). pose proof (normalised_b_a E HE) as Hba.
  repeat split; try lra. rewrite <- Hba. field. lra.
Qed.








Lemma roc2_OK E lat :
  normalised E -> Rabs lat <= 90 ->
  let W2 := 1 - _f E * (2 - _f E) * sin (math.radians lat) ^ 2 in
  0 < W2 /\
  Ellipsoid.roc2 E lat false
  = OK (if decide (W2 < EPS) then (0, 0)
        else (_a E / sqrt W2 * (1 - _f E) ^ 2 / W2, _a E / sqrt W2)).
Proof.
  intros HE Hlat. unfold Ellipsoid.roc2. rewrite Phi__OK by exact Hlat.
  cbn [bind]. apply roc2__OK; [exact HE | apply radians_bounds; exact Hlat].
Qed.

Lemma roc2_positive E W2 :
  normalised E -> 0 < W2 ->
  0 < _a E / sqrt W2 * (1 - _f E) ^ 2 / W2 /\ 0 < _a E / sqrt W2.
Proof.
  intros HE HW. destruct (normalised_radii E HE) as (Ha & Hb & Hf & Hba).
  assert (Hsq : 0 < sqrt W2) by (apply sqrt_lt_R0; exact HW).
  assert (Hn : 0 < _a E / sqrt W2) by (apply Rdiv_lt_0_compat; lra).
  split; [|exact Hn].
  apply Rdiv_lt_0_compat; [|exact HW].
  apply Rmult_lt_0_compat; [exact Hn|]. nra.
Qed.

(** X17: where [1 - e2 sin^2 lat] is at least [EPS], the Gaussian radius
    of curvature of a validly constructed ellipsoid is the geometric mean
    [sqrt(m n)] of the meridional and the prime-vertical radius of [roc2],
    the mean radius is their harmonic mean [2 m n / (m + n)], and the mean
    radius is at most the Gaussian one. *)
Theorem rocGauss_rocMean (E : Ellipsoid) (lat : R) :
  constructed E -> Rabs lat <= 90 ->
  EPS <= 1 - Ellipsoid.f E * (2 - Ellipsoid.f E) * sin (math.radians lat) ^ 2 ->
  exists m n,
    Ellipsoid.roc2 E lat false = OK (m, n) /\ 0 < m /\ 0 < n /\
    Ellipsoid.rocGauss E lat = OK (sqrt (m * n)) /\
    Ellipsoid.rocMean E lat = OK (2 * m * n / (m + n)) /\
    2 * m * n / (m + n) <= sqrt (m * n).
Proof.
  intros HE Hlat HWge. apply constructed_normalised in HE.
  destruct (normalised_radii E HE) as (Ha & Hb & Hf & Hba).
  pose proof EPS_pos.
  destruct (roc2_OK E lat HE Hlat) as [HW Hr].
  unfold Ellipsoid.f in HWge.
  pose proof (sin2_cos2 (math.radians lat)) as Hsc. rewrite !Rsqr_pow2 in Hsc.
  set (W2 := 1 - _f E * (2 - _f E) * sin (math.radians lat) ^ 2) in *.
  rewrite decide_False in Hr by lra.
  destruct (roc2_positive E W2 HE HW) as [Hm Hn].
  assert (Hsq : 0 < sqrt W2) by (apply sqrt_lt_R0; exact HW).
  assert (Hsq2 : sqrt W2 * sqrt W2 = W2) by (apply sqrt_sqrt; lra).
  set (m := _a E / sqrt W2 * (1 - _f E) ^ 2 / W2) in *.
  set (n := _a E / sqrt W2) in *.
  exists m, n. split; [exact Hr|]. split; [exact Hm|]. split; [exact Hn|].
  assert (Hmn : m * n = (_b E / W2) ^ 2).
  { unfold m, n. rewrite Hba. rewrite <- Hsq2 at 2 4. field. lra. }
  assert (Hg : sqrt (m * n) = _b E / W2).
  { rewrite Hmn, <- Rsqr_pow2. apply sqrt_Rsqr.
    apply Rlt_le, Rdiv_lt_0_compat; lra. }
  split; [|split].
  - unfold Ellipsoid.rocGauss, _s2_c2. rewrite Phi__OK by exact Hlat. cbn [bind].
    rewrite b2_a2_OK by exact HE. cbn [bind]. unfold Ellipsoid.b.
    replace (cos (math.radians lat) ^ 2
             + (1 - _f E) ^ 2 * (1 - cos (math.radians lat) ^ 2))
      with W2 by (unfold W2; nra).
    rewrite Hg. apply div_OK. lra.
  - unfold Ellipsoid.rocMean. unfold Ellipsoid.roc2 in Hr.
    rewrite Phi__OK in Hr |- * by exact Hlat. cbn [bind] in Hr |- *.
    rewrite Hr. cbn [bind]. apply div_OK. lra.
  - set (g := sqrt (m * n)) in *.
    assert (Hg0 : 0 < g) by (rewrite Hg; apply Rdiv_lt_0_compat; lra).
    assert (Hg2 : g * g = m * n) by (apply sqrt_sqrt; nra).
    assert (Hamgm : 2 * g <= m + n).
    { destruct (Rle_dec (2 * g) (m + n)) as [|Hn']; [assumption|]. exfalso.
      assert ((m + n) * (m + n) < (2 * g) * (2 * g))
        by (apply Rmult_le_0_lt_compat; lra).
      pose proof (pow2_ge_0 (m - n)). nra. }
    apply (Rmult_le_reg_r (m + n)); [lra|].
    replace (2 * m * n / (m + n) * (m + n)) with (2 * (g * g))
      by (rewrite Hg2; field; lra).
    nra.
Qed.

Lemma rocGauss_rocMean_witness :
  (constructed WGS84 /\ Rabs 0 <= 90 /\
   EPS <= 1 - Ellipsoid.f WGS84 * (2 - Ellipsoid.f WGS84)
              * sin (math.radians 0) ^ 2) /\
  exists m n,
    Ellipsoid.roc2 WGS84 0 false = OK (m, n) /\ 0 < m /\ 0 < n /\
    Ellipsoid.rocGauss WGS84 0 = OK (sqrt (m * n)) /\
    Ellipsoid.rocMean WGS84 0 = OK (2 * m * n / (m + n)) /\
    2 * m * n / (m + n) <= sqrt (m * n).
Proof.
  assert (H0 : Rabs 0 <= 90) by (rewrite Rabs_R0; lra).
  assert (HW : EPS <= 1 - Ellipsoid.f WGS84 * (2 - Ellipsoid.f WGS84)
                          * sin (math.radians 0) ^ 2).
  { unfold math.radians. replace (0 * PI / 180) with 0 by field.
    rewrite sin_0. unfold EPS. lra. }
  split; [split; [exact WGS84_constructed | split; [exact H0 | exact HW]]
         | exact (rocGauss_rocMean WGS84 0 WGS84_constructed H0 HW)].
Defined.

(** X18: on a validly constructed ellipsoid so flat that
    [1 - e2 sin^2 lat] is below [EPS] at a latitude, [roc2] returns two
    zero radii there and [rocMean] divides by their sum: it raises
    [ZeroDivisionError]. *)
Theorem rocMean_degenerate (E : Ellipsoid) (lat : R) :
  constructed E -> Rabs lat <= 90 ->
  1 - Ellipsoid.f E * (2 - Ellipsoid.f E) * sin (math.radians lat) ^ 2 < EPS ->
  Ellipsoid.roc2 E lat false = OK (0, 0) /\
  Ellipsoid.rocMean E lat = Raise ZeroDivisionError.
Proof.
  intros HE Hlat HWlt. apply constructed_normalised in HE.
  destruct (roc2_OK E lat HE Hlat) as [HW Hr].
  unfold Ellipsoid.f in HWlt. rewrite decide_True in Hr by exact HWlt.
  split; [exact Hr|].
  unfold Ellipsoid.rocMean. unfold Ellipsoid.roc2 in Hr.
  rewrite Phi__OK in Hr |- * by exact Hlat. cbn [bind] in Hr |- *.
  rewrite Hr. cbn [bind]. unfold div. rewrite decide_True by lra. reflexivity.
Qed.

Lemma rocMean_degenerate_witness :
  (constructed too_flat /\ Rabs 90 <= 90 /\
   1 - Ellipsoid.f too_flat * (2 - Ellipsoid.f too_flat)
       * sin (math.radians 90) ^ 2 < EPS) /\
  Ellipsoid.roc2 too_flat 90 false = OK (0, 0) /\
  Ellipsoid.rocMean too_flat 90 = Raise ZeroDivisionError.
Proof.
  assert (H90 : Rabs 90 <= 90) by (rewrite Rabs_right; lra).
  assert (HW : 1 - Ellipsoid.f too_flat * (2 - Ellipsoid.f too_flat)
                   * sin (math.radians 90) ^ 2 < EPS).
  { unfold math.radians. replace (90 * PI / 180) with (PI / 2) by field.
    rewrite sin_PI2. unfold Ellipsoid.f, too_flat, EPS. simpl. lra. }
  split; [split; [exact too_flat_constructed | split; [exact H90 | exact HW]]
         | exact (rocMean_degenerate too_flat 90 too_flat_constructed H90 HW)].
Defined.

Lemma cos_sqr_bounds x : 0 <= cos x ^ 2 <= 1.
Proof.
  pose proof (sin2_cos2 x) as H. rewrite !Rsqr_pow2 in H.
  pose proof (pow2_ge_0 (sin x)). pose proof (pow2_ge_0 (cos x)). lra.
Qed.

(** The directional blend of two positive radii. *)
Lemma blend_lt n m c :
  0 < n -> n < m -> 0 <= c <= 1 ->
  let d := c * (n / m) + (1 - c) in
  0 < d /\ n <= n / d <= m /\ n / d = 1 / (c / m + (1 - c) / n).
Proof.
  intros Hn Hnm Hc d.
  assert (Hq : 0 < n / m < 1).
  { split; [apply Rdiv_lt_0_compat; lra|].
    apply (Rmult_lt_reg_r m); [lra|]. replace (n / m * m) with n by (field; lra). lra. }
  assert (Hqm : n / m * m = n) by (field; lra).
  set (q := n / m) in *.
  assert (Hd : 0 < d) by (unfold d; nra).
  assert (Hd1 : d <= 1) by (unfold d; nra).
  assert (Hr : n / d * d = n) by (field; lra).
  split; [exact Hd|]. split; [split|].
  - apply (Rmult_le_reg_r d); [exact Hd|]. rewrite Hr. nra.
  - apply (Rmult_le_reg_r d); [exact Hd|]. rewrite Hr. unfold d. nra.
  - assert (0 < c * n + (1 - c) * m) by nra.
    unfold d, q. field. repeat split; try lra; nra.
Qed.

(** X19: the directional radius of curvature of a validly constructed
    ellipsoid never fails for a latitude within 90 degrees: it lies between
    the meridional and the prime-vertical radius of [roc2], and is the
    blend [1 / (cos^2 / m + sin^2 / n)] of the two at the bearing where they
    are positive. *)
Theorem rocBearing_between (E : Ellipsoid) (lat bearing : R) :
  constructed E -> Rabs lat <= 90 ->
  exists m n r,
    Ellipsoid.roc2 E lat false = OK (m, n) /\
    Ellipsoid.rocBearing E lat bearing = OK r /\
    Rmin m n <= r <= Rmax m n /\
    (0 < m -> 0 < n ->
     r = 1 / (cos (math.radians bearing) ^ 2 / m
              + sin (math.radians bearing) ^ 2 / n)).
Proof.
  intros HE Hlat. apply constructed_normalised in HE.
  destruct (roc2_OK E lat HE Hlat) as [HW Hr].
  set (W2 := 1 - _f E * (2 - _f E) * sin (math.radians lat) ^ 2) in *.
  pose proof (cos_sqr_bounds (math.radians bearing)) as Hc.
  pose proof (sin2_cos2 (math.radians bearing)) as Hsc. rewrite !Rsqr_pow2 in Hsc.
  assert (Hs : sin (math.radians bearing) ^ 2 = 1 - cos (math.radians bearing) ^ 2)
    by lra.
  rewrite Hs. rewrite Hr.
  unfold Ellipsoid.rocBearing, _s2_c2, Bearing_.
  unfold Ellipsoid.roc2 in Hr. rewrite Phi__OK in Hr |- * by exact Hlat.
  cbn [bind] in Hr |- *. rewrite Hr. cbn [bind].
  set (c := cos (math.radians bearing) ^ 2) in *.
  destruct (decide (W2 < EPS)) as [Hdeg|Hok].
  - rewrite !decide_False by lra. rewrite div_OK by lra.
    exists 0, 0, (0 / (c + (1 - c))). split; [reflexivity|]. split; [reflexivity|].
    replace (0 / (c + (1 - c))) with 0 by (field; lra).
    split; [|intros; lra]. unfold Rmin, Rmax. destruct (Rle_dec 0 0); lra.
  - destruct (roc2_positive E W2 HE HW) as [Hm Hn].
    set (m := _a E / sqrt W2 * (1 - _f E) ^ 2 / W2) in *.
    set (n := _a E / sqrt W2) in *.
    destruct (decide (n < m)) as [Hnm|Hnm].
    + destruct (blend_lt n m c Hn Hnm Hc) as (Hd & Hb & Hf).
      rewrite div_OK by lra. cbn [bind]. rewrite div_OK by lra.
      eexists. eexists. eexists. split; [reflexivity|]. split; [reflexivity|].
      split; [|intros _ _; exact Hf].
      rewrite Rmin_right, Rmax_left by lra. exact Hb.
    + destruct (decide (m < n)) as [Hmn|Hmn].
      * destruct (blend_lt m n (1 - c) Hm Hmn) as (Hd & Hb & Hf); [lra|].
        rewrite div_OK by lra. cbn [bind].
        replace (c + (1 - c) * (m / n)) with ((1 - c) * (m / n) + (1 - (1 - c)))
          by ring.
        rewrite div_OK by lra.
        eexists. eexists. eexists. split; [reflexivity|]. split; [reflexivity|].
        split.
        -- rewrite Rmin_left, Rmax_right by lra. exact Hb.
        -- intros _ _. rewrite Hf. f_equal. lra.
      * assert (Hmn' : m = n) by lra.
        rewrite div_OK by lra.
        eexists. eexists. eexists. split; [reflexivity|]. split; [reflexivity|].
        replace (n / (c + (1 - c))) with n by (field; lra).
        split; [rewrite Hmn', Rmin_left, Rmax_left; lra|].
        intros _ _. rewrite Hmn'. field. lra.
Qed.

Lemma rocBearing_between_witness :
  (constructed WGS84 /\ Rabs 0 <= 90) /\
  exists m n r,
    Ellipsoid.roc2 WGS84 0 false = OK (m, n) /\
    Ellipsoid.rocBearing WGS84 0 45 = OK r /\
    Rmin m n <= r <= Rmax m n /\
    (0 < m -> 0 < n ->
     r = 1 / (cos (math.radians 45) ^ 2 / m + sin (math.radians 45) ^ 2 / n)).
Proof.
  assert (H0 : Rabs 0 <= 90) by (rewrite Rabs_R0; lra).
  split; [split; [exact WGS84_constructed | exact H0]
         | exact (rocBearing_between WGS84 0 45 WGS84_constructed H0)].
Defined.

(** ** Radii of the ellipsoid at a latitude *)

Lemma sqrt_sqr_pos x : 0 <= x -> sqrt (x ^ 2) = x.
Proof. intros H. rewrite <- Rsqr_pow2. apply sqrt_Rsqr. exact H. Qed.

Lemma Rgeocentric_OK E lat :
  normalised E -> Rabs lat <= 90 ->
  let c2 := cos (math.radians lat) ^ 2 in
  let k := (1 - _f E) ^ 2 in
  0 < c2 + k * (1 - c2) /\
  Ellipsoid.Rgeocentric E lat
  = OK (sqrt ((c2 + k * (1 - c2) * k) / (c2 + k * (1 - c2))) * _a E).
Proof.
  intros HE Hlat c2 k.
  destruct (normalised_radii E HE) as (Ha & Hb & Hf & Hba).
  pose proof (cos_sqr_bounds (math.radians lat)) as Hc. fold c2 in Hc.
  assert (Hk : 0 < k) by (unfold k; nra).
  assert (HD : 0 < c2 + k * (1 - c2)) by nra.
  split; [exact HD|].
  unfold Ellipsoid.Rgeocentric, _s2_c2. rewrite Phi__OK by exact Hlat.
  cbn [bind]. rewrite b2_a2_OK by exact HE. cbn [bind]. fold c2 k.
  unfold Ellipsoid.f, Ellipsoid.a.
  destruct (normalised_cases E HE) as [(Hf0 & _)|(Hf0 & _)].
  - rewrite Hf0, truthy_0. f_equal.
    assert (Hk1 : k = 1) by (unfold k; rewrite Hf0; ring).
    rewrite Hk1.
    replace ((c2 + 1 * (1 - c2) * 1) / (c2 + 1 * (1 - c2))) with 1 by (field; lra).
    rewrite sqrt_1. ring.
  - rewrite truthy_neq by exact Hf0.
    rewrite div_OK by lra. cbn [bind].
    rewrite sqrt_OK; [reflexivity|].
    apply Rlt_le, Rdiv_lt_0_compat; [|exact HD].
    assert (0 < k * k) by nra.
    destruct (Rle_dec c2 (1 / 2)); nra.
Qed.

(** X20: the geocentric radius of a validly constructed ellipsoid at a
    latitude within 90 degrees never fails and lies between the polar and
    the equatorial radius; it is the equatorial radius at the equator and
    the polar radius at the poles. *)
Theorem Rgeocentric_between (E : Ellipsoid) (lat : R) :
  constructed E -> Rabs lat <= 90 ->
  (exists r, Ellipsoid.Rgeocentric E lat = OK r /\
             Rmin (Ellipsoid.a E) (Ellipsoid.b E) <= r
             <= Rmax (Ellipsoid.a E) (Ellipsoid.b E)) /\
  Ellipsoid.Rgeocentric E 0 = OK (Ellipsoid.a E) /\
  Ellipsoid.Rgeocentric E 90 = OK (Ellipsoid.b E) /\
  Ellipsoid.Rgeocentric E (-90) = OK (Ellipsoid.b E).
Proof.
  intros HE Hlat. apply constructed_normalised in HE.
  destruct (normalised_radii E HE) as (Ha & Hb & Hf & Hba).
  unfold Ellipsoid.a, Ellipsoid.b.
  assert (Hpole : forall c2, c2 = 0 ->
    sqrt ((c2 + (1 - _f E) ^ 2 * (1 - c2) * (1 - _f E) ^ 2)
          / (c2 + (1 - _f E) ^ 2 * (1 - c2))) * _a E = _b E).
  { intros c2 ->.
    replace ((0 + (1 - _f E) ^ 2 * (1 - 0) * (1 - _f E) ^ 2)
             / (0 + (1 - _f E) ^ 2 * (1 - 0))) with ((1 - _f E) ^ 2)
      by (field; lra).
    rewrite sqrt_sqr_pos by lra. rewrite Hba. ring. }
  split; [|split; [|split]].
  - destruct (Rgeocentric_OK E lat HE Hlat) as [HD Hr]. rewrite Hr.
    pose proof (cos_sqr_bounds (math.radians lat)) as Hc.
    set (c2 := cos (math.radians lat) ^ 2) in *.
    set (k := (1 - _f E) ^ 2) in *.
    assert (Hk : 0 < k) by (unfold k; nra).
    assert (Hsk : sqrt k = 1 - _f E) by (unfold k; apply sqrt_sqr_pos; lra).
    set (d := (c2 + k * (1 - c2) * k) / (c2 + k * (1 - c2))).
    assert (Hd : d * (c2 + k * (1 - c2)) = c2 + k * (1 - c2) * k)
      by (unfold d; field; lra).
    eexists. split; [reflexivity|].
    destruct (Rle_dec k 1) as [Hk1|Hk1].
    + assert (Hf0 : 0 <= _f E) by (unfold k in Hk1; nra).
      assert (Hkk : k * k <= k) by nra.
      assert (HN1 : k * (c2 + k * (1 - c2)) <= c2 + k * (1 - c2) * k) by nra.
      assert (HN2 : c2 + k * (1 - c2) * k <= 1 * (c2 + k * (1 - c2))) by nra.
      rewrite <- Hd in HN1, HN2.
      assert (Hdk : k <= d <= 1)
        by (split; apply (Rmult_le_reg_r (c2 + k * (1 - c2))); assumption).
      assert (H1 : sqrt k <= sqrt d) by (apply sqrt_le_1; lra).
      assert (H2 : sqrt d <= sqrt 1) by (apply sqrt_le_1; lra).
      rewrite sqrt_1 in H2. rewrite Hsk in H1.
      rewrite Rmin_right, Rmax_left by nra. rewrite Hba. split; nra.
    + assert (Hf0 : _f E <= 0) by (unfold k in Hk1; nra).
      assert (Hkk : k <= k * k) by nra.
      assert (HN1 : c2 + k * (1 - c2) * k <= k * (c2 + k * (1 - c2))) by nra.
      assert (HN2 : 1 * (c2 + k * (1 - c2)) <= c2 + k * (1 - c2) * k) by nra.
      rewrite <- Hd in HN1, HN2.
      assert (Hdk : 1 <= d <= k)
        by (split; apply (Rmult_le_reg_r (c2 + k * (1 - c2))); assumption).
      assert (H1 : sqrt 1 <= sqrt d) by (apply sqrt_le_1; lra).
      assert (H2 : sqrt d <= sqrt k) by (apply sqrt_le_1; lra).
      rewrite sqrt_1 in H1. rewrite Hsk in H2.
      rewrite Rmin_left, Rmax_right by nra. rewrite Hba. split; nra.
  - destruct (Rgeocentric_OK E 0 HE) as [HD Hr]; [rewrite Rabs_R0; lra|].
    rewrite Hr. f_equal. unfold math.radians.
    replace (0 * PI / 180) with 0 by field. rewrite cos_0.
    replace ((1 ^ 2 + (1 - _f E) ^ 2 * (1 - 1 ^ 2) * (1 - _f E) ^ 2)
             / (1 ^ 2 + (1 - _f E) ^ 2 * (1 - 1 ^ 2))) with 1 by (field; lra).
    rewrite sqrt_1. ring.
  - destruct (Rgeocentric_OK E 90 HE) as [HD Hr]; [rewrite Rabs_right; lra|].
    rewrite Hr. f_equal. apply Hpole. unfold math.radians.
    replace (90 * PI / 180) with (PI / 2) by field. rewrite cos_PI2. ring.
  - destruct (Rgeocentric_OK E (-90) HE) as [HD Hr]; [rewrite Rabs_left; lra|].
    rewrite Hr. f_equal. apply Hpole. unfold math.radians.
    replace (-90 * PI / 180) with (- (PI / 2)) by field.
    rewrite cos_neg, cos_PI2. ring.
Qed.

Lemma Rgeocentric_between_witness :
  (constructed WGS84 /\ Rabs 45 <= 90) /\
  (exists r, Ellipsoid.Rgeocentric WGS84 45 = OK r /\
             Rmin (Ellipsoid.a WGS84) (Ellipsoid.b WGS84) <= r
             <= Rmax (Ellipsoid.a WGS84) (Ellipsoid.b WGS84)) /\
  Ellipsoid.Rgeocentric WGS84 0 = OK (Ellipsoid.a WGS84) /\
  Ellipsoid.Rgeocentric WGS84 90 = OK (Ellipsoid.b WGS84) /\
  Ellipsoid.Rgeocentric WGS84 (-90) = OK (Ellipsoid.b WGS84).
Proof.
  assert (H45 : Rabs 45 <= 90) by (rewrite Rabs_right; lra).
  split; [split; [exact WGS84_constructed | exact H45]
         | exact (Rgeocentric_between WGS84 45 WGS84_constructed H45)].
Defined.

(** X21: [Rlat] never fails, whatever the latitude: it is the equatorial
    radius at latitude 0, decreases linearly with the magnitude of the
    latitude, and is the polar radius for every latitude of 90 degrees or
    beyond; it always lies between the two radii. *)
Theorem Rlat_clamped (E : Ellipsoid) (lat : R) :
  exists r,
    Ellipsoid.Rlat E lat = OK r /\
    r = Ellipsoid.a E
        - (Ellipsoid.a E - Ellipsoid.b E) * (Rmin (Rabs lat) 90 / 90) /\
    Rmin (Ellipsoid.a E) (Ellipsoid.b E) <= r
    <= Rmax (Ellipsoid.a E) (Ellipsoid.b E) /\
    (lat = 0 -> r = Ellipsoid.a E) /\
    (90 <= Rabs lat -> r = Ellipsoid.b E).
Proof.
  unfold Ellipsoid.Rlat, Lat, truthy.
  rewrite (decide_False (P := 0 > 0 /\ _)) by lra. cbn [bind].
  pose proof (Rabs_pos lat) as Hl.
  assert (Ht : 0 <= Rmin (Rabs lat) 90 / 90 <= 1).
  { unfold Rmin. destruct (Rle_dec (Rabs lat) 90); lra. }
  set (t := Rmin (Rabs lat) 90 / 90) in *.
  set (a := Ellipsoid.a E). set (b := Ellipsoid.b E).
  assert (Hr : forall r, r = a - (a - b) * t ->
    Rmin a b <= r <= Rmax a b /\ (lat = 0 -> r = a) /\ (90 <= Rabs lat -> r = b)).
  { intros r ->. split; [|split].
    - unfold Rmin, Rmax. destruct (Rle_dec a b); split; nra.
    - intros ->. unfold t. rewrite Rabs_R0, Rmin_left by lra. lra.
    - intros H90. unfold t. rewrite Rmin_right by lra. lra. }
  case_bool_decide as Hlat.
  - eexists. split; [reflexivity|].
    assert (Heq : a - (a - b) / 90 * Rmin (Rabs lat) 90 = a - (a - b) * t)
      by (unfold t; lra).
    split; [exact Heq | apply Hr; exact Heq].
  - assert (Hl0 : lat = 0) by (destruct (decide (lat = 0)); tauto).
    exists a. split; [reflexivity|].
    assert (Heq : a = a - (a - b) * t)
      by (unfold t; rewrite Hl0, Rabs_R0, Rmin_left by lra; lra).
    split; [exact Heq | apply Hr; exact Heq].
Qed.

(** ** Volume and volumetric radius *)




(** ** Symmetry and fixed points of the conformal tangent *)

Lemma hypot1_neg x : hypot1 (- x) = hypot1 x.
Proof. unfold hypot1. f_equal. ring. Qed.

Lemma hypot1_0 : hypot1 0 = 1.
Proof. unfold hypot1. replace (1 + 0 ^ 2) with 1 by ring. apply sqrt_1. Qed.

Lemma sinh_neg x : sinh (- x) = - sinh x.
Proof. unfold sinh. rewrite Ropp_involutive. lra. Qed.

Lemma es_atanh_odd E x :
  normalised E -> -1 <= x <= 1 ->
  exists r, Ellipsoid.es_atanh E x = OK r /\ Ellipsoid.es_atanh E (- x) = OK (- r).
Proof.
  intros HE Hx. unfold Ellipsoid.es_atanh, Ellipsoid.f.
  rewrite e_OK by assumption. cbn [bind].
  destruct (normalised_e_bounds E HE) as [He0 He1].
  set (e := sqrt _) in *.
  destruct (decide (_f E > 0)) as [Hpos|Hpos].
  - specialize (He1 Hpos).
    assert (Hu : -1 < e * x < 1) by (split; nra).
    unfold math.atanh. rewrite !decide_True by (split; nra). cbn [bind].
    eexists. split; [reflexivity|]. f_equal.
    replace ((1 + e * - x) / (1 - e * - x)) with (/ ((1 + e * x) / (1 - e * x)))
      by (field; lra).
    rewrite ln_Rinv by (apply Rdiv_lt_0_compat; lra). lra.
  - destruct (decide (_f E < 0)) as [Hneg|Hneg].
    + eexists. split; [reflexivity|]. f_equal.
      replace (e * - x) with (- (e * x)) by ring. rewrite atan_opp. ring.
    + exists 0. split; [reflexivity|]. f_equal. ring.
Qed.

(** X23: the conformal tangent [es_taupf] of a validly constructed
    ellipsoid whose flattening is at most 1/2 in magnitude is defined for
    every tangent, is an odd function, and keeps the sign: a northern
    latitude has a northern conformal latitude.  (The flattening is bounded
    to keep the eccentricity away from 1, where [math.atanh] is not
    defined, and the argument of [sinh] small.) *)
Theorem es_taupf_odd (E : Ellipsoid) (t : R) :
  constructed E -> Rabs (Ellipsoid.f E) <= 1 / 2 ->
  exists T,
    Ellipsoid.es_taupf E t = OK T /\
    Ellipsoid.es_taupf E (- t) = OK (- T) /\
    (0 <= t -> 0 <= T) /\ (t <= 0 -> T <= 0).
Proof.
  intros HE _. apply constructed_normalised in HE.
  pose proof (hypot1_pos t) as Hh. pose proof (div_hypot1_bounds t) as Hq.
  assert (Hodd : exists T, Ellipsoid.es_taupf E t = OK T /\
                           Ellipsoid.es_taupf E (- t) = OK (- T)).
  { unfold Ellipsoid.es_taupf. rewrite hypot1_neg.
    rewrite !div_OK by lra. cbn [bind].
    destruct (es_atanh_odd E (t / hypot1 t) HE) as (r & Hr & Hr'); [lra|].
    replace (- t / hypot1 t) with (- (t / hypot1 t)) by (field; lra).
    rewrite Hr, Hr'. cbn [bind].
    eexists. split; [reflexivity|]. f_equal.
    rewrite sinh_neg, hypot1_neg. ring. }
  destruct Hodd as (T & HT & HT'). exists T.
  split; [exact HT|]. split; [exact HT'|]. split.
  - intros Ht. eapply es_taupf_nonneg; eassumption.
  - intros Ht. assert (0 <= - T); [|lra].
    eapply (es_taupf_nonneg E (- t)); [exact HE | lra | exact HT'].
Qed.

Lemma es_taupf_odd_witness :
  (constructed WGS84 /\ Rabs (Ellipsoid.f WGS84) <= 1 / 2) /\
  exists T,
    Ellipsoid.es_taupf WGS84 1 = OK T /\
    Ellipsoid.es_taupf WGS84 (- 1) = OK (- T) /\
    (0 <= 1 -> 0 <= T) /\ (1 <= 0 -> T <= 0).
Proof.
  split; [split; [exact WGS84_constructed | exact WGS84_f_small]
         | exact (es_taupf_odd WGS84 1 WGS84_constructed WGS84_f_small)].
Defined.

Lemma sphere_constructed : constructed (mkEllipsoid 2 2 0 0 "").
Proof.
  destruct (__init__sphere 2 2 None "" ∅) as [reg' H];
    try (unfold EPS; lra); try apply lookup_empty.
  - replace ((2 - 2) / 2) with 0 by field. rewrite Rabs_R0. apply EPS_pos.
  - exists 2, (Some 2), None, ""%string, ∅, reg'. exact H.
Qed.

(** ** Auxiliary latitudes *)

Lemma radians_degrees r : math.radians (math.degrees r) = r.
Proof. unfold math.radians, math.degrees. field. apply Rgt_not_eq, PI_RGT_0. Qed.

Lemma atand_bound x : Rabs (atand x) <= 90.
Proof.
  unfold atand, math.degrees. pose proof (atan_bound x). pose proof PI_RGT_0 as Hpi.
  assert (H1 : - 90 < atan x * 180 / PI < 90).
  { split.
    - apply (Rmult_lt_reg_r PI); [lra|].
      replace (atan x * 180 / PI * PI) with (atan x * 180) by (field; lra). lra.
    - apply (Rmult_lt_reg_r PI); [lra|].
      replace (atan x * 180 / PI * PI) with (atan x * 180) by (field; lra). lra. }
  split_Rabs; lra.
Qed.

(** The forward and inverse conversion by a ratio [k] and its inverse. *)
Lemma aux_ratio_roundtrip k k' lat :
  k' * k = 1 -> Rabs lat < 90 ->
  Phi_ lat 90 = OK (math.radians lat) /\
  _aux (atand (k * tan (math.radians lat))) 90
  = OK (atand (k * tan (math.radians lat))) /\
  Phi_ (atand (k * tan (math.radians lat))) 90
  = OK (atan (k * tan (math.radians lat))) /\
  atand (k' * tan (atan (k * tan (math.radians lat)))) = lat /\
  _aux lat 90 = OK lat.
Proof.
  intros Hk Hlat.
  assert (Hphi : - (PI / 2) < math.radians lat < PI / 2).
  { unfold math.radians. pose proof PI_RGT_0.
    assert (-90 < lat < 90) by (split_Rabs; lra). split; nra. }
  pose proof (atand_bound (k * tan (math.radians lat))) as Hb.
  split; [apply Phi__OK; lra|].
  split; [unfold _aux, Lat; rewrite decide_False by lra; reflexivity|].
  split.
  { rewrite Phi__OK by exact Hb. unfold atand. rewrite radians_degrees. reflexivity. }
  split.
  - rewrite tan_atan. rewrite <- Rmult_assoc, Hk, Rmult_1_l.
    unfold atand. rewrite atan_tan by exact Hphi. apply degrees_radians.
  - unfold _aux, Lat. rewrite decide_False by lra. reflexivity.
Qed.

(** X25: for a validly constructed ellipsoid and a latitude strictly
    between -90 and 90 degrees, the geocentric and the parametric latitude
    are defined and their inverse conversions give the latitude back; on a
    sphere both are the latitude itself. *)
Theorem aux_roundtrip (E : Ellipsoid) (lat : R) :
  constructed E -> Rabs lat < 90 ->
  exists g p,
    Ellipsoid.auxGeocentric E lat false = OK g /\
    Ellipsoid.auxGeocentric E g true = OK lat /\
    Ellipsoid.auxParametric E lat false = OK p /\
    Ellipsoid.auxParametric E p true = OK lat /\
    (Ellipsoid.f E = 0 -> g = lat /\ p = lat).
Proof.
  intros HE Hlat. apply constructed_normalised in HE.
  destruct (normalised_radii E HE) as (Ha & Hb & Hf & Hba).
  unfold Ellipsoid.auxGeocentric, Ellipsoid.auxParametric,
    Ellipsoid.isEllipsoidal, Ellipsoid.f.
  destruct (normalised_cases E HE) as [(Hf0 & _)|(Hf0 & _)].
  - rewrite bool_decide_eq_false_2 by (intros H; apply H; exact Hf0).
    exists lat, lat. cbn [bind]. unfold _aux, Lat.
    rewrite !decide_False by lra. auto 10.
  - rewrite bool_decide_eq_true_2 by exact Hf0.
    destruct (a2_b2_OK E HE) as (e & He & Hev).
    rewrite b2_a2_OK, b_a_OK, He by exact HE.
    unfold Ellipsoid.a_b, Ellipsoid.a, Ellipsoid.b, Ellipsoid.f.
    rewrite truthy_neq by exact Hf0. rewrite div_OK by lra. cbn [bind].
    assert (Hk2 : e * (1 - _f E) ^ 2 = 1) by (rewrite Hev, Hba; field; lra).
    assert (Hk1 : _a E / _b E * (1 - _f E) = 1) by (rewrite Hba; field; lra).
    destruct (aux_ratio_roundtrip _ _ lat Hk2 Hlat) as (G1 & G2 & G3 & G4 & G5).
    destruct (aux_ratio_roundtrip _ _ lat Hk1 Hlat) as (P1 & P2 & P3 & P4 & P5).
    rewrite G1. cbn [bind]. rewrite G2.
    exists (atand ((1 - _f E) ^ 2 * tan (math.radians lat))),
           (atand ((1 - _f E) * tan (math.radians lat))).
    split; [reflexivity|].
    rewrite G3. cbn [bind]. rewrite G4, G5.
    split; [reflexivity|].
    rewrite P2. split; [reflexivity|].
    rewrite P3. cbn [bind]. rewrite P4, P5.
    split; [reflexivity|]. intros H0. contradiction.
Qed.

Lemma aux_roundtrip_witness :
  (constructed WGS84 /\ Rabs 45 < 90) /\
  exists g p,
    Ellipsoid.auxGeocentric WGS84 45 false = OK g /\
    Ellipsoid.auxGeocentric WGS84 g true = OK 45 /\
    Ellipsoid.auxParametric WGS84 45 false = OK p /\
    Ellipsoid.auxParametric WGS84 p true = OK 45 /\
    (Ellipsoid.f WGS84 = 0 -> g = 45 /\ p = 45).
Proof.
  assert (H45 : Rabs 45 < 90) by (rewrite Rabs_right; lra).
  split; [split; [exact WGS84_constructed | exact H45]
         | exact (aux_roundtrip WGS84 45 WGS84_constructed H45)].
Defined.

(** ** Falsing, band and pole of a projected coordinate *)

(** X26: falsing is a pure offset.  Whatever the arguments, [toUps8] with
    [falsed=True] fails exactly when it fails with [falsed=False], with
    the same exception, and otherwise returns the unfalsed coordinate with
    [_Falsing] (2000 km) added to its easting and to its northing, and
    nothing else changed but the [falsed] flag. *)
Theorem toUps8_falsing_offset (norm : R -> R -> result (Z * R * R))
    (lat lon : R) (E : Ellipsoid) (k0 : R) (pole : string) (strict : bool) :
  match toUps8 norm lat lon E k0 pole false strict with
  | OK u =>
      _falsed u = false /\
      toUps8 norm lat lon E k0 pole true strict
      = OK (mkUps (_pole u) (_easting u + _Falsing) (_northing u + _Falsing)
                  (_band u) (_datum u) true (_convergence u) (_scale_ u)
                  (_scale0 u) (_hemisphere u) (_latlon u))
  | Raise e => toUps8 norm lat lon E k0 pole true strict = Raise e
  end.
Proof.
  unfold toUps8.
  destruct (upsZoneBand5 norm lat lon strict) as [[z B p lat' lon']|e];
    cbn [bind]; [|reflexivity].
  destruct (Ellipsoid.es_taupf E _) as [T|e]; cbn [bind]; [|reflexivity].
  match goal with
  | |- context [bind ?c _] => destruct c as [r|e]; cbn [bind]; [|reflexivity]
  end.
  destruct (Ellipsoid.es_c E) as [c|e]; cbn [bind]; [|reflexivity].
  destruct (div (2 * k0 * Ellipsoid.a E) c) as [q|e]; cbn [bind]; [|reflexivity].
  match goal with
  | |- context [bind ?c _] => destruct c as [k|e]; cbn [bind]; [|reflexivity]
  end.
  unfold sincos2d, Ups__init__.
  destruct (bool_decide (upper1 (if bool_decide (pole <> ""%string) then pole else p)
                         = "N"%string));
    match goal with
    | |- context [_to3zBhp ?z ?B ?p] =>
        destruct (_to3zBhp z B p) as [[[z1 B1] p1]|e]; cbn [bind];
          [|split || reflexivity]
    end;
    try (destruct (bool_decide (z1 <> _UPS_ZONE)
                   || bool_decide (B1 <> ""%string) && bool_decide (B1 ∉ _Bands));
         cbn [bind]; [reflexivity | split; reflexivity]).
Qed.

(** X27: the band, the pole and the hemisphere of a projected coordinate
    agree.  For a validly constructed ellipsoid whose flattening is at
    most 1/2 in magnitude and a location in the UPS range short of the
    pole itself,
    [toUps8] returns a coordinate whose pole and hemisphere are both S for
    a southern and N for a northern latitude, whose band is A or B in the
    south and Y or Z in the north, the first of each pair for a western
    longitude, and which keeps the datum, the central scale and the
    [falsed] flag it was given. *)
Theorem toUps8_band_pole (norm : R -> R -> result (Z * R * R))
    (E : Ellipsoid) (k0 lat0 lon0 : R) (z : Z) (lat lon : R)
    (falsed strict : bool) :
  constructed E -> Rabs (Ellipsoid.f E) <= 1 / 2 -> 0 < k0 ->
  norm lat0 lon0 = OK (z, lat, lon) ->
  lat < _UPS_LAT_MIN \/ lat > _UPS_LAT_MAX ->
  Rabs lat < 90 ->
  exists u,
    toUps8 norm lat0 lon0 E k0 "" falsed strict = OK u /\
    _pole u = (if decide (lat < 0) then "S" else "N")%string /\
    _hemisphere u = _pole u /\
    _band u = (if decide (lat < 0)
               then (if decide (lon < 0) then "A" else "B")
               else (if decide (lon < 0) then "Y" else "Z"))%string /\
    _datum u = E /\ _scale0 u = k0 /\ _falsed u = falsed.
Proof.
  intros HE _ Hk0 Hnorm Hups Hlat. apply constructed_normalised in HE.
  assert (Hfields : forall x y cv sc,
    let u := mkUps (if decide (lat < _UPS_LAT_MIN) then "S" else "N")%string
                   x y (_Band lat lon) E falsed cv sc k0 (_hemi lat) None in
    _pole u = (if decide (lat < 0) then "S" else "N")%string /\
    _hemisphere u = _pole u /\
    _band u = (if decide (lat < 0)
               then (if decide (lon < 0) then "A" else "B")
               else (if decide (lon < 0) then "Y" else "Z"))%string /\
    _datum u = E /\ _scale0 u = k0 /\ _falsed u = falsed).
  { intros x y cv sc. cbn. unfold _hemi, _Band, _UPS_LAT_MIN, _UPS_LAT_MAX in *.
    destruct Hups as [Hs|Hn].
    - rewrite !(decide_True (P := lat < -79.5)) by lra.
      rewrite !(decide_True (P := lat < 0)) by lra.
      destruct (decide (lon < 0)); cbn; auto 10.
    - rewrite !(decide_False (P := lat < -79.5)) by lra.
      rewrite !(decide_False (P := lat < 0)) by lra.
      destruct (decide (lon < 0)); cbn; auto 10. }
  set (a := if decide (lat < _UPS_LAT_MIN) then - lat else lat).
  destruct (decide (Rabs (a - 90) < _TOL)) as [Hpole|Hpole].
  - destruct (toUps8_at_pole norm E k0 lat0 lon0 z lat lon falsed strict
                HE Hk0 Hnorm Hups) as (x & y & cv & _ & _ & Hu).
    { split; [|exact Hlat]. revert Hpole. unfold a, _UPS_LAT_MIN, _UPS_LAT_MAX in *.
      destruct (decide (lat < -79.5)); split_Rabs; lra. }
    eexists. split; [exact Hu | apply Hfields].
  - destruct (toUps8_away_from_pole norm E k0 HE Hk0 lat0 lon0 z lat lon Hnorm Hups
                falsed strict a eq_refl Hpole) as (T & C & k & _ & _ & _ & _ & Hu).
    eexists. split; [exact Hu | apply Hfields].
Qed.

Lemma toUps8_band_pole_witness :
  (constructed WGS84 /\ Rabs (Ellipsoid.f WGS84) <= 1 / 2 /\ 0 < _K0 /\
   _to3zll_in_range (-85) (-30) = OK (26%Z, -85, -30) /\
   (-85 < _UPS_LAT_MIN \/ -85 > _UPS_LAT_MAX) /\ Rabs (-85) < 90) /\
  exists u,
    toUps8 _to3zll_in_range (-85) (-30) WGS84 _K0 "" true true = OK u /\
    _pole u = (if decide (-85 < 0) then "S" else "N")%string /\
    _hemisphere u = _pole u /\
    _band u = (if decide (-85 < 0)
               then (if decide (-30 < 0) then "A" else "B")
               else (if decide (-30 < 0) then "Y" else "Z"))%string /\
    _datum u = WGS84 /\ _scale0 u = _K0 /\ _falsed u = true.
Proof.
  assert (Hk : 0 < _K0) by (unfold _K0; lra).
  assert (Hn : _to3zll_in_range (-85) (-30) = OK (26%Z, -85, -30)).
  { unfold _to3zll_in_range. rewrite decide_True by lra. do 3 f_equal.
    replace ((-30 + 180) / 6) with (IZR 25) by lra.
    rewrite <- (Int_part_spec (IZR 25) 25) by lra. reflexivity. }
  assert (Hu : -85 < _UPS_LAT_MIN \/ -85 > _UPS_LAT_MAX)
    by (left; unfold _UPS_LAT_MIN; lra).
  assert (Hl : Rabs (-85) < 90) by (rewrite Rabs_left; lra).
  split; [auto 10 using WGS84_constructed, WGS84_f_small
         | exact (toUps8_band_pole _to3zll_in_range WGS84 _K0 (-85) (-30) 26 (-85) (-30)
                    true true WGS84_constructed WGS84_f_small Hk Hn Hu Hl)].
Defined.

(** ** Rescaling the projection *)

(** The point scale of a projected northern location is proportional to
    the central scale of the projection. *)
Lemma toUps8_scale_linear (norm : R -> R -> result (Z * R * R)) E
    lat0 lon0 z lat lon :
  normalised E ->
  norm lat0 lon0 = OK (z, lat, lon) ->
  lat > _UPS_LAT_MAX -> lat < 90 ->
  exists kappa, 0 < kappa /\
    forall k0, 0 < k0 ->
      exists u, toUps8 norm lat0 lon0 E k0 "" true true = OK u /\
                _scale_ u = Some (k0 * kappa).
Proof.
  intros HE Hnorm Hmax H90.
  assert (Hups : lat < _UPS_LAT_MIN \/ lat > _UPS_LAT_MAX) by (right; exact Hmax).
  assert (Hdec : (if decide (lat < _UPS_LAT_MIN) then - lat else lat) = lat)
    by (unfold _UPS_LAT_MIN, _UPS_LAT_MAX in *; rewrite decide_False by lra; reflexivity).
  destruct (decide (Rabs (lat - 90) < _TOL)) as [Hpole|Hpole].
  - exists 1. split; [lra|]. intros k0 Hk0.
    destruct (toUps8_at_pole norm E k0 lat0 lon0 z lat lon true true
                HE Hk0 Hnorm Hups) as (x & y & cv & _ & _ & Hu).
    { unfold _UPS_LAT_MAX in *. revert Hpole. split_Rabs; lra. }
    eexists. split; [exact Hu|]. cbn. f_equal. ring.
  - destruct (es_taupf_OK E (tan (math.radians lat)) HE) as [T HT].
    destruct (es_c_OK E HE) as (c & Hc & Hcpos).
    pose proof (normalised_a_pos E HE) as Ha.
    pose proof (radial_unscaled_pos T) as Hr.
    pose proof (normalised_scale_radicand_pos E (tan (math.radians lat)) HE) as Hrad.
    set (tau := tan (math.radians lat)) in *.
    set (X := sqrt (1 + tau ^ 2)
              * sqrt (1 - _f E * (2 - _f E) + _f E * (2 - _f E) / (1 + tau ^ 2))).
    assert (HX : 0 < X).
    { unfold X. apply Rmult_lt_0_compat; apply sqrt_lt_R0; [|exact Hrad].
      pose proof (pow2_ge_0 tau). lra. }
    exists ((hypot1 T - T) * (2 / c) * X). split.
    { apply Rmult_lt_0_compat; [|exact HX].
      apply Rmult_lt_0_compat; [exact Hr|]. apply Rdiv_lt_0_compat; lra. }
    intros k0 Hk0.
    destruct (toUps8_away_from_pole norm E k0 HE Hk0 lat0 lon0 z lat lon Hnorm Hups
                true true lat (eq_sym Hdec))
      as (T' & C & k & HT' & HC & _ & Hk & Hu).
    { exact Hpole. }
    fold tau in HT'. rewrite HT in HT'. inversion HT'. subst T'.
    rewrite Hc in HC. cbn [bind] in HC. rewrite div_OK in HC by lra.
    inversion HC. subst C.
    rewrite _scale_OK in Hk by exact HE. inversion Hk as [Hk'].
    eexists. split; [exact Hu|]. cbn [_scale_]. f_equal.
    rewrite <- Hk'. fold tau. unfold X, Ellipsoid.a.
    replace (tau * (tau * 1)) with (tau ^ 2) by ring. field. lra.
Qed.

(** X28: [rescale0(lat, scale0)] sets the central scale so that the point
    scale at the given latitude becomes [scale0].  For a coordinate on a
    validly constructed ellipsoid whose flattening is at most 1/2 in
    magnitude, a scale of at least [EPS] and a latitude
    that lies in the northern UPS range short of the pole, the call
    succeeds, leaves pole, easting, northing and datum alone, and
    projecting that latitude with the new central scale gives a coordinate
    whose scale is [scale0]. *)
Theorem rescale0_point_scale (norm : R -> R -> result (Z * R * R))
    (self : Ups) (lat scale0 : R) (z : Z) (lat' lon' : R) :
  constructed (_datum self) -> Rabs (Ellipsoid.f (_datum self)) <= 1 / 2 ->
  EPS <= scale0 -> Rabs lat <= 90 ->
  norm (Rabs lat) 0 = OK (z, lat', lon') ->
  lat' > _UPS_LAT_MAX -> lat' < 90 ->
  exists self',
    rescale0 norm self lat scale0 = OK self' /\
    _pole self' = _pole self /\ _easting self' = _easting self /\
    _northing self' = _northing self /\ _datum self' = _datum self /\
    exists u,
      toUps8 norm (Rabs lat) 0 (_datum self) (_scale0 self') "" true true = OK u /\
      _scale_ u = Some scale0.
Proof.
  intros HE _ Hs0 Hlat Hnorm Hmax H90. apply constructed_normalised in HE.
  pose proof EPS_pos.
  destruct (toUps8_scale_linear norm (_datum self) (Rabs lat) 0 z lat' lon'
              HE Hnorm Hmax H90) as (kappa & Hkappa & Hlin).
  destruct (Hlin _K1) as (u1 & Hu1 & Hs1); [unfold _K1; lra|].
  assert (Hk : 0 < scale0 / (_K1 * kappa))
    by (apply Rdiv_lt_0_compat; unfold _K1; nra).
  destruct (Hlin (scale0 / (_K1 * kappa)) Hk) as (u2 & Hu2 & Hs2).
  unfold rescale0, Scalar_, Lat.
  rewrite decide_False by lra. cbn [bind].
  rewrite decide_False by lra. cbn [bind].
  rewrite Hu1. cbn [bind]. rewrite Hs1.
  rewrite div_OK by (unfold _K1; nra). cbn [bind].
  assert (Hscale : forall s', _scale0 s' = scale0 / (_K1 * kappa) ->
    exists u, toUps8 norm (Rabs lat) 0 (_datum self) (_scale0 s') "" true true = OK u
              /\ _scale_ u = Some scale0).
  { intros s' ->. exists u2. split; [exact Hu2|]. rewrite Hs2. f_equal.
    unfold _K1. field. lra. }
  case_bool_decide as Hne.
  - eexists. do 5 (split; [reflexivity|]). apply Hscale. reflexivity.
  - exists self. do 5 (split; [reflexivity|]). apply Hscale.
    destruct (decide (_scale0 self = scale0 / (_K1 * kappa))); tauto.
Qed.

Lemma rescale0_point_scale_witness :
  (constructed WGS84 /\ Rabs (Ellipsoid.f WGS84) <= 1 / 2 /\
   EPS <= 1 /\ Rabs 85 <= 90 /\
   _to3zll_in_range (Rabs 85) 0 = OK (31%Z, 85, 0) /\
   85 > _UPS_LAT_MAX /\ 85 < 90) /\
  exists self',
    rescale0 _to3zll_in_range
      (mkUps "N" 0 0 "" WGS84 false None None _K0 "" None) 85 1 = OK self' /\
    _pole self' = "N"%string /\ _easting self' = 0 /\
    _northing self' = 0 /\ _datum self' = WGS84 /\
    exists u,
      toUps8 _to3zll_in_range (Rabs 85) 0 WGS84 (_scale0 self') "" true true = OK u /\
      _scale_ u = Some 1.
Proof.
  assert (H1 : EPS <= 1) by (unfold EPS; lra).
  assert (H2 : Rabs 85 <= 90) by (rewrite Rabs_right; lra).
  assert (H3 : _to3zll_in_range (Rabs 85) 0 = OK (31%Z, 85, 0)).
  { rewrite Rabs_right by lra. unfold _to3zll_in_range.
    rewrite decide_True by lra. do 3 f_equal.
    replace ((0 + 180) / 6) with (IZR 30) by lra.
    rewrite <- (Int_part_spec (IZR 30) 30) by lra. reflexivity. }
  assert (H4 : 85 > _UPS_LAT_MAX) by (unfold _UPS_LAT_MAX; lra).
  assert (H5 : 85 < 90) by lra.
  split; [auto 10 using WGS84_constructed, WGS84_f_small
         | exact (rescale0_point_scale _to3zll_in_range
                    (mkUps "N" 0 0 "" WGS84 false None None _K0 "" None) 85 1
                    31 85 0 WGS84_constructed WGS84_f_small H1 H2 H3 H4 H5)].
Defined.

(** X29: [rescale0] rejects a scale below [EPS] with [UPSError], and, as
    it projects the latitude with [toUps8] in strict mode, a latitude
    outside the UPS range with [RangeError]: every latitude whose
    magnitude is normalised to at most 83.5 degrees. *)
Theorem rescale0_errors (norm : R -> R -> result (Z * R * R))
    (self : Ups) (lat scale0 : R) (z : Z) (lat' lon' : R) :
  (scale0 < EPS -> rescale0 norm self lat scale0 = Raise UPSError) /\
  (EPS <= scale0 -> Rabs lat <= 90 ->
   norm (Rabs lat) 0 = OK (z, lat', lon') ->
   _UPS_LAT_MIN <= lat' <= _UPS_LAT_MAX ->
   rescale0 norm self lat scale0 = Raise RangeError).
Proof.
  unfold rescale0, Scalar_, Lat. split.
  - intros Hs. rewrite decide_True by exact Hs. reflexivity.
  - intros Hs Hlat Hnorm Hmid.
    rewrite decide_False by lra. cbn [bind].
    rewrite decide_False by lra. cbn [bind].
    unfold toUps8, upsZoneBand5. rewrite Hnorm. cbn [bind].
    rewrite !decide_False by lra. reflexivity.
Qed.

Lemma rescale0_errors_witness :
  rescale0 _to3zll_in_range
    (mkUps "N" 0 0 "" WGS84 false None None _K0 "" None) 81 (EPS / 2)
  = Raise UPSError /\
  rescale0 _to3zll_in_range
    (mkUps "N" 0 0 "" WGS84 false None None _K0 "" None) 81 1
  = Raise RangeError.
Proof.
  assert (H0 : EPS / 2 < EPS) by (unfold EPS; lra).
  assert (H1 : EPS <= 1) by (unfold EPS; lra).
  assert (H2 : Rabs 81 <= 90) by (rewrite Rabs_right; lra).
  assert (H3 : _to3zll_in_range (Rabs 81) 0 = OK (31%Z, 81, 0)).
  { rewrite Rabs_right by lra. unfold _to3zll_in_range.
    rewrite decide_True by lra. do 3 f_equal.
    replace ((0 + 180) / 6) with (IZR 30) by lra.
    rewrite <- (Int_part_spec (IZR 30) 30) by lra. reflexivity. }
  assert (H4 : _UPS_LAT_MIN <= 81 <= _UPS_LAT_MAX)
    by (unfold _UPS_LAT_MIN, _UPS_LAT_MAX; lra).
  split.
  - exact (proj1 (rescale0_errors _to3zll_in_range
             (mkUps "N" 0 0 "" WGS84 false None None _K0 "" None) 81 (EPS / 2)
             31 81 0) H0).
  - exact (proj2 (rescale0_errors _to3zll_in_range
             (mkUps "N" 0 0 "" WGS84 false None None _K0 "" None) 81 1
             31 81 0) H1 H2 H3 H4).
Defined.

(** ** Projecting outside the UPS range *)

Lemma Ups__init__no_band k0 p x y E falsed c k :
  p = "N"%string \/ p = "S"%string ->
  Ups__init__ k0 _UPS_ZONE p x y "" E falsed c k
  = OK (mkUps p x y "" E falsed c k k0 "" None).
Proof.
  intros Hp. unfold Ups__init__, _to3zBhp.
  assert (Hup : upper1 p = p) by (destruct Hp as [-> | ->]; reflexivity).
  rewrite Hup.
  assert (Hb : bool_decide (p = "N"%string) || bool_decide (p = "S"%string) = true).
  { destruct Hp as [-> | ->]; reflexivity. }
  rewrite Hb. cbn [bind].
  rewrite (bool_decide_eq_false_2 (_UPS_ZONE <> _UPS_ZONE)) by (intros H; apply H; reflexivity).
  rewrite (bool_decide_eq_false_2 (""%string <> ""%string)) by (intros H; apply H; reflexivity).
  reflexivity.
Qed.

(** X30: between the two UPS ranges [toUps8] depends on [strict].  For a
    location normalised to a latitude from -79.5 to 83.5 degrees, the
    strict call fails with [RangeError], while the non-strict call on a
    validly constructed ellipsoid whose flattening is at most 1/2 in
    magnitude projects it all the same: onto the pole of its hemisphere,
    with an empty band, and with the datum, central scale and [falsed]
    flag it was given. *)
Theorem toUps8_outside_range (norm : R -> R -> result (Z * R * R))
    (E : Ellipsoid) (k0 lat0 lon0 : R) (z : Z) (lat lon : R) (falsed : bool) :
  0 < k0 ->
  norm lat0 lon0 = OK (z, lat, lon) ->
  _UPS_LAT_MIN <= lat <= _UPS_LAT_MAX ->
  toUps8 norm lat0 lon0 E k0 "" falsed true = Raise RangeError /\
  (constructed E -> Rabs (Ellipsoid.f E) <= 1 / 2 ->
   exists u,
     toUps8 norm lat0 lon0 E k0 "" falsed false = OK u /\
     _pole u = _hemi lat /\ _hemisphere u = _hemi lat /\ _band u = ""%string /\
     _datum u = E /\ _scale0 u = k0 /\ _falsed u = falsed).
Proof.
  intros Hk0 Hnorm Hmid.
  pose proof _TOL_lt_1 as HTOL.
  unfold toUps8, upsZoneBand5. rewrite Hnorm. cbn [bind].
  rewrite !(decide_False (P := lat < _UPS_LAT_MIN)) by lra.
  rewrite !(decide_False (P := lat > _UPS_LAT_MAX)) by lra.
  split; [reflexivity|]. intros HE _. apply constructed_normalised in HE.
  cbn [bind].
  rewrite (bool_decide_eq_false_2 (""%string <> ""%string)) by (intros H; apply H; reflexivity).
  assert (Hp : upper1 (_hemi lat) = _hemi lat
               /\ (_hemi lat = "N"%string \/ _hemi lat = "S"%string))
    by (unfold _hemi; destruct (decide (lat < 0)); split; auto).
  destruct Hp as [Hup Hp]. rewrite Hup.
  set (a := if bool_decide (_hemi lat = "N"%string) then lat else - lat).
  assert (Ha : Rabs (a - 90) >= 1).
  { unfold a, _hemi, _UPS_LAT_MIN, _UPS_LAT_MAX in *.
    destruct (decide (lat < 0));
      [rewrite bool_decide_eq_false_2 by discriminate
      | rewrite bool_decide_eq_true_2 by reflexivity]; split_Rabs; lra. }
  rewrite (bool_decide_eq_false_2 (Rabs (a - 90) < _TOL)) by lra.
  destruct (es_taupf_OK E (tan (math.radians a)) HE) as [T ->]. cbn [bind].
  rewrite radial_unscaled. cbn [bind].
  destruct (es_c_OK E HE) as (c & -> & Hc). cbn [bind].
  rewrite div_OK by lra. cbn [bind].
  rewrite _scale_OK by exact HE. cbn [bind]. unfold sincos2d.
  assert (Hz : (if bool_decide (z <> _UPS_ZONE) && negb false then _UPS_ZONE else z)
               = _UPS_ZONE).
  { case_bool_decide as Hz; [reflexivity|]. cbn.
    destruct (decide (z = _UPS_ZONE)); tauto. }
  rewrite Hz.
  destruct (bool_decide (_hemi lat = "N"%string)); destruct falsed;
    rewrite Ups__init__no_band by exact Hp; cbn [bind];
    eexists; (split; [reflexivity|]); cbn; auto 10.
Qed.

Lemma toUps8_outside_range_witness :
  (0 < _K0 /\
   _to3zll_in_range 45 0 = OK (31%Z, 45, 0) /\
   _UPS_LAT_MIN <= 45 <= _UPS_LAT_MAX /\
   constructed WGS84 /\ Rabs (Ellipsoid.f WGS84) <= 1 / 2) /\
  toUps8 _to3zll_in_range 45 0 WGS84 _K0 "" true true = Raise RangeError /\
  exists u,
    toUps8 _to3zll_in_range 45 0 WGS84 _K0 "" true false = OK u /\
    _pole u = _hemi 45 /\ _hemisphere u = _hemi 45 /\ _band u = ""%string /\
    _datum u = WGS84 /\ _scale0 u = _K0 /\ _falsed u = true.
Proof.
  assert (Hk : 0 < _K0) by (unfold _K0; lra).
  assert (Hn : _to3zll_in_range 45 0 = OK (31%Z, 45, 0)).
  { unfold _to3zll_in_range. rewrite decide_True by lra. do 3 f_equal.
    replace ((0 + 180) / 6) with (IZR 30) by lra.
    rewrite <- (Int_part_spec (IZR 30) 30) by lra. reflexivity. }
  assert (Hm : _UPS_LAT_MIN <= 45 <= _UPS_LAT_MAX)
    by (unfold _UPS_LAT_MIN, _UPS_LAT_MAX; lra).
  split; [auto 10 using WGS84_constructed, WGS84_f_small|].
  destruct (toUps8_outside_range _to3zll_in_range WGS84 _K0 45 0 31 45 0 true
              Hk Hn Hm) as [Hstrict Hloose].
  split; [exact Hstrict | exact (Hloose WGS84_constructed WGS84_f_small)].
Defined.

(** ** The Newton inverse within the range of floats *)

Lemma float_max_lower : 10 ^ 307 <= float_max.
Proof.
  unfold float_max.
  assert (H : 10 ^ 307 <= 2 ^ 1023).
  { rewrite !pow_IZR. apply IZR_le, Z.leb_le. vm_compute. reflexivity. }
  assert (0 < 2 ^ 1023) by (apply pow_lt; lra).
  unfold EPS. nra.
Qed.










Section NewtonLoop.

Variables (E : Ellipsoid) (T_ tol e Hmax : R).
Hypothesis HE : normalised E.
Hypothesis Hf : Rabs (_f E) <= 1 / 2.
Hypothesis He : 0 < e <= 4.
Hypothesis HHmax : 145 * Hmax ^ 3 <= float_max.


End NewtonLoop.






(** ** Estimates that need no update *)

Lemma es_tauf_fixed E taup e :
  normalised E ->
  Ellipsoid.a2_b2 E = OK e ->
  Ellipsoid.es_taupf E (taup * e) = OK taup ->
  Rabs (taup * e) <= float_max ->
  e + (taup * e) ^ 2 <= float_max ->
  hypot1 (taup * e) * hypot1 taup <= float_max ->
  0 <= e ->
  Ellipsoid.es_tauf_passes E taup = OK (taup * e + 0, 1%nat).
Proof.
  intros HE He Hfix H1 H2 H3 He0. pose proof _TOL_pos.
  pose proof float_max_lower as Hlo.
  assert (H307 : 0 < 10 ^ 307) by (apply pow_lt; lra).
  unfold Ellipsoid.es_tauf_passes. rewrite He. cbn [bind].
  rewrite decide_False by lra.
  cbn [Ellipsoid.es_tauf_loop]. unfold Ellipsoid.es_tauf_step.
  rewrite Hfix. cbn [bind]. unfold float_pow2.
  rewrite (decide_False (P := float_max < (taup * e) ^ 2)) by lra. cbn [bind].
  replace (taup - taup) with 0 by ring.
  rewrite Rmult_0_l, Rabs_R0.
  rewrite decide_False by (intros [Hx|Hx]; lra).
  rewrite decide_False by lra.
  rewrite div_OK
    by (pose proof (hypot1_pos (taup * e)); pose proof (hypot1_pos taup); nra).
  cbn [bind]. unfold fsum2_. cbn [fst snd].
  replace (0 / (hypot1 (taup * e) * hypot1 taup)) with 0 by (unfold Rdiv; ring).
  replace (taup * e + 0 - taup * e) with 0 by ring.
  rewrite Rabs_R0.
  rewrite decide_True; [reflexivity|].
  assert (1 <= Rmax (Rabs taup) 1) by apply Rmax_r. nra.
Qed.

(** The squared ratio of the radii of a valid ellipsoid is a float. *)
Lemma normalised_a2_b2_float E :
  normalised E -> 0 < (_a E / _b E) ^ 2 <= float_max.
Proof.
  intros HE. pose proof EPS_pos as HEPS. pose proof float_max_lower as Hlo.
  assert (Hc : 4503599627370496 ^ 2 <= 10 ^ 307).
  { rewrite !pow_IZR. apply IZR_le, Z.leb_le. vm_compute. reflexivity. }
  destruct (normalised_cases E HE)
    as [(Hf0 & Hb & Ha)|(Hf0 & Ha & Hb & Hab & Hfe & Hf1 & Hf2)].
  - rewrite Hb. replace (_a E / _a E) with 1 by (field; lra).
    assert (1 <= 10 ^ 307) by (apply pow_R1_Rle; lra). lra.
  - assert (Hq : _b E / _a E = 1 - _f E) by (rewrite Hfe; field; lra).
    assert (Hr : _a E / _b E = / (1 - _f E)) by (rewrite <- Hq; field; lra).
    rewrite Hr. unfold EPS1 in Hf2.
    assert (Hinv : 0 < / (1 - _f E) <= 4503599627370496).
    { split; [apply Rinv_0_lt_compat; lra|].
      rewrite <- (Rinv_inv 4503599627370496). fold EPS.
      apply Rinv_le_contravar; lra. }
    split; [apply pow_lt; lra|].
    apply Rle_trans with (4503599627370496 ^ 2); [apply pow_incr; lra | lra].
Qed.

(** X24: the Newton inversion [es_tauf] stops after its first pass when
    its starting guess already solves the equation.  So on a sphere
    [es_taupf] is the identity, and so is [es_tauf], after one pass, for
    every tangent of at most [10^150] in magnitude (the square of a tangent
    beyond the range of floats raises [OverflowError]); and on every
    validly constructed ellipsoid [es_tauf(0)] is 0 after one pass. *)
Theorem es_tauf_first_pass (E : Ellipsoid) (taup : R) :
  constructed E ->
  (Ellipsoid.f E = 0 ->
   Ellipsoid.es_taupf E taup = OK taup /\
   (Rabs taup <= 10 ^ 150 ->
    Ellipsoid.es_tauf E taup = OK taup /\
    exists t, Ellipsoid.es_tauf_passes E taup = OK (t, 1%nat))) /\
  Ellipsoid.es_tauf E 0 = OK 0 /\
  exists t, Ellipsoid.es_tauf_passes E 0 = OK (t, 1%nat).
Proof.
  intros HE. apply constructed_normalised in HE.
  destruct (a2_b2_OK E HE) as (e & He & Hev).
  pose proof (normalised_a2_b2_float E HE) as Hfl. rewrite <- Hev in Hfl.
  pose proof float_max_lower as Hlo.
  split.
  - intros Hf0. unfold Ellipsoid.f in Hf0.
    assert (He1 : e = 1).
    { unfold Ellipsoid.a2_b2, Ellipsoid.f in He. rewrite Hf0, truthy_0 in He.
      congruence. }
    clear Hev. subst e.
    assert (Hid : forall t, Ellipsoid.es_taupf E t = OK t).
    { intros t. unfold Ellipsoid.es_taupf, Ellipsoid.es_atanh, Ellipsoid.f.
      rewrite div_OK by (pose proof (hypot1_pos t); lra). cbn [bind].
      rewrite Hf0. rewrite !decide_False by lra. cbn [bind].
      f_equal. rewrite sinh_0, hypot1_0. ring. }
    split; [apply Hid|]. intros Hb.
    assert (H150 : 1 <= 10 ^ 150) by (apply pow_R1_Rle; lra).
    assert (Hsq : taup ^ 2 <= 10 ^ 150 * 10 ^ 150).
    { rewrite <- pow2_abs. replace (Rabs taup ^ 2) with (Rabs taup * Rabs taup) by ring.
      pose proof (Rabs_pos taup). apply Rmult_le_compat; lra. }
    assert (H300 : 1 + 10 ^ 150 * 10 ^ 150 <= 10 ^ 307).
    { replace (1 + 10 ^ 150 * 10 ^ 150) with (IZR 1 + IZR 10 ^ 150 * IZR 10 ^ 150)
        by reflexivity.
      rewrite !pow_IZR, <- mult_IZR, <- plus_IZR. apply IZR_le, Z.leb_le.
      vm_compute. reflexivity. }
    assert (Hp : Ellipsoid.es_tauf_passes E taup = OK (taup * 1 + 0, 1%nat)).
    { assert (H1 : 10 ^ 150 <= 10 ^ 150 * 10 ^ 150) by nra.
      apply (es_tauf_fixed E taup 1 HE He); rewrite ?Rmult_1_r.
      - apply Hid.
      - lra.
      - lra.
      - replace (hypot1 taup * hypot1 taup) with (hypot1 taup ^ 2) by ring.
        rewrite hypot1_sqr. lra.
      - lra. }
    split; [|eexists; exact Hp].
    unfold Ellipsoid.es_tauf. rewrite Hp. cbn [bind fst]. f_equal. ring.
  - assert (H0 : Ellipsoid.es_taupf E (0 * e) = OK 0).
    { unfold Ellipsoid.es_taupf. rewrite Rmult_0_l, hypot1_0.
      rewrite div_OK by lra. cbn [bind].
      replace (0 / 1) with 0 by field.
      destruct (es_atanh_odd E 0 HE) as (r & Hr & Hr'); [lra|].
      rewrite Ropp_0 in Hr'. rewrite Hr in Hr'.
      assert (Hr0 : r = 0) by (inversion Hr'; lra).
      rewrite Hr, Hr0. cbn [bind]. f_equal.
      rewrite sinh_0. ring. }
    assert (H307 : 1 <= 10 ^ 307) by (apply pow_R1_Rle; lra).
    assert (Hp : Ellipsoid.es_tauf_passes E 0 = OK (0 * e + 0, 1%nat)).
    { apply (es_tauf_fixed E 0 e HE He H0); rewrite ?Rmult_0_l, ?Rabs_R0, ?hypot1_0.
      - lra.
      - replace (e + 0 ^ 2) with e by ring. lra.
      - lra.
      - lra. }
    split; [|eexists; exact Hp].
    unfold Ellipsoid.es_tauf. rewrite Hp. cbn [bind fst]. f_equal. ring.
Qed.

Lemma es_tauf_first_pass_witness :
  (constructed (mkEllipsoid 2 2 0 0 "") /\
   Ellipsoid.f (mkEllipsoid 2 2 0 0 "") = 0 /\ Rabs 1 <= 10 ^ 150) /\
  Ellipsoid.es_taupf (mkEllipsoid 2 2 0 0 "") 1 = OK 1 /\
  Ellipsoid.es_tauf (mkEllipsoid 2 2 0 0 "") 1 = OK 1 /\
  (exists t, Ellipsoid.es_tauf_passes (mkEllipsoid 2 2 0 0 "") 1 = OK (t, 1%nat)) /\
  Ellipsoid.es_tauf (mkEllipsoid 2 2 0 0 "") 0 = OK 0 /\
  exists t, Ellipsoid.es_tauf_passes (mkEllipsoid 2 2 0 0 "") 0 = OK (t, 1%nat).
Proof.
  assert (Hf : Ellipsoid.f (mkEllipsoid 2 2 0 0 "") = 0) by reflexivity.
  assert (Hb : Rabs 1 <= 10 ^ 150) by (rewrite Rabs_R1; apply pow_R1_Rle; lra).
  split; [auto using sphere_constructed|].
  destruct (es_tauf_first_pass (mkEllipsoid 2 2 0 0 "") 1 sphere_constructed)
    as (Hs & H0 & Hp0).
  destruct (Hs Hf) as (Hid & Hinv).
  destruct (Hinv Hb) as (Ht & Hp).
  auto 10.
Defined.

(** ** The inverse projection away from the pole *)



Section Inverse.

Variable LLEB : R -> R -> Ellipsoid -> result (R * R).
Variables (E : Ellipsoid) (k0 c C T : R).
Hypothesis HE : normalised E.
Hypothesis HLL : forall a b, LLEB a b E = OK (a, b).
Hypothesis Hc : Ellipsoid.es_c E = OK c.
Hypothesis HC : div (2 * k0 * Ellipsoid.a E) c = OK C.
Hypothesis HCpos : 0 < C.



End Inverse.

(** ** The tangent of a latitude short of the pole *)




(** ** The round trip of the longitude *)


